(** * The news-headline fine-tuning pipeline of [fine_tuning.py]

    A shallow embedding of the script and of the library calls it is glued
    from.  Pandas frames are lists of labelled rows, numpy arrays and torch
    tensors are lists, exceptions are an error monad, and the effects of the
    training loop (optimizer calls, forward passes, checkpoint files) are
    recorded in an explicit world with an event trace.

    What the script delegates to third-party code and what cannot be computed
    here (the random generators, the word-piece vocabulary, the BERT forward
    pass, the optimizer, the loss value) enters as an interface
    ([Numpy], [Torch]) whose operations are opaque.  Floating point numbers
    are idealised as rationals. *)

From Stdlib Require Import ZArith QArith_base Qround Lia.
From stdpp Require Import base tactics option list sorting strings gmap pretty.

Close Scope Q_scope.

(** ** Exceptions *)

Inductive exn : Set :=
  | KeyError
  | ValueError
  | ZeroDivisionError
  | IndexError
  | RuntimeError.

Inductive result (A : Type) : Type :=
  | Ok (a : A)
  | Raise (e : exn).
Arguments Ok {A} a.
Arguments Raise {A} e.

Global Instance result_bind : MBind result := λ A B k m,
  match m with
  | Ok a => k a
  | Raise e => Raise e
  end.

Fixpoint rmapM {A B} (f : A → result B) (l : list A) : result (list B) :=
  match l with
  | [] => Ok []
  | x :: l' =>
      match f x with
      | Ok y =>
          match rmapM f l' with
          | Ok ys => Ok (y :: ys)
          | Raise e => Raise e
          end
      | Raise e => Raise e
      end
  end.

(** ** Pandas: frames, series and the operations the script calls *)

(** One line of [newsCorpora_re.csv], with the column names given to
    [pd.read_csv]. *)
Record news := {
  ID : string;
  TITLE : string;
  URL : string;
  PUBLISHER : string;
  CATEGORY : string;
  STORY : string;
  HOSTNAME : string;
  TIMESTAMP : string
}.

(** A frame is the list of its rows, each with its index label.  A series is
    one column of it, with the same labels. *)
Abbreviation Frame A := (list (nat * A)).

(** The two columns kept by [df.loc[..., ['TITLE', 'CATEGORY']]]. *)
Record headline := { title : string; category : string }.

Abbreviation DataFrame := (Frame headline).
Abbreviation Series := (Frame string).

(** [pd.read_csv(..., header=None)]: rows are labelled 0, 1, 2, ... *)
Definition read_csv (lines : list news) : Frame news :=
  imap (λ i r, (i, r)) lines.

Definition publishers : list string :=
  ["Reuters"; "Huffington Post"; "Businessweek"; "Contactmusic.com"; "Daily Mail"].

(** [df.loc[df['PUBLISHER'].isin([...]), ['TITLE', 'CATEGORY']]]: the rows keep
    their labels. *)
Definition extract (df : Frame news) : DataFrame :=
  (λ p, (p.1, {| title := TITLE p.2; category := CATEGORY p.2 |}))
    <$> filter (λ p, PUBLISHER p.2 ∈ publishers) df.

(** [df.reset_index(drop=True, inplace=True)]. *)
Definition reset_index {A} (df : Frame A) : Frame A :=
  imap (λ i p, (i, p.2)) df.

(** [df['TITLE']] and [df['CATEGORY']]. *)
Definition col_TITLE (df : DataFrame) : Series := (λ p, (p.1, title p.2)) <$> df.
Definition col_CATEGORY (df : DataFrame) : Series := (λ p, (p.1, category p.2)) <$> df.

(** [s[:k]] on a series or on an array: a positional slice. *)
Definition slice_to {A} (k : nat) (l : list A) : list A := take k l.

(** [s[index]] on a series with an integer index: lookup by label. *)
Fixpoint series_getitem (s : Series) (index : nat) : result string :=
  match s with
  | [] => Raise KeyError
  | (label, v) :: s' =>
      if decide (label = index) then Ok v else series_getitem s' index
  end.

(** [a[index]] on an array, for an index that is not negative. *)
Definition array_getitem {A} (a : list A) (index : nat) : result A :=
  match a !! index with
  | Some x => Ok x
  | None => Raise IndexError
  end.

(** Python compares strings by code point. *)
Definition str_le (a b : string) : Prop := String.leb a b = true.

Global Instance str_le_dec : RelDecision str_le.
Proof. intros a b. unfold str_le. apply _. Defined.

(** The sorted distinct values of a column, the categories that
    [pd.get_dummies] makes a column for. *)
Definition levels (values : list string) : list string :=
  merge_sort str_le (remove_dups values).

(** [pd.get_dummies(df, columns=['CATEGORY'])], the indicator columns of the
    result: one column [CATEGORY_v] per value [v] present in the frame. *)
Definition get_dummies (df : DataFrame) : list (string * list Z) :=
  (λ v, ("CATEGORY_" +:+ v,
         (λ p, if decide (category p.2 = v) then 1%Z else 0%Z) <$> df))
    <$> levels ((λ p, category p.2) <$> df).

Fixpoint column (cols : list (string * list Z)) (name : string) : result (list Z) :=
  match cols with
  | [] => Raise KeyError
  | (n, c) :: cols' => if decide (n = name) then Ok c else column cols' name
  end.

(** [frame[[name; ...]]]: the named columns, in the order asked for; a name
    that is no column raises [KeyError]. *)
Definition getitem_columns (cols : list (string * list Z)) (names : list string)
  : result (list (list Z)) :=
  rmapM (column cols) names.

(** [.values]: the frame as a row-major matrix. *)
Definition values (n_rows : nat) (cols : list (list Z)) : list (list Z) :=
  (λ i, (λ c, nth i c 0%Z) <$> cols) <$> seq 0 n_rows.

(** ** The label encoder (lines 193-195) *)

Definition label_columns : list string :=
  ["CATEGORY_b"; "CATEGORY_e"; "CATEGORY_t"; "CATEGORY_m"].

(** The category letter each selected column stands for. *)
Definition classes : list string := ["b"; "e"; "t"; "m"].

Definition label_encoder (part : DataFrame) : result (list (list Z)) :=
  cols ← getitem_columns (get_dummies part) label_columns;
  Ok (values (length part) cols).

Definition one_hot_labels (train valid test : DataFrame)
  : result (list (list Z) * list (list Z) * list (list Z)) :=
  y_train ← label_encoder train;
  y_valid ← label_encoder valid;
  y_test ← label_encoder test;
  Ok (y_train, y_valid, y_test).

(** ** Numpy's random generator and scikit-learn's [train_test_split]

    The generator and the two places where scikit-learn consumes it are
    opaque: [rng_permutation g x] is [g.permutation(x)], and
    [approximate_mode counts n g] is
    [sklearn.utils._approximate_mode(counts, n, g)], which spreads [n] draws
    over the classes in proportion to their counts (in floating point, breaking
    ties with the generator).  The test sizes 0.2 and 0.5 are taken as the
    rationals 2/10 and 5/10: the double product [test_size * n_samples] has
    the same ceiling for every table that fits in memory. *)

Class Numpy : Type := {
  RandomState : Type;
  seeded : Z → RandomState;
  rng_permutation : RandomState → list nat → list nat * RandomState;
  approximate_mode : list nat → nat → RandomState → list nat * RandomState
}.

(** What is assumed of them: a permutation is a permutation, and the
    apportionment hands out exactly [n] draws, to each class the floor or the
    ceiling of its proportional share [c * n / sum counts]. *)
Class NumpyLaws (np : Numpy) : Prop := {
  rng_permutation_Permutation g x : (rng_permutation g x).1 ≡ₚ x;
  approximate_mode_length counts n g :
    length (approximate_mode counts n g).1 = length counts;
  approximate_mode_sum counts n g :
    n ≤ sum_list counts → sum_list (approximate_mode counts n g).1 = n;
  approximate_mode_share counts n g i c k :
    n ≤ sum_list counts → 0 < sum_list counts →
    counts !! i = Some c → (approximate_mode counts n g).1 !! i = Some k →
    k * sum_list counts < c * n + sum_list counts ∧
    c * n < k * sum_list counts + sum_list counts
}.

Section sklearn.
Context {np : Numpy}.

(** [check_random_state(seed)]: an integer seeds a generator of its own,
    [None] is numpy's global generator. *)
Definition check_random_state (random_state : option Z) (global : RandomState)
  : RandomState :=
  match random_state with
  | Some s => seeded s
  | None => global
  end.

(** [_validate_shuffle_split] for a float [test_size] and [train_size=None]. *)
Definition validate_shuffle_split (n_samples : nat) (test_size : Q)
  : result (nat * nat) :=
  if negb (Qle_bool test_size 0%Q || Qle_bool 1%Q test_size)
  then
    let n_test := Z.to_nat (Qceiling (test_size * inject_Z (Z.of_nat n_samples))%Q) in
    let n_train := n_samples - n_test in
    if decide (n_train = 0) then Raise ValueError else Ok (n_train, n_test)
  else Raise ValueError.

(** The positions of the samples of class [c], in increasing order (the
    pieces of the stable [argsort] of the class codes). *)
Definition class_indices (y : list string) (c : string) : list nat :=
  (λ p, p.1) <$> filter (λ p, p.2 = c) (imap (λ i v, (i, v)) y).

(** [a.take(indices, mode='clip')]. *)
Definition take_clip (a : list nat) (indices : list nat) : list nat :=
  (λ i, nth (i `min` (length a - 1)) a 0) <$> indices.

(** The loop over the classes in [StratifiedShuffleSplit._iter_indices]: each
    class is permuted, its first [n_i] samples go to the train side and the
    next [t_i] to the test side. *)
Fixpoint draw_classes (groups : list (list nat * (nat * nat))) (rng : RandomState)
  : list nat * list nat * RandomState :=
  match groups with
  | [] => ([], [], rng)
  | (idx, (n_i, t_i)) :: groups' =>
      let '(permutation, rng) := rng_permutation rng (seq 0 (length idx)) in
      let perm_indices_class_i := take_clip idx permutation in
      let '(train, test, rng) := draw_classes groups' rng in
      (take n_i perm_indices_class_i ++ train,
       take t_i (drop n_i perm_indices_class_i) ++ test,
       rng)
  end.

(** One split of [StratifiedShuffleSplit(test_size=n_test, train_size=n_train)]
    over the labels [y]. *)
Definition stratified_shuffle_split (y : list string) (n_train n_test : nat)
    (rng : RandomState) : result (list nat * list nat) :=
  let classes := levels y in
  let n_classes := length classes in
  let class_counts := (λ c, length (class_indices y c)) <$> classes in
  if decide (Exists (λ k, k < 2) class_counts) then Raise ValueError
  else if decide (n_train < n_classes) then Raise ValueError
  else if decide (n_test < n_classes) then Raise ValueError
  else
    let '(n_i, rng) := approximate_mode class_counts n_train rng in
    let class_counts_remaining := zip_with Nat.sub class_counts n_i in
    let '(t_i, rng) := approximate_mode class_counts_remaining n_test rng in
    let '(train, test, rng) :=
      draw_classes (zip (class_indices y <$> classes) (zip n_i t_i)) rng in
    let '(train, rng) := rng_permutation rng train in
    let '(test, rng) := rng_permutation rng test in
    Ok (train, test).

(** [df.iloc[indices]]: rows by position, labels kept. *)
Definition iloc {A} (df : Frame A) (indices : list nat) : result (Frame A) :=
  rmapM (array_getitem df) indices.

(** [train_test_split(df, test_size=..., shuffle=True, random_state=...,
    stratify=...)]. *)
Definition train_test_split {A} (global : RandomState) (df : Frame A)
    (test_size : Q) (random_state : option Z) (stratify : Series)
  : result (Frame A * Frame A) :=
  if decide (length stratify = length df) then
    '(n_train, n_test) ← validate_shuffle_split (length df) test_size;
    '(train, test) ← stratified_shuffle_split (snd <$> stratify) n_train n_test
                        (check_random_state random_state global);
    df_train ← iloc df train;
    df_test ← iloc df test;
    Ok (df_train, df_test)
  else Raise ValueError.

(** ** The splitter (lines 174-179) *)

(** The two calls of [train_test_split], before the indices are reset. *)
Definition split_partitions (global : RandomState) (df : DataFrame)
  : result (DataFrame * DataFrame * DataFrame) :=
  '(train, valid_test) ←
    train_test_split global df (2 # 10)%Q (Some 123%Z) (col_CATEGORY df);
  '(valid, test) ←
    train_test_split global valid_test (5 # 10)%Q (Some 123%Z) (col_CATEGORY valid_test);
  Ok (train, valid, test).

Definition split (global : RandomState) (df : DataFrame)
  : result (DataFrame * DataFrame * DataFrame) :=
  '(train, valid, test) ← split_partitions global df;
  Ok (reset_index train, reset_index valid, reset_index test).

End sklearn.

(** ** The tokenizer *)

(** [BertTokenizer.from_pretrained('bert-base-uncased')]: the vocabulary is
    opaque ([wordpiece] is [tokenize] followed by [convert_tokens_to_ids]);
    the special tokens of that vocabulary are [CLS] = 101, [SEP] = 102 and
    [PAD] = 0. *)
Record BertTokenizer := {
  wordpiece : string → list Z;
  cls_token_id : Z;
  sep_token_id : Z;
  pad_token_id : Z
}.

Record BatchEncoding := {
  input_ids : list Z;
  token_type_ids : list Z;
  attention_mask : list Z
}.

(** [tokenizer.encode_plus(text, add_special_tokens=..., max_length=...,
    pad_to_max_length=...)] for one sentence.  A [max_length] alone turns on
    truncation of the word pieces (strategy [longest_first]); the special
    tokens are added after it, the padding last. *)
Definition encode_plus (tokenizer : BertTokenizer) (text : string)
    (add_special_tokens : bool) (max_length : nat) (pad_to_max_length : bool)
  : BatchEncoding :=
  let ids := wordpiece tokenizer text in
  let total_len := length ids + (if add_special_tokens then 2 else 0) in
  let num_tokens_to_remove := total_len - max_length in
  let ids := take (length ids - num_tokens_to_remove) ids in
  let sequence :=
    if add_special_tokens
    then [cls_token_id tokenizer] ++ ids ++ [sep_token_id tokenizer]
    else ids in
  let difference :=
    if pad_to_max_length then max_length - length sequence else 0 in
  {| input_ids := sequence ++ replicate difference (pad_token_id tokenizer);
     token_type_ids := replicate (length sequence) 0%Z ++ replicate difference 0%Z;
     attention_mask := replicate (length sequence) 1%Z ++ replicate difference 0%Z |}.

(** ** The dataset adapter (lines 12-37) *)

Record CreateDataset := {
  X : Series;
  y : list (list Z);
  tokenizer : BertTokenizer;
  max_len : nat
}.

(** [__len__] *)
Definition len (self : CreateDataset) : nat := length (y self).

(** One example: [ids] and [mask] are [LongTensor]s, [labels] is a float
    tensor. *)
Record item := {
  ids : list Z;
  mask : list Z;
  labels : list Q
}.

(** [__getitem__] *)
Definition getitem (self : CreateDataset) (index : nat) : result item :=
  text ← series_getitem (X self) index;
  let inputs := encode_plus (tokenizer self) text true (max_len self) true in
  let ids := input_ids inputs in
  let mask := attention_mask inputs in
  label ← array_getitem (y self) index;
  Ok {| ids := ids; mask := mask; labels := inject_Z <$> label |}.

(** ** Torch: data loaders *)

Record DataLoader := {
  dataset : CreateDataset;
  batch_size : nat;
  shuffle : bool
}.

(** [DataLoader(dataset, batch_size=..., shuffle=...)] refuses a batch size
    that is not positive (so a loader whose batch is a whole, empty dataset
    cannot be built). *)
Definition new_DataLoader (dataset : CreateDataset) (batch_size : nat)
    (shuffle : bool) : result DataLoader :=
  if decide (batch_size = 0) then Raise ValueError
  else Ok {| dataset := dataset; batch_size := batch_size; shuffle := shuffle |}.

(** [len(loader)]: the number of batches, the last one may be short. *)
Definition loader_len (loader : DataLoader) : nat :=
  (len (dataset loader) + batch_size loader - 1) / batch_size loader.

Fixpoint chunks_go {A} (fuel k : nat) (l : list A) : list (list A) :=
  match fuel, l with
  | S fuel', _ :: _ => take k l :: chunks_go fuel' k (drop k l)
  | _, _ => []
  end.

(** The batch sampler: consecutive runs of [k] indices. *)
Definition chunks {A} (k : nat) (l : list A) : list (list A) :=
  chunks_go (length l) k l.

(** A collated batch: the examples' tensors stacked, one row per example. *)
Record batch := {
  b_ids : list (list Z);
  b_mask : list (list Z);
  b_labels : list (list Q)
}.

Definition same_length {A} (rows : list (list A)) : Prop :=
  Forall (λ r, length r = length (hd [] rows)) rows.

Global Instance same_length_dec {A} (rows : list (list A)) : Decision (same_length rows).
Proof. unfold same_length. apply _. Defined.

(** [default_collate]: [torch.stack] refuses rows of different lengths. *)
Definition collate (items : list item) : result batch :=
  let b := {| b_ids := ids <$> items; b_mask := mask <$> items;
              b_labels := labels <$> items |} in
  if decide (same_length (b_ids b) ∧ same_length (b_mask b) ∧ same_length (b_labels b))
  then Ok b else Raise RuntimeError.

(** One batch: the examples at the sampled indices, collated. *)
Definition fetch (dataset : CreateDataset) (indices : list nat) : result batch :=
  items ← rmapM (getitem dataset) indices;
  collate items.

(** [torch.argmax(row)]: the first index of the largest entry. *)
Fixpoint argmax_go (best : nat) (best_v : Q) (i : nat) (row : list Q) : nat :=
  match row with
  | [] => best
  | v :: row' =>
      if Qle_bool v best_v then argmax_go best best_v (S i) row'
      else argmax_go i v (S i) row'
  end.

Definition argmax (row : list Q) : result nat :=
  match row with
  | [] => Raise IndexError
  | v :: row' => Ok (argmax_go 0 v 1 row')
  end.

(** [(pred == labels).sum().item()] *)
Definition count_equal (pred labels : list nat) : nat :=
  length (filter (λ p, p.1 = p.2) (zip pred labels)).

(** Python's [/] on numbers. *)
Definition div_int (a b : nat) : result Q :=
  if decide (b = 0) then Raise ZeroDivisionError
  else Ok (Z.of_nat a # Pos.of_nat b)%Q.

Definition div_float (x : Q) (n : nat) : result Q :=
  if decide (n = 0) then Raise ZeroDivisionError
  else Ok (x / inject_Z (Z.of_nat n))%Q.

(** ** Torch: the model, the optimizer and the world they live in

    The device ([model.to(device)], [tensor.to(device)], [.cpu()]) changes no
    value and is left out, and so is what the script prints. *)

(** The loss modules of [torch.nn] that take class logits and a target. *)
Inductive Criterion : Set :=
  | BCEWithLogitsLoss
  | CrossEntropyLoss.

(** What the script leaves to torch and to the pretrained model.  [Net] is
    the state of a [BERTClass] (its parameters and their gradients), [Optim]
    the state of the optimizer, [Generator] torch's default random generator
    and [Graph] what autograd records of a forward pass.

    [net_forward net training grad g ids mask] is [model.forward(ids, mask)]
    in training or evaluation mode, with gradient tracking on or off (dropout
    consumes the generator); [loss_item c outputs labels] is
    [criterion(outputs, labels).item()]; [net_backward] is [loss.backward()]
    for the loss of that criterion on that pass. *)
Class Torch : Type := {
  Net : Type;
  Optim : Type;
  Generator : Type;
  Graph : Type;
  StateDict : Type;
  new_BERTClass : Q → nat → Generator → Net * Generator;
  new_AdamW : Net → Q → Optim;
  randperm : Generator → nat → list nat * Generator;
  net_forward : Net → bool → bool → Generator → list (list Z) → list (list Z)
                → list (list Q) * Graph * Generator;
  loss_item : Criterion → list (list Q) → list (list Q) → Q;
  net_backward : Net → Graph → Criterion → list (list Q) → Net;
  net_zero_grad : Net → Net;
  optim_step : Optim → Net → Optim * Net;
  net_state_dict : Net → StateDict;
  optim_state_dict : Optim → StateDict
}.

(** What is assumed of them: [torch.randperm] returns a permutation of
    0, ..., n-1, and the classifier returns one row of logits per example,
    with at least one class. *)
Class TorchLaws (torch : Torch) : Prop := {
  randperm_Permutation g n : (randperm g n).1 ≡ₚ seq 0 n;
  net_forward_rows net training grad g ids mask :
    Forall2 (λ _ row, row ≠ []) ids (net_forward net training grad g ids mask).1.1
}.

Section torch.
Context {torch : Torch}.

(** The values a checkpoint dictionary holds. *)
Inductive value : Type :=
  | VInt (n : Z)
  | VState (s : StateDict).

(** What the script does to the world, in the order it does it. *)
Inductive event : Type :=
  | EvTrain                                             (* model.train() *)
  | EvEval                                              (* model.eval() *)
  | EvZeroGrad                                          (* optimizer.zero_grad() *)
  | EvForward (grad : bool) (ids mask : list (list Z))  (* model.forward(ids, mask) *)
  | EvLoss (c : Criterion) (labels : list (list Q))     (* criterion(outputs, labels) *)
  | EvBackward                                          (* loss.backward() *)
  | EvStep                                              (* optimizer.step() *)
  | EvSave (obj : gmap string value) (file : string).   (* torch.save(obj, file) *)

Record world := {
  model : Net;
  optimizer : Optim;
  training : bool;
  grad_enabled : bool;
  generator : Generator;
  files : gmap string (gmap string value);
  trace : list event
}.

(** Computations that read and change the world, or raise. *)
Definition M (A : Type) : Type := world → result (A * world).

Global Instance M_ret : MRet M := λ A a w, Ok (a, w).
Global Instance M_bind : MBind M := λ A B k m w,
  match m w with
  | Ok (a, w') => k a w'
  | Raise e => Raise e
  end.

Definition lift {A} (r : result A) : M A := λ w,
  match r with
  | Ok a => Ok (a, w)
  | Raise e => Raise e
  end.

Definition emit (e : event) (w : world) : world :=
  {| model := model w; optimizer := optimizer w; training := training w;
     grad_enabled := grad_enabled w; generator := generator w;
     files := files w; trace := trace w ++ [e] |}.

(** [model.train()] and [model.eval()] *)
Definition set_training (b : bool) : M unit := λ w,
  Ok ((), emit (if b then EvTrain else EvEval)
        {| model := model w; optimizer := optimizer w; training := b;
           grad_enabled := grad_enabled w; generator := generator w;
           files := files w; trace := trace w |}).

(** Entering and leaving [with torch.no_grad():] *)
Definition set_grad_enabled (b : bool) : M bool := λ w,
  Ok (grad_enabled w,
      {| model := model w; optimizer := optimizer w; training := training w;
         grad_enabled := b; generator := generator w;
         files := files w; trace := trace w |}).

Definition no_grad {A} (body : M A) : M A :=
  prev ← set_grad_enabled false;
  a ← body;
  _ ← set_grad_enabled prev;
  mret a.

(** [optimizer.zero_grad()] *)
Definition zero_grad : M unit := λ w,
  Ok ((), emit EvZeroGrad
        {| model := net_zero_grad (model w); optimizer := optimizer w;
           training := training w; grad_enabled := grad_enabled w;
           generator := generator w; files := files w; trace := trace w |}).

(** [model.forward(ids, mask)] *)
Definition forward (ids mask : list (list Z)) : M (list (list Q) * Graph) := λ w,
  let '(outputs, graph, g) :=
    net_forward (model w) (training w) (grad_enabled w) (generator w) ids mask in
  Ok ((outputs, graph),
      emit (EvForward (grad_enabled w) ids mask)
        {| model := model w; optimizer := optimizer w; training := training w;
           grad_enabled := grad_enabled w; generator := g;
           files := files w; trace := trace w |}).

(** [criterion(outputs, labels)]: the value of the loss. *)
Definition apply_criterion (criterion : Criterion) (outputs : list (list Q))
    (labels : list (list Q)) : M Q := λ w,
  Ok (loss_item criterion outputs labels, emit (EvLoss criterion labels) w).

(** [loss.backward()] *)
Definition backward (graph : Graph) (criterion : Criterion)
    (labels : list (list Q)) : M unit := λ w,
  Ok ((), emit EvBackward
        {| model := net_backward (model w) graph criterion labels;
           optimizer := optimizer w; training := training w;
           grad_enabled := grad_enabled w; generator := generator w;
           files := files w; trace := trace w |}).

(** [optimizer.step()] *)
Definition step : M unit := λ w,
  let '(o, n) := optim_step (optimizer w) (model w) in
  Ok ((), emit EvStep
        {| model := n; optimizer := o; training := training w;
           grad_enabled := grad_enabled w; generator := generator w;
           files := files w; trace := trace w |}).

(** [torch.save(obj, file)] *)
Definition save (obj : gmap string value) (file : string) : M unit := λ w,
  Ok ((), emit (EvSave obj file)
        {| model := model w; optimizer := optimizer w; training := training w;
           grad_enabled := grad_enabled w; generator := generator w;
           files := <[file := obj]> (files w); trace := trace w |}).

Definition state_dicts : M (StateDict * StateDict) := λ w,
  Ok ((net_state_dict (model w), optim_state_dict (optimizer w)), w).

(** [for data in loader]: the batches of one pass over the loader.  A
    shuffling loader draws a fresh permutation from the generator. *)
Definition iterate (loader : DataLoader) : M (list batch) := λ w,
  let n := len (dataset loader) in
  let '(indices, g) :=
    if shuffle loader then randperm (generator w) n else (seq 0 n, generator w) in
  match rmapM (fetch (dataset loader)) (chunks (batch_size loader) indices) with
  | Ok batches =>
      Ok (batches,
          {| model := model w; optimizer := optimizer w; training := training w;
             grad_enabled := grad_enabled w; generator := g;
             files := files w; trace := trace w |})
  | Raise e => Raise e
  end.

(** ** The evaluators and the training loop *)

(** [torch.argmax(t, dim=-1)] on a batch. *)
Definition argmax_rows (t : list (list Q)) : result (list nat) := rmapM argmax t.

(** The loop of [calculate_loss_and_accuracy] (lines 61-77). *)
Fixpoint loss_and_accuracy_loop (criterion : Criterion) (batches : list batch)
    (loss : Q) (total correct : nat) : M (Q * nat * nat) :=
  match batches with
  | [] => mret (loss, total, correct)
  | data :: batches' =>
      '(outputs, _) ← forward (b_ids data) (b_mask data);
      l ← apply_criterion criterion outputs (b_labels data);
      let loss := (loss + l)%Q in
      pred ← lift (argmax_rows outputs);
      labels ← lift (argmax_rows (b_labels data));
      let total := total + length labels in
      let correct := correct + count_equal pred labels in
      loss_and_accuracy_loop criterion batches' loss total correct
  end.

Definition calculate_loss_and_accuracy (criterion : Criterion) (loader : DataLoader)
  : M (Q * Q) :=
  set_training false;;
  '(loss, total, correct) ←
    no_grad (batches ← iterate loader;
             loss_and_accuracy_loop criterion batches 0%Q 0 0);
  mean ← lift (div_float loss (loader_len loader));
  acc ← lift (div_int correct total);
  mret (mean, acc).

(** The loop over the training batches (lines 100-113). *)
Fixpoint train_batches (criterion : Criterion) (batches : list batch) : M unit :=
  match batches with
  | [] => mret ()
  | data :: batches' =>
      zero_grad;;
      '(outputs, graph) ← forward (b_ids data) (b_mask data);
      _ ← apply_criterion criterion outputs (b_labels data);
      backward graph criterion (b_labels data);;
      step;;
      train_batches criterion batches'
  end.

Definition checkpoint (epoch : nat) (model_state optimizer_state : StateDict)
  : gmap string value :=
  <["epoch" := VInt (Z.of_nat epoch)]>
    (<["model_state_dict" := VState model_state]>
       (<["optimizer_state_dict" := VState optimizer_state]> ∅)).

Definition checkpoint_file (epoch : nat) : string :=
  "checkpoint" +:+ pretty (epoch + 1) +:+ ".pt".

Abbreviation Log := (list (Q * Q)).

(** One turn of the loop over the epochs (lines 95-131); the clock and the
    printed line are left out. *)
Definition train_epoch (dataloader_train dataloader_valid : DataLoader)
    (criterion : Criterion) (epoch : nat) (log_train log_valid : Log)
  : M (Log * Log) :=
  set_training true;;
  batches ← iterate dataloader_train;
  train_batches criterion batches;;
  '(loss_train, acc_train) ← calculate_loss_and_accuracy criterion dataloader_train;
  '(loss_valid, acc_valid) ← calculate_loss_and_accuracy criterion dataloader_valid;
  let log_train := log_train ++ [(loss_train, acc_train)] in
  let log_valid := log_valid ++ [(loss_valid, acc_valid)] in
  '(model_state, optimizer_state) ← state_dicts;
  save (checkpoint epoch model_state optimizer_state) (checkpoint_file epoch);;
  mret (log_train, log_valid).

(** [for epoch in range(num_epochs)] *)
Fixpoint train_epochs (dataloader_train dataloader_valid : DataLoader)
    (criterion : Criterion) (epochs : list nat) (log_train log_valid : Log)
  : M (Log * Log) :=
  match epochs with
  | [] => mret (log_train, log_valid)
  | epoch :: epochs' =>
      '(log_train, log_valid) ←
        train_epoch dataloader_train dataloader_valid criterion epoch log_train log_valid;
      train_epochs dataloader_train dataloader_valid criterion epochs' log_train log_valid
  end.

(** The dictionary [{'train': log_train, 'valid': log_valid}]. *)
Record Logs := { log_train : Log; log_valid : Log }.

Definition train_model (dataset_train dataset_valid : CreateDataset)
    (batch_size : nat) (criterion : Criterion) (num_epochs : nat) : M Logs :=
  dataloader_train ← lift (new_DataLoader dataset_train batch_size true);
  dataloader_valid ← lift (new_DataLoader dataset_valid (len dataset_valid) false);
  '(log_train, log_valid) ←
    train_epochs dataloader_train dataloader_valid criterion (seq 0 num_epochs) [] [];
  mret {| log_train := log_train; log_valid := log_valid |}.

(** The loop of [calculate_accuracy] (lines 145-157). *)
Fixpoint accuracy_loop (batches : list batch) (total correct : nat)
  : M (nat * nat) :=
  match batches with
  | [] => mret (total, correct)
  | data :: batches' =>
      '(outputs, _) ← forward (b_ids data) (b_mask data);
      pred ← lift (argmax_rows outputs);
      labels ← lift (argmax_rows (b_labels data));
      let total := total + length labels in
      let correct := correct + count_equal pred labels in
      accuracy_loop batches' total correct
  end.

Definition calculate_accuracy (dataset : CreateDataset) : M Q :=
  loader ← lift (new_DataLoader dataset (len dataset) false);
  set_training false;;
  '(total, correct) ←
    no_grad (batches ← iterate loader; accuracy_loop batches 0 0);
  lift (div_int correct total).

End torch.

(** ** The script (lines 162-231) *)

Definition DROP_RATE : Q := (4 # 10)%Q.
Definition OUTPUT_SIZE : nat := 4.
Definition BATCH_SIZE : nat := 4.
Definition NUM_EPOCHS : nat := 4.
Definition LEARNING_RATE : Q := (2 # 100000)%Q.

(** The three dataset adapters (lines 198-202). *)
Definition datasets (tokenizer : BertTokenizer) (train valid test : DataFrame)
    (y_train y_valid y_test : list (list Z))
  : CreateDataset * CreateDataset * CreateDataset :=
  let max_len := 20 in
  let dataset_train :=
    {| X := slice_to 1000 (col_TITLE train); y := slice_to 1000 y_train;
       tokenizer := tokenizer; max_len := max_len |} in
  let dataset_valid :=
    {| X := slice_to 300 (col_TITLE valid); y := slice_to 300 y_valid;
       tokenizer := tokenizer; max_len := max_len |} in
  let dataset_test :=
    {| X := slice_to 300 (col_TITLE test); y := slice_to 300 y_test;
       tokenizer := tokenizer; max_len := max_len |} in
  (dataset_train, dataset_valid, dataset_test).

(** What the script reports: the logs and the three final accuracies. *)
Record Report := {
  log : Logs;
  accuracy_train : Q;
  accuracy_valid : Q;
  accuracy_test : Q
}.

Section script.
Context {np : Numpy} {torch : Torch}.

(** Lines 223-228: training, then the three accuracies. *)
Definition train_and_report (dataset_train dataset_valid dataset_test : CreateDataset)
  : M Report :=
  log ← train_model dataset_train dataset_valid BATCH_SIZE BCEWithLogitsLoss NUM_EPOCHS;
  accuracy_train ← calculate_accuracy dataset_train;
  accuracy_valid ← calculate_accuracy dataset_valid;
  accuracy_test ← calculate_accuracy dataset_test;
  mret {| log := log; accuracy_train := accuracy_train;
          accuracy_valid := accuracy_valid; accuracy_test := accuracy_test |}.

(** The world in which training starts (lines 215-219): a fresh model in
    training mode, a fresh optimizer, nothing written yet. *)
Definition initial_world (g : Generator) : world :=
  let '(model, g) := new_BERTClass DROP_RATE OUTPUT_SIZE g in
  let optimizer := new_AdamW model LEARNING_RATE in
  {| model := model; optimizer := optimizer; training := true;
     grad_enabled := true; generator := g; files := ∅; trace := [] |}.

(** Lines 198-228: everything after the label encoder.  The script prints
    the first training example before it trains. *)
Definition fine_tune (tokenizer : BertTokenizer) (g : Generator)
    (train valid test : DataFrame) (y_train y_valid y_test : list (list Z))
  : result (Report * world) :=
  let '(dataset_train, dataset_valid, dataset_test) :=
    datasets tokenizer train valid test y_train y_valid y_test in
  _ ← getitem dataset_train 0;
  train_and_report dataset_train dataset_valid dataset_test (initial_world g).

Definition main (lines : list news) (tokenizer : BertTokenizer)
    (global : RandomState) (g : Generator) : result (Report * world) :=
  let df := extract (read_csv lines) in
  '(train, valid, test) ← split global df;
  '(y_train, y_valid, y_test) ← one_hot_labels train valid test;
  fine_tune tokenizer g train valid test y_train y_valid y_test.

End script.

(** ** Reference instances of the opaque interfaces

    A generator that never shuffles and an apportionment by cumulative
    rounding stand in for numpy and scikit-learn, a constant classifier for
    torch: enough to run every definition above on concrete data. *)

Fixpoint cumulative_shares (counts : list nat) (n_draws total acc : nat) : list nat :=
  match counts with
  | [] => []
  | c :: counts' =>
      ((acc + c) * n_draws / total - acc * n_draws / total)
        :: cumulative_shares counts' n_draws total (acc + c)
  end.

Definition plain_numpy : Numpy := {|
  RandomState := Z;
  seeded := λ s, s;
  rng_permutation := λ g x, (x, (g + 1)%Z);
  approximate_mode := λ counts n g,
    (cumulative_shares counts n (sum_list counts) 0, (g + 1)%Z)
|}.

(** A generator whose permutations depend on its state: state 0 keeps the
    order, any other state reverses it. *)
Definition flipping_numpy : Numpy := {|
  RandomState := Z;
  seeded := λ s, 0%Z;
  rng_permutation := λ g x, (if decide (g = 0%Z) then x else reverse x, g);
  approximate_mode := λ counts n g,
    (cumulative_shares counts n (sum_list counts) 0, g)
|}.

(** A classifier whose logits prefer class 0 for every example. *)
Definition constant_torch : Torch := {|
  Net := unit;
  Optim := unit;
  Generator := nat;
  Graph := unit;
  StateDict := unit;
  new_BERTClass := λ _ _ g, ((), g);
  new_AdamW := λ _ _, ();
  randperm := λ g n, (reverse (seq 0 n), S g);
  net_forward := λ _ _ _ g ids _, ((λ _, [1; 0; 0; 0]%Q) <$> ids, (), g);
  loss_item := λ _ _ _, 0%Q;
  net_backward := λ n _ _ _, n;
  net_zero_grad := λ n, n;
  optim_step := λ o n, (o, n);
  net_state_dict := λ _, ();
  optim_state_dict := λ _, ()
|}.

Definition plain_tokenizer : BertTokenizer := {|
  wordpiece := λ text, (λ _, 7%Z) <$> seq 0 (String.length text);
  cls_token_id := 101;
  sep_token_id := 102;
  pad_token_id := 0
|}.

(** * Properties *)

(** Closes a decidable goal about concrete data by running its decision
    procedure. *)
Ltac by_decide :=
  lazymatch goal with
  | |- ?P => apply (bool_decide_unpack P); vm_compute; exact I
  end.

(** ** The label encoder *)

Definition row_sum (row : list Z) : Z := foldr Z.add 0%Z row.

(** The categories of a partition are exactly the four classes: each class
    occurs, and nothing else does. *)
Definition labelled_by_classes (part : DataFrame) : Prop :=
  ∀ c, c ∈ classes ↔ c ∈ (λ p, category p.2) <$> part.

Global Instance labelled_by_classes_dec part : Decision (labelled_by_classes part).
Proof.
  refine (cast_if (decide (Forall (λ c, c ∈ (λ p, category p.2) <$> part) classes
                           ∧ Forall (λ c, c ∈ classes) ((λ p, category p.2) <$> part))));
    unfold labelled_by_classes; rewrite !Forall_forall in *.
  - destruct a as [Hin Hout]. intros c. split; [apply Hin|apply Hout].
  - intros Hall. apply n. split; intros c Hc; by apply Hall.
Defined.

(** [m] is the one-hot encoding of the categories of [part] over the columns
    [classes], in that order. *)
Definition encodes (part : DataFrame) (m : list (list Z)) : Prop :=
  length m = length part ∧
  ∀ i p, part !! i = Some p →
    ∃ row, m !! i = Some row ∧
           length row = length classes ∧
           row_sum row = 1%Z ∧
           ∀ j c, classes !! j = Some c →
             row !! j = Some (if decide (category p.2 = c) then 1%Z else 0%Z).

Definition indicator (part : DataFrame) (c : string) : list Z :=
  (λ p, if decide (category p.2 = c) then 1%Z else 0%Z) <$> part.

Lemma elem_of_levels c l : c ∈ levels l ↔ c ∈ l.
Proof.
  unfold levels. rewrite merge_sort_Permutation. apply elem_of_remove_dups.
Qed.

Lemma NoDup_levels l : NoDup (levels l).
Proof.
  unfold levels. rewrite merge_sort_Permutation. apply NoDup_remove_dups.
Qed.

Lemma column_dummies_present (part : DataFrame) (ls : list string) c :
  c ∈ ls →
  column ((λ v, ("CATEGORY_" +:+ v, indicator part v)) <$> ls) ("CATEGORY_" +:+ c)
  = Ok (indicator part c).
Proof.
  induction ls as [|v ls IH]; intros Hin.
  - by apply elem_of_nil in Hin.
  - cbn [fmap list_fmap column]. case_decide as Heq.
    + by simplify_eq.
    + apply IH. apply elem_of_cons in Hin as [->|]; [done|done].
Qed.

Lemma column_dummies_absent (part : DataFrame) (ls : list string) c :
  c ∉ ls →
  column ((λ v, ("CATEGORY_" +:+ v, indicator part v)) <$> ls) ("CATEGORY_" +:+ c)
  = Raise KeyError.
Proof.
  induction ls as [|v ls IH]; intros Hin; [done|].
  cbn [fmap list_fmap column]. apply not_elem_of_cons in Hin as [? ?].
  case_decide as Heq; [by simplify_eq|by apply IH].
Qed.

Lemma column_get_dummies part c :
  c ∈ (λ p, category p.2) <$> part →
  column (get_dummies part) ("CATEGORY_" +:+ c) = Ok (indicator part c).
Proof.
  intros Hin. unfold get_dummies. apply column_dummies_present.
  by apply elem_of_levels.
Qed.

Lemma column_get_dummies_absent part c :
  c ∉ (λ p, category p.2) <$> part →
  column (get_dummies part) ("CATEGORY_" +:+ c) = Raise KeyError.
Proof.
  intros Hin. unfold get_dummies. apply column_dummies_absent.
  by rewrite elem_of_levels.
Qed.

Lemma nth_indicator part c i p :
  part !! i = Some p →
  nth i (indicator part c) 0%Z = if decide (category p.2 = c) then 1%Z else 0%Z.
Proof.
  intros Hp. apply nth_lookup_Some with (d := 0%Z).
  unfold indicator. by rewrite list_lookup_fmap, Hp.
Qed.

Lemma label_encoder_complete part :
  labelled_by_classes part →
  label_encoder part
  = Ok (values (length part) (indicator part <$> classes)).
Proof.
  intros Hcl. unfold label_encoder, getitem_columns, label_columns.
  assert (∀ c, c ∈ classes → column (get_dummies part) ("CATEGORY_" +:+ c)
                              = Ok (indicator part c)) as Hcol.
  { intros c Hc. apply column_get_dummies. by apply Hcl. }
  pose proof (Hcol "b") as Hb. pose proof (Hcol "e") as He.
  pose proof (Hcol "t") as Ht. pose proof (Hcol "m") as Hm.
  change ("CATEGORY_" +:+ "b") with "CATEGORY_b" in Hb.
  change ("CATEGORY_" +:+ "e") with "CATEGORY_e" in He.
  change ("CATEGORY_" +:+ "t") with "CATEGORY_t" in Ht.
  change ("CATEGORY_" +:+ "m") with "CATEGORY_m" in Hm.
  cbn [rmapM]. rewrite Hb, He, Ht, Hm by (unfold classes; set_solver).
  reflexivity.
Qed.

Lemma values_encodes part :
  (∀ p, p ∈ part → category p.2 ∈ classes) →
  encodes part (values (length part) (indicator part <$> classes)).
Proof.
  intros Hknown. split.
  - unfold values. by rewrite length_fmap, length_seq.
  - intros i p Hp. unfold values.
    pose proof (lookup_lt_Some _ _ _ Hp) as Hlt.
    eexists. split.
    { rewrite list_lookup_fmap, lookup_seq_lt by done. reflexivity. }
    cbn [fmap list_fmap classes plus].
    rewrite !(nth_indicator _ _ _ _ Hp).
    split; [done|]. split.
    + assert (category p.2 ∈ classes) as Hc.
      { apply Hknown. by eapply list_elem_of_lookup_2. }
      unfold classes in Hc. rewrite !elem_of_cons in Hc.
      destruct Hc as [->|[->|[->|[->|Hc]]]]; [done..|].
      by apply elem_of_nil in Hc.
    + intros j c Hj.
      destruct j as [|[|[|[|j]]]]; cbn in Hj; simplify_eq; done.
Qed.

(** C1, as amended.  On three partitions whose categories are exactly b, e, t
    and m, the label encoder returns three matrices; each has one row per
    example and one column per class, in the order b, e, t, m for all three;
    every row holds a 1 in the column of its example's category and 0
    elsewhere, and sums to 1. *)
Theorem label_encoder_one_hot (train valid test : DataFrame) :
  labelled_by_classes train →
  labelled_by_classes valid →
  labelled_by_classes test →
  ∃ y_train y_valid y_test,
    one_hot_labels train valid test = Ok (y_train, y_valid, y_test) ∧
    encodes train y_train ∧ encodes valid y_valid ∧ encodes test y_test.
Proof.
  intros Htrain Hvalid Htest.
  unfold one_hot_labels.
  rewrite !label_encoder_complete by done.
  eexists _, _, _. split; [reflexivity|].
  split_and!; apply values_encodes; intros p Hp.
  - apply Htrain. apply list_elem_of_fmap. eauto.
  - apply Hvalid. apply list_elem_of_fmap. eauto.
  - apply Htest. apply list_elem_of_fmap. eauto.
Qed.

Definition four_class_partition : DataFrame :=
  [(0, {| title := "Fed holds rates"; category := "b" |});
   (1, {| title := "Film tops box office"; category := "e" |});
   (2, {| title := "New phone unveiled"; category := "t" |});
   (3, {| title := "Flu season peaks"; category := "m" |})].

Lemma label_encoder_one_hot_witness :
  ∃ y_train y_valid y_test,
    one_hot_labels four_class_partition four_class_partition four_class_partition
    = Ok (y_train, y_valid, y_test) ∧
    encodes four_class_partition y_train ∧
    encodes four_class_partition y_valid ∧
    encodes four_class_partition y_test.
Proof.
  apply (label_encoder_one_hot four_class_partition four_class_partition
           four_class_partition);
    by_decide.
Defined.

(** A partition in which no health headline occurs has no column
    [CATEGORY_m]: selecting the four columns raises [KeyError]. *)
Definition three_class_partition : DataFrame :=
  [(0, {| title := "Fed holds rates"; category := "b" |});
   (1, {| title := "Film tops box office"; category := "e" |});
   (2, {| title := "New phone unveiled"; category := "t" |})].

Lemma label_encoder_missing_class :
  label_encoder three_class_partition = Raise KeyError.
Proof. reflexivity. Qed.

(** A category outside the four gets a column of its own, which the selection
    drops: the row of such an example is all zeros. *)
Example label_encoder_unknown_class :
  label_encoder (four_class_partition
                   ++ [(4, {| title := "Cup final tonight"; category := "s" |})])
  = Ok [[1; 0; 0; 0]; [0; 1; 0; 0]; [0; 0; 1; 0]; [0; 0; 0; 1]; [0; 0; 0; 0]]%Z.
Proof. reflexivity. Qed.

(** ** The dataset adapter *)

(** The labels of [X] are the positions 0, 1, ... of the rows of [y]: what
    [reset_index] and the two slices of the script give. *)
Definition aligned (ds : CreateDataset) : Prop := (X ds).*1 = seq 0 (len ds).

Global Instance aligned_dec ds : Decision (aligned ds).
Proof. unfold aligned. apply _. Defined.

Lemma series_getitem_lookup (s : Series) i p :
  NoDup s.*1 → s !! i = Some p → series_getitem s p.1 = Ok p.2.
Proof.
  revert i. induction s as [|[l v] s IH]; intros i Hnd Hi; [done|].
  cbn [series_getitem]. apply NoDup_cons in Hnd as [Hl Hnd].
  destruct i as [|i]; cbn in Hi.
  - simplify_eq. cbn. by rewrite decide_True.
  - rewrite decide_False; [by eapply IH|].
    intros ->. apply Hl. apply list_elem_of_fmap. exists p. split; [done|].
    by eapply list_elem_of_lookup_2.
Qed.

Lemma aligned_lookup ds index :
  aligned ds → index < len ds →
  ∃ text, (X ds) !! index = Some (index, text)
          ∧ series_getitem (X ds) index = Ok text.
Proof.
  intros Hal Hlt.
  assert ((X ds).*1 !! index = Some index) as Hl.
  { rewrite Hal. by apply lookup_seq_lt. }
  rewrite list_lookup_fmap in Hl. apply fmap_Some in Hl as ([l text] & Hp & Hl).
  cbn in Hl. subst l. exists text. split; [done|].
  apply (series_getitem_lookup _ index (index, text)); [|done].
  rewrite Hal. apply NoDup_seq.
Qed.

Lemma encode_plus_shape tok text max_length :
  2 ≤ max_length →
  ∃ pieces padding,
    pieces `prefix_of` wordpiece tok text ∧
    2 + length pieces + padding = max_length ∧
    input_ids (encode_plus tok text true max_length true)
    = [cls_token_id tok] ++ pieces ++ [sep_token_id tok]
        ++ replicate padding (pad_token_id tok) ∧
    attention_mask (encode_plus tok text true max_length true)
    = replicate (2 + length pieces) 1%Z ++ replicate padding 0%Z.
Proof.
  intros Hmax. unfold encode_plus. cbn [input_ids attention_mask].
  set (ws := wordpiece tok text).
  set (pieces := take (length ws - (length ws + 2 - max_length)) ws).
  assert (length pieces + 2 ≤ max_length) as Hlen.
  { unfold pieces. rewrite length_take. lia. }
  exists pieces, (max_length - (2 + length pieces)).
  split; [apply prefix_take|]. split; [lia|].
  cbn [length app]. rewrite !length_app. cbn [length].
  replace (S (length pieces + 1)) with (2 + length pieces) by lia.
  split; [|done]. by rewrite <- !app_assoc.
Qed.

(** C6.  In a dataset whose series and label array are aligned and whose
    maximum length leaves room for the two special tokens, access at any
    index below the length returns the word pieces of that example's title
    between [CLS] and [SEP], cut and padded to the maximum length, a mask of
    the same length that is 1 on the tokens and 0 on the padding, and that
    example's row of the label array. *)
Theorem getitem_shape (ds : CreateDataset) (index : nat) :
  aligned ds →
  2 ≤ max_len ds →
  index < len ds →
  ∃ text label pieces padding,
    (X ds) !! index = Some (index, text) ∧
    (y ds) !! index = Some label ∧
    pieces `prefix_of` wordpiece (tokenizer ds) text ∧
    getitem ds index
    = Ok {| ids := [cls_token_id (tokenizer ds)] ++ pieces
                     ++ [sep_token_id (tokenizer ds)]
                     ++ replicate padding (pad_token_id (tokenizer ds));
            mask := replicate (2 + length pieces) 1%Z ++ replicate padding 0%Z;
            labels := inject_Z <$> label |} ∧
    length ([cls_token_id (tokenizer ds)] ++ pieces
              ++ [sep_token_id (tokenizer ds)]
              ++ replicate padding (pad_token_id (tokenizer ds))) = max_len ds ∧
    length (replicate (2 + length pieces) 1%Z ++ replicate padding 0%Z) = max_len ds.
Proof.
  intros Hal Hmax Hlt.
  destruct (aligned_lookup ds index Hal Hlt) as (text & HX & Hget).
  destruct (lookup_lt_is_Some_2 (y ds) index Hlt) as [label Hy].
  destruct (encode_plus_shape (tokenizer ds) text (max_len ds) Hmax)
    as (pieces & padding & Hpre & Hsum & Hids & Hmask).
  exists text, label, pieces, padding.
  split_and!; [done|done|done| | |].
  - unfold getitem, array_getitem. rewrite Hget, Hy. cbn [mbind result_bind].
    by rewrite Hids, Hmask.
  - rewrite !length_app, length_replicate. cbn. lia.
  - rewrite !length_app, !length_replicate. lia.
Qed.

(** ** The splitter *)

(** The number of samples of class [c] among the labels [y]. *)
Definition class_count (y : list string) (c : string) : nat :=
  length (class_indices y c).

(** The number of rows of category [c] in a frame. *)
Definition count_category (c : string) (df : DataFrame) : nat :=
  length (filter (λ p, category p.2 = c) df).

(** The values of the category column. *)
Definition categories (df : DataFrame) : list string := (col_CATEGORY df).*2.

(** The class counts of a part lie within [tol] rows of the proportional
    share of the whole's: |count c part - count c df * |part| / |df|| < tol. *)
Definition share_within (tol : nat) (df part : DataFrame) : Prop :=
  ∀ c, count_category c part * length df
         < count_category c df * length part + tol * length df ∧
       count_category c df * length part
         < count_category c part * length df + tol * length df.

(** [size] is within one row of [k] tenths of [n]. *)
Definition tenths_of (k n size : nat) : Prop :=
  k * n < 10 * size + 10 ∧ 10 * size < k * n + 10.

Section split_facts.
Context {np : Numpy} {laws : NumpyLaws np}.

Lemma rmapM_Ok {A B} (f : A → result B) l ys :
  rmapM f l = Ok ys ↔ Forall2 (λ x y, f x = Ok y) l ys.
Proof.
  revert ys. induction l as [|x l IH]; intros ys; cbn.
  - split; [intros [= <-]; constructor|by inversion 1].
  - split.
    + destruct (f x) as [y|e] eqn:Hx; [|done].
      destruct (rmapM f l) as [ys'|e] eqn:Hl; [|done].
      intros [= <-]. constructor; [done|]. by apply IH.
    + inversion 1 as [|? y ? ys' Hy Hys]; simplify_eq.
      apply IH in Hys. by rewrite Hy, Hys.
Qed.

Lemma omap_Some_fmap {A} (l : list A) : omap id (Some <$> l) = l.
Proof. induction l; cbn; by f_equal. Qed.

Lemma iloc_Ok {A} (df : Frame A) idx rows :
  iloc df idx = Ok rows ↔ (λ i, df !! i) <$> idx = Some <$> rows.
Proof.
  unfold iloc. rewrite rmapM_Ok. split.
  - induction 1 as [|i r idx rows Hi _ IH]; [done|]. cbn. f_equal; [|done].
    unfold array_getitem in Hi. by destruct (df !! i); simplify_eq.
  - revert rows. induction idx as [|i idx IH]; intros [|r rows] Heq;
      cbn in Heq; try discriminate; [constructor|].
    injection Heq as Hi Hrest. constructor; [|by apply IH].
    unfold array_getitem. by rewrite Hi.
Qed.

Lemma iloc_total {A} (df : Frame A) idx :
  Forall (λ i, i < length df) idx → ∃ rows, iloc df idx = Ok rows.
Proof.
  induction 1 as [|i idx Hi _ [rows IH]]; [by exists []|].
  destruct (lookup_lt_is_Some_2 df i Hi) as [r Hr].
  exists (r :: rows). unfold iloc in *. cbn. unfold array_getitem at 1.
  by rewrite Hr, IH.
Qed.

Lemma lookups_seq {A} (l : list A) : (λ i, l !! i) <$> seq 0 (length l) = Some <$> l.
Proof.
  apply list_eq. intros i. rewrite !list_lookup_fmap.
  destruct (decide (i < length l)) as [Hlt|Hge].
  - rewrite lookup_seq_lt by done. cbn.
    destruct (lookup_lt_is_Some_2 l i Hlt) as [x Hx]. by rewrite Hx.
  - rewrite lookup_seq_ge by lia. by rewrite lookup_ge_None_2 by lia.
Qed.

Lemma iloc_Permutation {A} (df : Frame A) idx rows :
  iloc df idx = Ok rows → idx ≡ₚ seq 0 (length df) → rows ≡ₚ df.
Proof.
  intros Hrows Hperm. apply iloc_Ok in Hrows.
  apply (fmap_Permutation (λ i, df !! i)) in Hperm.
  rewrite Hrows, lookups_seq in Hperm.
  apply (omap_Permutation id) in Hperm. by rewrite !omap_Some_fmap in Hperm.
Qed.

Lemma elem_of_class_indices (y : list string) c i :
  i ∈ class_indices y c ↔ y !! i = Some c.
Proof.
  unfold class_indices. rewrite list_elem_of_fmap. split.
  - intros ([j v] & -> & Hin). apply list_elem_of_filter in Hin as [Hc Hin].
    apply list_elem_of_lookup in Hin as [k Hk].
    rewrite list_lookup_imap in Hk. apply fmap_Some in Hk as (x & Hx & Heq).
    cbn in *. by simplify_eq.
  - intros Hi. exists (i, c). split; [done|].
    apply list_elem_of_filter. split; [done|].
    apply list_elem_of_lookup. exists i. by rewrite list_lookup_imap, Hi.
Qed.

Lemma filter_all {A} (P : A → Prop) `{!∀ x, Decision (P x)} l :
  Forall P l → filter P l = l.
Proof.
  induction 1 as [|x l Hx _ IH]; [done|].
  by rewrite filter_cons_True, IH.
Qed.

Lemma filter_none {A} (P : A → Prop) `{!∀ x, Decision (P x)} l :
  Forall (λ x, ¬ P x) l → filter P l = [].
Proof.
  induction 1 as [|x l Hx _ IH]; [done|].
  by rewrite filter_cons_False.
Qed.

Lemma filter_or_Permutation {A} (P Q R : A → Prop)
    `{!∀ x, Decision (P x)} `{!∀ x, Decision (Q x)} `{!∀ x, Decision (R x)} l :
  (∀ x, R x ↔ P x ∨ Q x) → (∀ x, P x → Q x → False) →
  filter R l ≡ₚ filter P l ++ filter Q l.
Proof.
  intros HR Hdisj. induction l as [|x l IH]; [done|].
  rewrite !filter_cons.
  destruct (decide (P x)) as [HP|HP], (decide (Q x)) as [HQ|HQ];
    [by destruct (Hdisj x)|..].
  - rewrite decide_True by (apply HR; by left). cbn. by rewrite IH.
  - rewrite decide_True by (apply HR; by right). rewrite IH.
    by rewrite Permutation_middle.
  - rewrite decide_False; [done|]. intros [?|?]%HR; done.
Qed.

Lemma class_indices_concat (y : list string) (cs : list string) :
  NoDup cs →
  concat (class_indices y <$> cs)
  ≡ₚ (λ p, p.1) <$> filter (λ p, p.2 ∈ cs) (imap (λ i v, (i, v)) y).
Proof.
  induction 1 as [|c cs Hc Hnd IH]; cbn.
  - induction (imap _ y) as [|p l IHl]; [done|].
    rewrite filter_cons. rewrite decide_False by apply not_elem_of_nil. done.
  - rewrite IH. unfold class_indices. rewrite <- fmap_app.
    apply fmap_Permutation. symmetry. apply filter_or_Permutation.
    + intros p. apply elem_of_cons.
    + intros p -> ?. done.
Qed.

Lemma class_indices_levels (y : list string) :
  concat (class_indices y <$> levels y) ≡ₚ seq 0 (length y).
Proof.
  rewrite class_indices_concat by apply NoDup_levels.
  rewrite filter_all.
  - apply reflexive_eq, list_eq. intros i.
    rewrite list_lookup_fmap, list_lookup_imap.
    destruct (y !! i) as [v|] eqn:Hi; cbn.
    + symmetry. apply lookup_seq_lt. by eapply lookup_lt_Some.
    + symmetry. apply lookup_seq_ge. cbn. by apply lookup_ge_None.
  - apply Forall_forall. intros [i v] Hin. cbn.
    apply list_elem_of_lookup in Hin as [k Hk].
    rewrite list_lookup_imap in Hk. apply fmap_Some in Hk as (x & Hx & Heq).
    simplify_eq. apply elem_of_levels. by eapply list_elem_of_lookup_2.
Qed.

Lemma sum_list_concat_length {A} (ls : list (list A)) :
  sum_list (length <$> ls) = length (concat ls).
Proof. induction ls as [|l ls IH]; cbn; [done|]. rewrite length_app. lia. Qed.

Lemma class_counts_sum (y : list string) :
  sum_list ((λ c, length (class_indices y c)) <$> levels y) = length y.
Proof.
  transitivity (length (concat (class_indices y <$> levels y))).
  - by rewrite <- sum_list_concat_length, <- list_fmap_compose.
  - rewrite class_indices_levels. apply length_seq.
Qed.

Lemma take_clip_Permutation idx perm :
  perm ≡ₚ seq 0 (length idx) → take_clip idx perm ≡ₚ idx.
Proof.
  intros Hperm. unfold take_clip. rewrite Hperm.
  assert ((λ i, nth (i `min` (length idx - 1)) idx 0) <$> seq 0 (length idx) = idx) as ->;
    [|done].
  apply list_eq. intros i. rewrite list_lookup_fmap.
  destruct (decide (i < length idx)) as [Hlt|Hge].
  - rewrite lookup_seq_lt by done. cbn.
    replace (i `min` (length idx - 1)) with i by lia.
    destruct (lookup_lt_is_Some_2 idx i Hlt) as [x Hx]. rewrite Hx.
    f_equal. by apply nth_lookup_Some.
  - rewrite lookup_seq_ge by lia. by rewrite lookup_ge_None_2 by lia.
Qed.

(** What the loop over the classes returns: for each class a piece of its
    permuted indices for the train side and the following piece for the test
    side. *)
Lemma draw_classes_pieces groups rng train test rng' :
  draw_classes groups rng = (train, test, rng') →
  Forall (λ g, g.2.1 + g.2.2 ≤ length g.1) groups →
  ∃ pieces : list (list nat * list nat),
    train = concat pieces.*1 ∧ test = concat pieces.*2 ∧
    Forall2 (λ g p, p.1 ++ p.2 ⊆+ g.1 ∧ length p.1 = g.2.1 ∧ length p.2 = g.2.2)
      groups pieces.
Proof.
  revert rng train test rng'.
  induction groups as [|[idx [n_i t_i]] groups IH]; intros rng train test rng' Hdraw Hle.
  - cbn in Hdraw. simplify_eq. by exists [].
  - cbn [draw_classes] in Hdraw.
    pose proof (rng_permutation_Permutation rng (seq 0 (length idx))) as Hperm.
    destruct (rng_permutation rng (seq 0 (length idx))) as [perm rng1].
    destruct (draw_classes groups rng1) as [[train1 test1] rng2] eqn:Hrec.
    simplify_eq. apply Forall_cons in Hle as [Hle1 Hle].
    destruct (IH _ _ _ _ Hrec Hle) as (pieces & -> & -> & Hall).
    cbn in Hle1, Hperm. apply take_clip_Permutation in Hperm.
    set (picked := take_clip idx perm) in *.
    assert (length picked = length idx) as Hlen by by rewrite Hperm.
    exists ((take n_i picked, take t_i (drop n_i picked)) :: pieces).
    split; [done|]. split; [done|]. constructor; [|done]. cbn. split_and!.
    + rewrite take_take_drop, <- Hperm. apply sublist_submseteq, sublist_take.
    + rewrite length_take. lia.
    + rewrite length_take, length_drop. lia.
Qed.

Lemma pieces_Permutation (idxs : list (list nat)) (pieces : list (list nat * list nat)) :
  Forall2 (λ idx p, p.1 ++ p.2 ⊆+ idx ∧ length p.1 + length p.2 = length idx)
    idxs pieces →
  concat pieces.*1 ++ concat pieces.*2 ≡ₚ concat idxs.
Proof.
  induction 1 as [|idx [p1 p2] idxs pieces [Hsub Hlen] _ IH]; [done|].
  cbn in *. rewrite <- IH.
  apply submseteq_length_Permutation in Hsub; [|rewrite length_app; lia].
  rewrite <- Hsub. rewrite <- !app_assoc. f_equiv.
  rewrite !app_assoc. f_equiv. apply Permutation_app_comm.
Qed.

Lemma filter_class_foreign (y : list string) c (cs : list string) (ps : list (list nat)) :
  c ∉ cs →
  Forall2 (λ c' p, ∀ i, i ∈ p → y !! i = Some c') cs ps →
  filter (λ i, y !! i = Some c) (concat ps) = [].
Proof.
  intros Hc Hall. induction Hall as [|c' p cs ps Hp _ IH]; [done|].
  apply not_elem_of_cons in Hc as [Hne Hc]. cbn.
  rewrite filter_app, IH by done. rewrite filter_none; [done|].
  apply Forall_forall. intros i Hi Hyi. apply Hp in Hi. congruence.
Qed.

Lemma filter_class_own (y : list string) (cs : list string) (ps : list (list nat)) k c p :
  NoDup cs →
  Forall2 (λ c' p, ∀ i, i ∈ p → y !! i = Some c') cs ps →
  cs !! k = Some c → ps !! k = Some p →
  filter (λ i, y !! i = Some c) (concat ps) = p.
Proof.
  intros Hnd Hall. revert k.
  induction Hall as [|c' p' cs ps Hp Hall IH]; intros k Hc Hk; [done|].
  apply NoDup_cons in Hnd as [Hnotin Hnd]. cbn. rewrite filter_app.
  destruct k as [|k]; cbn in Hc, Hk; simplify_eq.
  - rewrite (filter_class_foreign _ _ cs) by done.
    rewrite filter_all; [by rewrite app_nil_r|]. by apply Forall_forall.
  - rewrite (IH Hnd k) by done. rewrite filter_none; [done|].
    apply Forall_forall. intros i Hi Hyi. apply Hp in Hi.
    assert (c' = c) as -> by congruence.
    apply Hnotin. by eapply list_elem_of_lookup_2.
Qed.

Lemma sum_list_zip_sub (a b : list nat) :
  Forall2 (λ x y, y ≤ x) a b →
  sum_list (zip_with Nat.sub a b) + sum_list b = sum_list a.
Proof. induction 1 as [|x y a b Hle _ IH]; cbn; lia. Qed.

Lemma sum_list_lengths (ns : list nat) (ps : list (list nat)) :
  Forall2 (λ n p, length p = n) ns ps → length (concat ps) = sum_list ns.
Proof.
  induction 1 as [|n p ns ps Hp _ IH]; [done|].
  cbn. rewrite length_app. lia.
Qed.

(** The indices one stratified split returns: together they are all the
    positions, the train side has [n_train] of them, and of each class it
    holds the floor or the ceiling of the class's proportional share. *)
Lemma stratified_shuffle_split_spec y n_train n_test rng train test :
  n_train + n_test = length y → 0 < n_test →
  stratified_shuffle_split y n_train n_test rng = Ok (train, test) →
  train ++ test ≡ₚ seq 0 (length y) ∧
  length train = n_train ∧
  ∀ c, let T := length (filter (λ i, y !! i = Some c) train) in
       T * length y < class_count y c * n_train + length y ∧
       class_count y c * n_train < T * length y + length y.
Proof.
  intros Hn Htest. unfold stratified_shuffle_split.
  set (counts := (λ c, length (class_indices y c)) <$> levels y).
  pose proof (class_counts_sum y) as Hsum. fold counts in Hsum.
  repeat case_decide; try done.
  pose proof (approximate_mode_length counts n_train rng) as Hlen_n.
  pose proof (approximate_mode_sum counts n_train rng ltac:(lia)) as Hsum_n.
  pose proof (approximate_mode_share counts n_train rng) as Hshare_n.
  destruct (approximate_mode counts n_train rng) as [n_i rng1]. cbn in *.
  assert (Forall2 (λ x y, y ≤ x) counts n_i) as Hle.
  { apply Forall2_same_length_lookup. split; [done|].
    intros i x k Hx Hk. destruct (Hshare_n i x k) as [Hs _]; [lia..|done|done|]. nia. }
  set (remaining := zip_with Nat.sub counts n_i).
  assert (sum_list remaining = n_test) as Hsum_r.
  { pose proof (sum_list_zip_sub _ _ Hle). unfold remaining. lia. }
  assert (length remaining = length counts) as Hlen_r.
  { unfold remaining. rewrite length_zip_with. lia. }
  pose proof (approximate_mode_length remaining n_test rng1) as Hlen_t.
  pose proof (approximate_mode_sum remaining n_test rng1 ltac:(lia)) as Hsum_t.
  pose proof (approximate_mode_share remaining n_test rng1) as Hshare_t.
  destruct (approximate_mode remaining n_test rng1) as [t_i rng2]. cbn in *.
  assert (t_i = remaining) as ->.
  { apply list_eq_same_length with (length remaining); [done..|].
    intros i t r Hi Ht Hr.
    destruct (Hshare_t i r t) as [Hs1 Hs2]; [lia..|done|done|]. nia. }
  set (groups := zip (class_indices y <$> levels y) (zip n_i remaining)).
  destruct (draw_classes groups rng2) as [[train0 test0] rng3] eqn:Hdraw.
  pose proof (rng_permutation_Permutation rng3 train0) as Hp1.
  destruct (rng_permutation rng3 train0) as [train1 rng4].
  pose proof (rng_permutation_Permutation rng4 test0) as Hp2.
  destruct (rng_permutation rng4 test0) as [test1 rng5].
  intros [= <- <-]. cbn in Hp1, Hp2.
  assert (∀ k g, groups !! k = Some g →
            ∃ c n, levels y !! k = Some c ∧ n_i !! k = Some n ∧
                   g = (class_indices y c, (n, class_count y c - n)) ∧
                   n ≤ class_count y c) as Hgroups.
  { intros k [idx [n t]] Hg. unfold groups in Hg.
    apply lookup_zip_with_Some in Hg as (idx' & nt & [= <- <-] & Hidx & Hnt).
    apply lookup_zip_with_Some in Hnt as (n' & t' & [= <- <-] & Hnk & Htk).
    unfold remaining in Htk.
    apply lookup_zip_with_Some in Htk as (cnt & n' & -> & Hcnt & Hnk').
    rewrite list_lookup_fmap in Hidx. apply fmap_Some in Hidx as (c & Hc & ->).
    unfold counts in Hcnt. rewrite list_lookup_fmap, Hc in Hcnt. cbn in Hcnt.
    simplify_eq. exists c, n. split_and!; [done..|].
    eapply (Forall2_lookup_lr _ _ _ k) in Hle; [exact Hle| |done].
    unfold counts. by rewrite list_lookup_fmap, Hc. }
  assert (length groups = length (levels y)) as Hlen_g.
  { unfold groups. rewrite !length_zip_with, length_fmap.
    unfold counts in *. rewrite length_fmap in *. lia. }
  destruct (draw_classes_pieces _ _ _ _ _ Hdraw) as (pieces & -> & -> & Hpieces).
  { apply Forall_lookup. intros k g Hg.
    destruct (Hgroups k g Hg) as (c & n & _ & _ & -> & Hle'). cbn.
    unfold class_count in *. lia. }
  pose proof (Forall2_length _ _ _ Hpieces) as Hlen_p.
  assert (∀ k p, pieces !! k = Some p →
            ∃ c n, levels y !! k = Some c ∧ n_i !! k = Some n ∧
                   p.1 ++ p.2 ⊆+ class_indices y c ∧
                   length p.1 = n ∧ length p.2 = class_count y c - n ∧
                   n ≤ class_count y c) as Hpiece.
  { intros k p Hp.
    destruct (Forall2_lookup_r _ _ _ _ _ Hpieces Hp) as (g & Hg & Hsub & Hl1 & Hl2).
    destruct (Hgroups k g Hg) as (c & n & Hc & Hnk & -> & Hle').
    exists c, n. by split_and!. }
  assert (Forall2 (λ c p, ∀ i, i ∈ p → y !! i = Some c) (levels y) pieces.*1) as Hown.
  { apply Forall2_same_length_lookup. split; [rewrite length_fmap; lia|].
    intros k c p1 Hc Hp1'. rewrite list_lookup_fmap in Hp1'.
    apply fmap_Some in Hp1' as (p & Hp & ->).
    destruct (Hpiece k p Hp) as (c' & n & Hc' & _ & Hsub & _).
    assert (c' = c) as -> by congruence.
    intros i Hi. apply elem_of_class_indices.
    eapply elem_of_submseteq; [|exact Hsub]. apply elem_of_app. by left. }
  split_and!.
  - rewrite Hp1, Hp2. rewrite pieces_Permutation with (idxs := class_indices y <$> levels y).
    + apply class_indices_levels.
    + apply Forall2_same_length_lookup. split; [rewrite length_fmap; lia|].
      intros k idx p Hidx Hp. rewrite list_lookup_fmap in Hidx.
      apply fmap_Some in Hidx as (c & Hc & ->).
      destruct (Hpiece k p Hp) as (c' & n & Hc' & _ & Hsub & Hl1 & Hl2 & Hle').
      assert (c' = c) as -> by congruence. split; [done|].
      unfold class_count in *. lia.
  - rewrite Hp1. rewrite (sum_list_lengths n_i); [done|].
    apply Forall2_same_length_lookup. split; [rewrite length_fmap; unfold counts in *; rewrite length_fmap in *; lia|].
    intros k n p1 Hn1 Hp1'. rewrite list_lookup_fmap in Hp1'.
    apply fmap_Some in Hp1' as (p & Hp & ->).
    destruct (Hpiece k p Hp) as (c' & n' & _ & Hn' & _ & Hl1 & _). congruence.
  - intros c. cbn. rewrite Hp1.
    destruct (decide (c ∈ levels y)) as [Hin|Hout].
    + apply list_elem_of_lookup in Hin as [k Hc].
      destruct (lookup_lt_is_Some_2 pieces k) as [p Hp].
      { rewrite <- Hlen_p, Hlen_g. by eapply lookup_lt_Some. }
      destruct (Hpiece k p Hp) as (c' & n & Hc' & Hnk & _ & Hl1 & _).
      assert (c' = c) as -> by congruence.
      rewrite (filter_class_own y (levels y) pieces.*1 k c p.1);
        [|apply NoDup_levels|done|done|by rewrite list_lookup_fmap, Hp].
      rewrite Hl1.
      destruct (Hshare_n k (class_count y c) n) as [Hs1 Hs2]; [lia..| |done|].
      { unfold counts. by rewrite list_lookup_fmap, Hc. }
      rewrite Hsum in Hs1, Hs2. done.
    + rewrite (filter_class_foreign y c (levels y)) by done.
      assert (class_count y c = 0) as ->.
      { unfold class_count. destruct (class_indices y c) as [|i l] eqn:Hci; [done|].
        exfalso. apply Hout. apply elem_of_levels.
        assert (i ∈ class_indices y c) as Hi by (rewrite Hci; left).
        apply elem_of_class_indices in Hi. by eapply list_elem_of_lookup_2. }
      cbn. lia.
Qed.

Lemma categories_lookup (df : DataFrame) i :
  categories df !! i = (λ p, category p.2) <$> df !! i.
Proof.
  unfold categories, col_CATEGORY. rewrite !list_lookup_fmap.
  by destruct (df !! i).
Qed.

Lemma length_categories df : length (categories df) = length df.
Proof. unfold categories, col_CATEGORY. by rewrite !length_fmap. Qed.

Lemma length_filter_imap_snd (f : nat → nat) (y : list string) c :
  length (filter (λ p : nat * string, p.2 = c) (imap (λ i v, (f i, v)) y))
  = length (filter (λ v, v = c) y).
Proof.
  revert f. induction y as [|v y IH]; intros f; [done|].
  cbn [imap]. rewrite !filter_cons. cbn [snd].
  specialize (IH (f ∘ S)). unfold compose in *. cbv beta in *.
  destruct (decide (v = c)); cbn [length]; by rewrite IH.
Qed.

Lemma class_count_categories df c :
  class_count (categories df) c = count_category c df.
Proof.
  unfold class_count, class_indices, count_category.
  rewrite length_fmap, (length_filter_imap_snd id).
  unfold categories, col_CATEGORY. rewrite <- list_fmap_compose.
  induction df as [|p df IH]; [done|].
  rewrite fmap_cons, !filter_cons. unfold compose at 1. cbn [snd].
  destruct (decide (category p.2 = c)); cbn [length]; by rewrite IH.
Qed.

Lemma iloc_count_category (df : DataFrame) idx rows c :
  iloc df idx = Ok rows →
  count_category c rows
  = length (filter (λ i, categories df !! i = Some c) idx).
Proof.
  intros Hrows. apply iloc_Ok in Hrows. unfold count_category.
  revert rows Hrows. induction idx as [|i idx IH]; intros [|r rows] Heq;
    cbn in Heq; try discriminate; [done|].
  injection Heq as Hi Hrest. rewrite !filter_cons, categories_lookup, Hi. cbn.
  specialize (IH rows Hrest).
  destruct (decide (category r.2 = c)) as [Hc|Hc].
  - rewrite decide_True by by rewrite Hc. cbn. by rewrite IH.
  - rewrite decide_False by (intros [= ?]; done). done.
Qed.

Lemma count_category_Permutation c : Proper ((≡ₚ) ==> (=)) (count_category c).
Proof. intros df1 df2 Hp. unfold count_category. by rewrite Hp. Qed.

Lemma count_category_app c df1 df2 :
  count_category c (df1 ++ df2) = count_category c df1 + count_category c df2.
Proof. unfold count_category. by rewrite filter_app, length_app. Qed.

Lemma levels_nonempty (y : list string) : y ≠ [] → levels y ≠ [].
Proof.
  destruct y as [|v y]; [done|]. intros _ Hnil.
  assert (v ∈ levels (v :: y)) as Hin by (apply elem_of_levels; left).
  rewrite Hnil in Hin. by apply elem_of_nil in Hin.
Qed.

(** One call of [train_test_split] on a frame, stratified on its category
    column. *)
Lemma train_test_split_spec global (df : DataFrame) test_size seed df_train df_test :
  train_test_split global df test_size (Some seed) (col_CATEGORY df)
  = Ok (df_train, df_test) →
  let n_test := Z.to_nat (Qceiling (test_size * inject_Z (Z.of_nat (length df)))%Q) in
  df_train ++ df_test ≡ₚ df ∧
  length df_test = n_test ∧
  length df_train + n_test = length df ∧
  0 < length df_train ∧
  ∀ c, count_category c df_train * length df
         < count_category c df * length df_train + length df ∧
       count_category c df * length df_train
         < count_category c df_train * length df + length df.
Proof.
  unfold train_test_split.
  rewrite decide_True by (unfold col_CATEGORY; by rewrite length_fmap).
  unfold validate_shuffle_split.
  destruct (negb _); [|done].
  set (n_test := Z.to_nat _).
  case_decide as Htrain; [done|]. cbn [mbind result_bind].
  fold (categories df).
  destruct (stratified_shuffle_split _ _ _ _) as [[train test]|] eqn:Hsplit; [|done].
  cbn [mbind result_bind].
  destruct (iloc df train) as [rows_train|] eqn:Htr; [|done].
  destruct (iloc df test) as [rows_test|] eqn:Hte; [|done].
  cbn [mbind result_bind]. intros [= <- <-].
  assert (0 < n_test) as Hpos.
  { revert Hsplit. unfold stratified_shuffle_split. repeat case_decide; try done.
    intros _. pose proof (levels_nonempty (categories df)) as Hne.
    destruct (levels (categories df)); [|cbn in *; lia].
    exfalso. apply Hne; [|done]. intros Hnil.
    apply (f_equal length) in Hnil. rewrite length_categories in Hnil. cbn in Hnil. lia. }
  apply stratified_shuffle_split_spec in Hsplit as (Hperm & Hlen & Hshare);
    [|rewrite length_categories; lia|done].
  rewrite length_categories in *.
  assert (rows_train ++ rows_test ≡ₚ df) as Hall.
  { apply (iloc_Permutation df (train ++ test)); [|done].
    apply iloc_Ok. apply iloc_Ok in Htr, Hte. by rewrite !fmap_app, Htr, Hte. }
  assert (length rows_train = length train) as Hlt.
  { apply iloc_Ok in Htr. apply (f_equal length) in Htr. by rewrite !length_fmap in Htr. }
  split_and!; [done| | lia | lia |].
  - apply Permutation_length in Hperm, Hall.
    rewrite length_app, length_seq in Hperm. rewrite length_app in Hall. lia.
  - intros c. specialize (Hshare c). cbn in Hshare.
    rewrite class_count_categories in Hshare.
    rewrite (iloc_count_category df train rows_train c Htr). rewrite Hlt, Hlen. done.
Qed.
Lemma ceil_fifth n :
  let k := Z.to_nat (Qceiling ((2 # 10) * inject_Z (Z.of_nat n))%Q) in
  n ≤ 5 * k ∧ 5 * k < n + 5.
Proof.
  cbn zeta. unfold Qceiling, Qfloor, Qopp, Qmult, inject_Z. cbn [Qnum Qden].
  change (Z.pos (10 * 1)) with 10%Z.
  pose proof (Z.div_mod (- (2 * Z.of_nat n)) 10 ltac:(lia)).
  pose proof (Z.mod_pos_bound (- (2 * Z.of_nat n)) 10 ltac:(lia)).
  lia.
Qed.

Lemma ceil_half n :
  let k := Z.to_nat (Qceiling ((5 # 10) * inject_Z (Z.of_nat n))%Q) in
  n ≤ 2 * k ∧ 2 * k < n + 2.
Proof.
  cbn zeta. unfold Qceiling, Qfloor, Qopp, Qmult, inject_Z. cbn [Qnum Qden].
  change (Z.pos (10 * 1)) with 10%Z.
  pose proof (Z.div_mod (- (5 * Z.of_nat n)) 10 ltac:(lia)).
  pose proof (Z.mod_pos_bound (- (5 * Z.of_nat n)) 10 ltac:(lia)).
  lia.
Qed.

Lemma share_within_complement (df part rest : DataFrame) :
  part ++ rest ≡ₚ df → share_within 1 df part → share_within 1 df rest.
Proof.
  intros Hperm Hshare c. specialize (Hshare c).
  pose proof (count_category_Permutation c _ _ Hperm) as Hc.
  rewrite count_category_app in Hc.
  apply Permutation_length in Hperm. rewrite length_app in Hperm.
  nia.
Qed.

Lemma share_within_trans (df mid part : DataFrame) :
  length part ≤ length mid → 0 < length mid →
  share_within 1 df mid → share_within 1 mid part → share_within 2 df part.
Proof.
  intros Hle Hpos H1 H2 c. specialize (H1 c). specialize (H2 c).
  set (n := length df) in *. set (m := length mid) in *. set (s := length part) in *.
  set (C := count_category c df) in *. set (V := count_category c mid) in *.
  set (a := count_category c part) in *.
  destruct H1 as [H1a H1b], H2 as [H2a H2b].
  split.
  - assert (a * n * m < (C * s + 2 * n) * m) as Hm; [|nia].
    assert (a * m * n ≤ (V * s + 1 * m) * n) as Ha by nia.
    assert (V * n * s ≤ (C * m + 1 * n) * s) as Hb by nia.
    nia.
  - assert (C * s * m < (a * n + 2 * n) * m) as Hm; [|nia].
    assert (V * s * n ≤ (a * m + 1 * m) * n) as Ha by nia.
    assert (C * m * s ≤ (V * n + 1 * n) * s) as Hb by nia.
    nia.
Qed.

Lemma read_csv_labels (lines : list news) : (read_csv lines).*1 = seq 0 (length lines).
Proof.
  unfold read_csv. apply list_eq. intros i.
  rewrite list_lookup_fmap, list_lookup_imap.
  destruct (lines !! i) as [r|] eqn:Hi; cbn.
  - symmetry. apply lookup_seq_lt. by eapply lookup_lt_Some.
  - symmetry. apply lookup_seq_ge. by apply lookup_ge_None.
Qed.

Lemma extract_NoDup (lines : list news) : NoDup (extract (read_csv lines)).*1.
Proof.
  unfold extract. rewrite <- list_fmap_compose.
  apply (sublist_NoDup _ (read_csv lines).*1);
    [rewrite read_csv_labels; apply NoDup_seq|].
  apply (fmap_sublist fst), sublist_filter.
Qed.

Lemma reset_index_labels {A} (df : Frame A) : (reset_index df).*1 = seq 0 (length df).
Proof.
  unfold reset_index. apply list_eq. intros i.
  rewrite list_lookup_fmap, list_lookup_imap.
  destruct (df !! i) as [r|] eqn:Hi; cbn.
  - symmetry. apply lookup_seq_lt. by eapply lookup_lt_Some.
  - symmetry. apply lookup_seq_ge. by apply lookup_ge_None.
Qed.

Lemma reset_index_rows {A} (df : Frame A) : (reset_index df).*2 = df.*2.
Proof.
  unfold reset_index. apply list_eq. intros i.
  rewrite !list_lookup_fmap, list_lookup_imap. by destruct (df !! i).
Qed.

Lemma length_reset_index {A} (df : Frame A) : length (reset_index df) = length df.
Proof. apply length_imap. Qed.

Lemma split_partitions_spec global (df train valid test : DataFrame) :
  NoDup df.*1 →
  split_partitions global df = Ok (train, valid, test) →
  train ++ valid ++ test ≡ₚ df ∧
  (train.*1 ## valid.*1 ∧ train.*1 ## test.*1 ∧ valid.*1 ## test.*1) ∧
  (tenths_of 8 (length df) (length train) ∧
   tenths_of 1 (length df) (length valid) ∧
   tenths_of 1 (length df) (length test)) ∧
  (share_within 1 df train ∧ share_within 2 df valid ∧ share_within 2 df test).
Proof.
  intros Hnd. unfold split_partitions.
  destruct (train_test_split global df _ _ _) as [[tr vt]|] eqn:H1; [|done].
  cbn [mbind result_bind].
  destruct (train_test_split global vt _ _ _) as [[va te]|] eqn:H2; [|done].
  cbn [mbind result_bind]. intros [= <- <- <-].
  apply train_test_split_spec in H1 as (Hp1 & Hl1 & Hs1 & Hpos1 & Hsh1).
  apply train_test_split_spec in H2 as (Hp2 & Hl2 & Hs2 & Hpos2 & Hsh2).
  cbn zeta in *.
  pose proof (ceil_fifth (length df)) as [Hf1 Hf2].
  pose proof (ceil_half (length vt)) as [Hh1 Hh2]. cbn zeta in *.
  set (n1 := Z.to_nat (Qceiling ((2 # 10) * inject_Z (Z.of_nat (length df)))%Q)) in *.
  set (n2 := Z.to_nat (Qceiling ((5 # 10) * inject_Z (Z.of_nat (length vt)))%Q)) in *.
  assert (tr ++ va ++ te ≡ₚ df) as Hperm by by rewrite Hp2.
  assert (share_within 1 df tr) as Htr by (intros c; specialize (Hsh1 c); lia).
  assert (share_within 1 vt va) as Hva by (intros c; specialize (Hsh2 c); lia).
  assert (share_within 1 df vt) as Hvt by by eapply share_within_complement.
  assert (share_within 1 vt te) as Hte by by eapply share_within_complement.
  split_and!; [done|..].
  - rewrite <- Hperm in Hnd. rewrite !fmap_app in Hnd.
    apply NoDup_app in Hnd as (_ & Hd & _).
    intros x Hx Hy. apply (Hd x Hx). apply elem_of_app. by left.
  - rewrite <- Hperm in Hnd. rewrite !fmap_app in Hnd.
    apply NoDup_app in Hnd as (_ & Hd & _).
    intros x Hx Hy. apply (Hd x Hx). apply elem_of_app. by right.
  - rewrite <- Hperm in Hnd. rewrite !fmap_app in Hnd.
    apply NoDup_app in Hnd as (_ & _ & Hnd).
    apply NoDup_app in Hnd as (_ & Hd & _). intros x Hx Hy. by apply (Hd x Hx).
  - unfold tenths_of. lia.
  - unfold tenths_of. lia.
  - unfold tenths_of. lia.
  - done.
  - apply (share_within_trans df vt); [lia|lia|done|done].
  - apply (share_within_trans df vt); [lia|lia|done|done].
Qed.

Lemma sum_list_lower b (l : list nat) :
  Forall (λ k, b ≤ k) l → b * length l ≤ sum_list l.
Proof. induction 1 as [|k l Hk _ IH]; cbn; lia. Qed.

Lemma elem_of_categories (df : DataFrame) c :
  c ∈ categories df ↔ 0 < count_category c df.
Proof.
  unfold count_category, categories, col_CATEGORY. rewrite <- list_fmap_compose.
  rewrite list_elem_of_fmap. split.
  - intros (p & -> & Hp).
    assert (p ∈ filter (λ p0 : nat * headline, category p0.2 = category p.2) df) as Hin
      by (apply list_elem_of_filter; split; [reflexivity|exact Hp]).
    destruct (filter _ df); [by apply elem_of_nil in Hin|cbn; lia].
  - intros Hpos. destruct (filter _ df) as [|p l] eqn:Hf; [cbn in Hpos; lia|].
    assert (p ∈ filter (λ p0 : nat * headline, category p0.2 = c) df) as Hin
      by (rewrite Hf; left).
    apply list_elem_of_filter in Hin as [Hc Hin]. by exists p.
Qed.

Lemma levels_bound b (df : DataFrame) :
  (∀ c, c ∈ categories df → b ≤ count_category c df) →
  b * length (levels (categories df)) ≤ length df.
Proof.
  intros Hb. pose proof (class_counts_sum (categories df)) as Hsum.
  rewrite length_categories in Hsum. rewrite <- Hsum.
  rewrite <- (length_fmap (λ c, length (class_indices (categories df) c))
                (levels (categories df))).
  apply sum_list_lower, Forall_fmap, Forall_forall. intros c Hc.
  rewrite elem_of_levels in Hc. unfold compose.
  change (length (class_indices (categories df) c)) with (class_count (categories df) c).
  rewrite class_count_categories. by apply Hb.
Qed.

Lemma stratified_shuffle_split_total y n_train n_test rng :
  (∀ c, c ∈ y → 2 ≤ class_count y c) →
  length (levels y) ≤ n_train → length (levels y) ≤ n_test →
  ∃ train test, stratified_shuffle_split y n_train n_test rng = Ok (train, test).
Proof.
  intros Hcount Htrain Htest. unfold stratified_shuffle_split.
  case_decide as HE.
  { exfalso. apply Exists_exists in HE as (k & Hk & Hlt).
    apply list_elem_of_fmap in Hk as (c & -> & Hc).
    rewrite elem_of_levels in Hc. specialize (Hcount c Hc).
    unfold class_count in Hcount. lia. }
  rewrite !decide_False by lia.
  destruct (approximate_mode _ n_train rng) as [n_i rng1].
  destruct (approximate_mode _ n_test rng1) as [t_i rng2].
  destruct (draw_classes _ rng2) as [[train0 test0] rng3].
  destruct (rng_permutation rng3 train0) as [train1 rng4].
  destruct (rng_permutation rng4 test0) as [test1 rng5].
  by eexists _, _.
Qed.

Lemma train_test_split_total global (df : DataFrame) test_size seed :
  Qle_bool test_size 0 = false → Qle_bool 1 test_size = false →
  let n_test := Z.to_nat (Qceiling (test_size * inject_Z (Z.of_nat (length df)))%Q) in
  n_test < length df →
  (∀ c, c ∈ categories df → 2 ≤ count_category c df) →
  length (levels (categories df)) ≤ length df - n_test →
  length (levels (categories df)) ≤ n_test →
  ∃ df_train df_test,
    train_test_split global df test_size (Some seed) (col_CATEGORY df)
    = Ok (df_train, df_test).
Proof.
  intros Hq0 Hq1 n_test Hlt Hcount Htrain Htest.
  destruct (stratified_shuffle_split_total (categories df) (length df - n_test)
              n_test (seeded seed)) as (train & test & Hsplit); [|done|done|].
  { intros c Hc. rewrite class_count_categories. by apply Hcount. }
  assert (0 < n_test) as Hpos.
  { pose proof (levels_nonempty (categories df)) as Hne.
    destruct (levels (categories df)); [|cbn in *; lia].
    exfalso. apply Hne; [|done]. intros Hnil.
    apply (f_equal length) in Hnil. rewrite length_categories in Hnil. cbn in Hnil. lia. }
  pose proof Hsplit as Hspec.
  apply stratified_shuffle_split_spec in Hspec as (Hperm & _ & _);
    [|rewrite length_categories; lia|done].
  rewrite length_categories in Hperm.
  assert (Forall (λ i, i < length df) (train ++ test)) as Hrange.
  { rewrite Hperm. apply Forall_forall. intros i Hi%elem_of_seq. lia. }
  apply Forall_app in Hrange as [Hr1 Hr2].
  destruct (iloc_total df train Hr1) as [rows_train Htr].
  destruct (iloc_total df test Hr2) as [rows_test Hte].
  exists rows_train, rows_test. unfold train_test_split.
  rewrite decide_True by (unfold col_CATEGORY; by rewrite length_fmap).
  unfold validate_shuffle_split. rewrite Hq0, Hq1. cbn [orb negb].
  fold n_test. rewrite decide_False by lia. cbn [mbind result_bind].
  fold (categories df). unfold check_random_state.
  rewrite Hsplit. cbn [mbind result_bind]. by rewrite Htr, Hte.
Qed.

(** Both stages of the split go through on a table that is not empty and in
    which every category that occurs has at least ten rows. *)
Lemma split_partitions_total global (df : DataFrame) :
  df ≠ [] →
  (∀ c, c ∈ categories df → 10 ≤ count_category c df) →
  ∃ train valid test, split_partitions global df = Ok (train, valid, test).
Proof.
  intros Hne Hten.
  pose proof (levels_bound 10 df Hten) as Hk.
  pose proof (ceil_fifth (length df)) as [Hf1 Hf2]. cbn zeta in *.
  assert (10 ≤ length df) as Hn.
  { destruct df as [|p df]; [done|].
    pose proof (Hten (category p.2)) as Hc.
    assert (category p.2 ∈ categories (p :: df)) as Hin.
    { unfold categories, col_CATEGORY. rewrite <- list_fmap_compose. cbn. left. }
    specialize (Hc Hin). unfold count_category in Hc.
    pose proof (length_filter (λ p0 : nat * headline, category p0.2 = category p.2) (p :: df)).
    lia. }
  destruct (train_test_split_total global df (2 # 10)%Q 123%Z)
    as (tr & vt & H1); [done|done|cbn zeta; lia| |cbn zeta; lia|cbn zeta; lia|].
  { intros c Hc. specialize (Hten c Hc). lia. }
  pose proof H1 as Hspec.
  apply train_test_split_spec in Hspec as (Hp1 & Hl1 & Hs1 & Hpos1 & Hsh1).
  cbn zeta in *.
  assert (∀ c, c ∈ categories vt → 2 ≤ count_category c vt) as Htwo.
  { intros c Hc. apply elem_of_categories in Hc.
    pose proof (count_category_Permutation c _ _ Hp1) as Hcnt.
    rewrite count_category_app in Hcnt.
    assert (c ∈ categories df) as Hdf by (apply elem_of_categories; lia).
    specialize (Hten c Hdf). destruct (Hsh1 c) as [Ha Hb]. nia. }
  pose proof (levels_bound 2 vt Htwo) as Hk2.
  pose proof (ceil_half (length vt)) as [Hh1 Hh2]. cbn zeta in *.
  destruct (train_test_split_total global vt (5 # 10)%Q 123%Z)
    as (va & te & H2); [done|done|cbn zeta; lia|done|cbn zeta; lia|cbn zeta; lia|].
  exists tr, va, te. unfold split_partitions. rewrite H1. cbn [mbind result_bind].
  rewrite H2. done.
Qed.

(** C2, as amended.  Whenever both calls of [train_test_split] go through on
    the filtered table, the three partitions together are the rows of the
    table, each once; their index labels are pairwise disjoint; their sizes
    are within one row of 8, 1 and 1 tenths of the table; of every category
    the train partition holds its proportional share up to one row, the valid
    and test partitions up to two rows; and each partition is then relabelled
    0, 1, 2, ... with its rows unchanged.  Both calls do go through when the
    table is not empty and every category in it has at least ten rows. *)
Theorem split_stratified_partitions (lines : list news) (global : RandomState) :
  let df := extract (read_csv lines) in
  (∀ train valid test,
     split_partitions global df = Ok (train, valid, test) →
     split global df = Ok (reset_index train, reset_index valid, reset_index test) ∧
     train ++ valid ++ test ≡ₚ df ∧
     (train.*1 ## valid.*1 ∧ train.*1 ## test.*1 ∧ valid.*1 ## test.*1) ∧
     (tenths_of 8 (length df) (length train) ∧
      tenths_of 1 (length df) (length valid) ∧
      tenths_of 1 (length df) (length test)) ∧
     (share_within 1 df train ∧ share_within 2 df valid ∧ share_within 2 df test) ∧
     Forall (λ part, (reset_index part).*1 = seq 0 (length part) ∧
                     (reset_index part).*2 = part.*2)
       [train; valid; test]) ∧
  (df ≠ [] →
   (∀ c, c ∈ categories df → 10 ≤ count_category c df) →
   ∃ train valid test, split_partitions global df = Ok (train, valid, test)).
Proof.
  intros df. split.
  - intros train valid test Hsplit.
    destruct (split_partitions_spec global df train valid test)
      as (Hperm & (? & ? & ?) & (? & ? & ?) & (? & ? & ?));
      [apply extract_NoDup|done|].
    split_and!; [|done..|].
    + unfold split. by rewrite Hsplit.
    + repeat constructor; auto using reset_index_labels, reset_index_rows.
  - apply split_partitions_total.
Qed.

Lemma train_test_split_seeded {A} (global1 global2 : RandomState) (df : Frame A)
    test_size seed stratify :
  train_test_split global1 df test_size (Some seed) stratify
  = train_test_split global2 df test_size (Some seed) stratify.
Proof. reflexivity. Qed.

(** C8.  The split of a corpus does not depend on the state of the global
    random generator, the only thing that differs between two runs: both
    calls of [train_test_split] seed a generator of their own with 123, so
    two runs return the same three partitions (or fail alike). *)
Theorem split_deterministic (lines : list news) (global1 global2 : RandomState) :
  split global1 (extract (read_csv lines)) = split global2 (extract (read_csv lines)).
Proof.
  unfold split, split_partitions.
  rewrite (train_test_split_seeded global1 global2).
  destruct (train_test_split global2 _ _ _ _) as [[train valid_test]|]; [|done].
  cbn [mbind result_bind].
  by rewrite (train_test_split_seeded global1 global2).
Qed.

End split_facts.

(** ** The reference instances satisfy what is assumed *)

Lemma cumulative_shares_length counts n total acc :
  length (cumulative_shares counts n total acc) = length counts.
Proof. revert acc. induction counts as [|c counts IH]; intros acc; cbn; by f_equal. Qed.

Lemma cumulative_shares_sum counts n total acc :
  sum_list (cumulative_shares counts n total acc)
  = (acc + sum_list counts) * n / total - acc * n / total.
Proof.
  revert acc. induction counts as [|c counts IH]; intros acc; cbn.
  - rewrite Nat.add_0_r. lia.
  - rewrite IH.
    pose proof (Nat.Div0.div_le_mono (acc * n) ((acc + c) * n) total ltac:(nia)).
    pose proof (Nat.Div0.div_le_mono ((acc + c) * n) ((acc + c + sum_list counts) * n) total
                  ltac:(nia)).
    rewrite (Nat.add_assoc acc c). lia.
Qed.

Lemma cumulative_shares_lookup counts n total acc i c k :
  counts !! i = Some c →
  cumulative_shares counts n total acc !! i = Some k →
  ∃ acc', k = (acc' + c) * n / total - acc' * n / total.
Proof.
  revert acc i. induction counts as [|c' counts IH]; intros acc i Hc Hk; [done|].
  destruct i as [|i]; cbn in *; simplify_eq; eauto.
Qed.

Lemma share_bounds acc c n total :
  0 < total →
  let k := (acc + c) * n / total - acc * n / total in
  k * total < c * n + total ∧ c * n < k * total + total.
Proof.
  intros Hpos. cbn zeta.
  pose proof (Nat.div_mod_eq (acc * n) total) as Ha.
  pose proof (Nat.div_mod_eq ((acc + c) * n) total) as Hb.
  pose proof (Nat.mod_upper_bound (acc * n) total ltac:(lia)) as Hra.
  pose proof (Nat.mod_upper_bound ((acc + c) * n) total ltac:(lia)) as Hrb.
  pose proof (Nat.Div0.div_le_mono (acc * n) ((acc + c) * n) total ltac:(nia)) as Hle.
  set (qa := acc * n / total) in *. set (qb := (acc + c) * n / total) in *.
  set (ra := (acc * n) `mod` total) in *. set (rb := ((acc + c) * n) `mod` total) in *.
  nia.
Qed.

Global Instance plain_numpy_laws : NumpyLaws plain_numpy.
Proof.
  split; cbn.
  - done.
  - intros counts n g. apply cumulative_shares_length.
  - intros counts n g Hle. rewrite cumulative_shares_sum.
    rewrite Nat.mul_0_l, Nat.Div0.div_0_l, Nat.sub_0_r, Nat.add_0_l.
    destruct (decide (sum_list counts = 0)) as [Hz|Hz].
    + rewrite Hz in *. cbn. lia.
    + rewrite Nat.mul_comm. by rewrite Nat.div_mul.
  - intros counts n g i c k Hle Hpos Hc Hk.
    destruct (cumulative_shares_lookup _ _ _ _ _ _ _ Hc Hk) as [acc' ->].
    by apply share_bounds.
Qed.

Global Instance constant_torch_laws : TorchLaws constant_torch.
Proof.
  split; cbn.
  - intros g n. by rewrite reverse_Permutation.
  - intros _ _ _ _ ids _. induction ids; constructor; done.
Qed.

(** A corpus of fifty lines: ten headlines per category from the listed
    publishers, and ten from a publisher that is filtered out. *)
Definition sample_line (publisher category : string) : news :=
  {| ID := "1"; TITLE := "headline " +:+ category; URL := "http://example.org";
     PUBLISHER := publisher; CATEGORY := category; STORY := "s";
     HOSTNAME := "example.org"; TIMESTAMP := "0" |}.

Definition sample_corpus : list news :=
  concat (replicate 10
    [sample_line "Reuters" "b"; sample_line "Daily Mail" "e";
     sample_line "Businessweek" "t"; sample_line "Huffington Post" "m";
     sample_line "Los Angeles Times" "b"]).

Lemma split_stratified_partitions_witness :
  let df := extract (read_csv sample_corpus) in
  ∃ train valid test,
    split (np := plain_numpy) 0%Z df
    = Ok (reset_index train, reset_index valid, reset_index test) ∧
    train ++ valid ++ test ≡ₚ df ∧
    (length train, length valid, length test) = (32, 4, 4).
Proof.
  intros df.
  destruct (split_stratified_partitions (np := plain_numpy) sample_corpus 0%Z)
    as [Hspec Htotal].
  destruct Htotal as (train & valid & test & Hsplit).
  { by_decide. }
  { apply Forall_forall. by_decide. }
  destruct (Hspec train valid test Hsplit) as (Hreset & Hperm & _).
  exists train, valid, test. split_and!; [done|done|].
  revert Hsplit. vm_compute. by intros [= <- <- <-].
Defined.

(** A table of a single headline cannot be split: the train side of the
    first call would be empty, and [train_test_split] raises. *)
Lemma split_single_row :
  split (np := plain_numpy) 0%Z
    [(0, {| title := "Fed holds rates"; category := "b" |})]
  = Raise ValueError.
Proof. reflexivity. Qed.

(** Nor can the twelve-row corpus with three headlines per category: the
    held-out fifth has three rows, fewer than there are classes. *)
Example split_twelve_rows :
  split (np := plain_numpy) 0%Z
    (extract (read_csv (concat (replicate 3
       [sample_line "Reuters" "b"; sample_line "Daily Mail" "e";
        sample_line "Businessweek" "t"; sample_line "Huffington Post" "m"]))))
  = Raise ValueError.
Proof. reflexivity. Qed.

(** Without a seed the split would follow the global generator. *)
Example train_test_split_unseeded :
  let df := extract (read_csv sample_corpus) in
  train_test_split (np := flipping_numpy) 0%Z df (2 # 10)%Q None (col_CATEGORY df)
  ≠ train_test_split (np := flipping_numpy) 1%Z df (2 # 10)%Q None (col_CATEGORY df).
Proof. vm_compute. discriminate. Qed.

(** ** Loading a dataset *)

(** A dataset that a loader can serve: series and label array aligned, room
    for the special tokens, and a rectangular label array with at least one
    column. *)
Definition loadable (ds : CreateDataset) : Prop :=
  aligned ds ∧ 2 ≤ max_len ds ∧ same_length (y ds) ∧ Forall (λ row, row ≠ []) (y ds).

Global Instance loadable_dec ds : Decision (loadable ds).
Proof. unfold loadable. apply _. Defined.

(** The batch that stacks the given examples. *)
Definition stack (items : list item) : batch :=
  {| b_ids := ids <$> items; b_mask := mask <$> items; b_labels := labels <$> items |}.

Lemma rmapM_total {A B} (f : A → result B) (P : A → B → Prop) l :
  Forall (λ x, ∃ y, f x = Ok y ∧ P x y) l →
  ∃ ys, rmapM f l = Ok ys ∧ Forall2 P l ys.
Proof.
  induction 1 as [|x l (y & Hy & HP) _ (ys & Hys & Hall)].
  - exists []. split; [done|constructor].
  - exists (y :: ys). cbn. rewrite Hy, Hys. split; [done|by constructor].
Qed.

Lemma same_length_common {A} (rows : list (list A)) n :
  Forall (λ r, length r = n) rows → same_length rows.
Proof.
  intros Hall. unfold same_length. destruct rows as [|r rows]; [constructor|].
  cbn. apply Forall_cons in Hall as [Hr Hall]. constructor; [done|].
  eapply Forall_impl; [exact Hall|]. cbn. intros; congruence.
Qed.

Lemma same_length_inv {A} (rows : list (list A)) :
  same_length rows → Forall (λ r, length r = length (hd [] rows)) rows.
Proof. done. Qed.

Lemma getitem_Ok ds index :
  loadable ds → index < len ds →
  ∃ it row, getitem ds index = Ok it ∧
            length (ids it) = max_len ds ∧ length (mask it) = max_len ds ∧
            y ds !! index = Some row ∧ labels it = inject_Z <$> row.
Proof.
  intros (Hal & Hmax & _ & _) Hlt.
  destruct (aligned_lookup ds index Hal Hlt) as (text & HX & Hget).
  destruct (lookup_lt_is_Some_2 (y ds) index Hlt) as [row Hy].
  destruct (encode_plus_shape (tokenizer ds) text (max_len ds) Hmax)
    as (pieces & padding & Hpre & Hsum & Hids & Hmask).
  eexists _, row. unfold getitem, array_getitem.
  rewrite Hget, Hy. cbn [mbind result_bind]. split; [reflexivity|].
  cbn [ids mask labels]. rewrite Hids, Hmask.
  rewrite !length_app, !length_replicate. cbn [length].
  split_and!; [lia|lia|done|done].
Qed.

Lemma fetch_Ok ds indices :
  loadable ds → Forall (λ i, i < len ds) indices →
  ∃ items, rmapM (getitem ds) indices = Ok items ∧
           fetch ds indices = Ok (stack items) ∧
           length items = length indices ∧
           Forall (λ it, labels it ≠ []) items.
Proof.
  intros Hload Hrange.
  destruct (rmapM_total (getitem ds)
              (λ i it, length (ids it) = max_len ds ∧ length (mask it) = max_len ds ∧
                       ∃ row, y ds !! i = Some row ∧ labels it = inject_Z <$> row)
              indices) as (items & Hitems & Hall).
  { eapply Forall_impl; [exact Hrange|]. cbn. intros i Hi.
    destruct (getitem_Ok ds i Hload Hi) as (it & row & ? & ? & ? & ? & ?). eauto 10. }
  exists items. split; [done|].
  destruct Hload as (_ & _ & Hrect & Hne).
  apply same_length_inv in Hrect.
  assert (Forall (λ it, length (ids it) = max_len ds ∧ length (mask it) = max_len ds ∧
                        length (labels it) = length (hd [] (y ds)) ∧ labels it ≠ []) items)
    as Hitem.
  { apply Forall_forall. intros it Hit.
    apply list_elem_of_lookup in Hit as [k Hk].
    destruct (Forall2_lookup_r _ _ _ _ _ Hall Hk) as (i & Hi & Hids & Hmask & row & Hrow & Hlab).
    apply list_elem_of_lookup_2 in Hrow.
    rewrite Forall_forall in Hrect, Hne.
    split_and!; [done|done|by rewrite Hlab, length_fmap, Hrect|].
    rewrite Hlab. specialize (Hne row Hrow). by destruct row. }
  split_and!.
  - unfold fetch. rewrite Hitems. cbn [mbind result_bind]. unfold collate.
    fold (stack items). rewrite decide_True; [done|]. cbn. split_and!.
    + apply same_length_common with (max_len ds), Forall_fmap.
      eapply Forall_impl; [exact Hitem|]. by intros it (? & ? & ? & ?).
    + apply same_length_common with (max_len ds), Forall_fmap.
      eapply Forall_impl; [exact Hitem|]. by intros it (? & ? & ? & ?).
    + apply same_length_common with (length (hd [] (y ds))), Forall_fmap.
      eapply Forall_impl; [exact Hitem|]. by intros it (? & ? & ? & ?).
  - symmetry. by eapply Forall2_length.
  - eapply Forall_impl; [exact Hitem|]. by intros it (? & ? & ? & ?).
Qed.

Lemma elem_of_concat_2 {A} (x : A) l (ls : list (list A)) :
  x ∈ l → l ∈ ls → x ∈ concat ls.
Proof.
  intros Hx. induction 1 as [l ls|l l' ls _ IH]; cbn; apply elem_of_app; auto.
Qed.

Lemma chunks_go_nil {A} fuel k : chunks_go (A := A) fuel k [] = [].
Proof. by destruct fuel. Qed.

Lemma chunks_go_concat {A} fuel k (l : list A) :
  0 < k → length l ≤ fuel → concat (chunks_go fuel k l) = l.
Proof.
  intros Hk. revert l. induction fuel as [|fuel IH]; intros l Hl.
  - destruct l; [done|cbn in Hl; lia].
  - destruct l as [|x l]; [done|].
    cbn [chunks_go concat]. rewrite IH; [apply take_drop|].
    rewrite length_drop. cbn in *. lia.
Qed.

Lemma chunks_concat {A} k (l : list A) : 0 < k → concat (chunks k l) = l.
Proof. intros Hk. by apply chunks_go_concat. Qed.

Lemma chunks_whole {A} (l : list A) : l ≠ [] → chunks (length l) l = [l].
Proof.
  intros Hne. unfold chunks. destruct l as [|x l]; [done|].
  cbn [length chunks_go]. rewrite firstn_all2 by (cbn; lia).
  rewrite drop_ge by (cbn; lia). by rewrite chunks_go_nil.
Qed.

(** [bs] are the batches of size [k] (the last one may be short) of the
    examples at [indices], in that order. *)
Definition batches_of (ds : CreateDataset) (k : nat) (indices : list nat)
    (bs : list batch) : Prop :=
  ∃ itemss, Forall2 (λ chunk items, rmapM (getitem ds) chunk = Ok items)
              (chunks k indices) itemss ∧
            bs = stack <$> itemss.

Lemma stacked_batches ds (cs : list (list nat)) (bs : list batch) :
  Forall2 (λ chunk b, ∃ items, rmapM (getitem ds) chunk = Ok items ∧ b = stack items ∧
                               length items = length chunk ∧
                               Forall (λ it, labels it ≠ []) items) cs bs →
  (∃ itemss, Forall2 (λ chunk items, rmapM (getitem ds) chunk = Ok items) cs itemss ∧
             bs = stack <$> itemss) ∧
  sum_list ((λ b, length (b_labels b)) <$> bs) = length (concat cs) ∧
  Forall (λ b, Forall (λ r, r ≠ []) (b_labels b)) bs.
Proof.
  induction 1 as [|chunk b cs bs (items & Hitems & -> & Hlen & Hne) _
                    ((itemss & Hf & ->) & Hsum & Hall)].
  - split_and!; [|done|done]. exists []. split; [constructor|done].
  - split_and!.
    + exists (items :: itemss). split; [by constructor|done].
    + cbn. rewrite length_app, length_fmap, Hsum. lia.
    + constructor; [|done]. cbn. by apply Forall_fmap.
Qed.

Lemma batches_Ok ds k indices :
  loadable ds → 0 < k → Forall (λ i, i < len ds) indices →
  ∃ bs, rmapM (fetch ds) (chunks k indices) = Ok bs ∧
        batches_of ds k indices bs ∧
        sum_list ((λ b, length (b_labels b)) <$> bs) = length indices ∧
        Forall (λ b, Forall (λ r, r ≠ []) (b_labels b)) bs.
Proof.
  intros Hload Hk Hrange.
  destruct (rmapM_total (fetch ds)
              (λ chunk b, ∃ items, rmapM (getitem ds) chunk = Ok items ∧ b = stack items ∧
                                   length items = length chunk ∧
                                   Forall (λ it, labels it ≠ []) items)
              (chunks k indices)) as (bs & Hbs & Hall).
  { apply Forall_forall. intros chunk Hchunk.
    destruct (fetch_Ok ds chunk Hload) as (items & ? & ? & ? & ?); [|by eauto 10].
    apply Forall_forall. intros i Hi. rewrite Forall_forall in Hrange. apply Hrange.
    rewrite <- (chunks_concat k indices Hk). by apply (elem_of_concat_2 i chunk). }
  exists bs. split; [done|].
  apply stacked_batches in Hall as (Hof & Hsum & Hne).
  rewrite chunks_concat in Hsum by done. done.
Qed.

(** ** Checkpoint files *)

Lemma string_length_app s t : String.length (s +:+ t) = String.length s + String.length t.
Proof.
  induction s as [|a s IH]; [done|].
  change (String a s +:+ t) with (String a (s +:+ t)). cbn. by rewrite IH.
Qed.

Lemma string_app_inj_r s1 s2 t : s1 +:+ t = s2 +:+ t → s1 = s2.
Proof.
  revert s2. induction s1 as [|a s1 IH]; intros [|b s2] Heq; [done|..].
  - apply (f_equal String.length) in Heq.
    rewrite !string_length_app in Heq. cbn in Heq. lia.
  - apply (f_equal String.length) in Heq.
    rewrite !string_length_app in Heq. cbn in Heq. lia.
  - change (String a (s1 +:+ t) = String b (s2 +:+ t)) in Heq.
    injection Heq as -> Heq. f_equal. by apply IH.
Qed.

Global Instance checkpoint_file_inj : Inj (=) (=) checkpoint_file.
Proof.
  intros a b Heq. unfold checkpoint_file in Heq.
  apply (inj (String.append "checkpoint")) in Heq.
  apply string_app_inj_r in Heq. apply (inj pretty) in Heq. lia.
Qed.

(** ** The arg-max *)

(** [k] is the first index of a largest entry of [row]. *)
Definition first_max (row : list Q) (k : nat) : Prop :=
  ∃ v, row !! k = Some v ∧
       ∀ j u, row !! j = Some u → (u <= v)%Q ∧ (j < k → (u < v)%Q).

(** [row] holds a 1 at position [k] and 0 elsewhere. *)
Definition one_hot_at (k : nat) (row : list Z) : Prop :=
  k < length row ∧ row = <[k := 1%Z]> (replicate (length row) 0%Z).

Lemma argmax_go_first_max pre row best best_v :
  best < length pre →
  pre !! best = Some best_v →
  (∀ j u, pre !! j = Some u → (u <= best_v)%Q ∧ (j < best → (u < best_v)%Q)) →
  first_max (pre ++ row) (argmax_go best best_v (length pre) row).
Proof.
  revert pre best best_v. induction row as [|v row IH]; intros pre best best_v Hlt Hb Hmax.
  - cbn. rewrite app_nil_r. by exists best_v.
  - cbn [argmax_go]. rewrite (cons_middle v pre row), app_assoc.
    replace (S (length pre)) with (length (pre ++ [v])) by (rewrite length_app; cbn; lia).
    destruct (Qle_bool v best_v) eqn:Hle.
    + apply Qle_bool_iff in Hle. apply IH.
      * rewrite length_app. lia.
      * by rewrite lookup_app_l.
      * intros j u Hj. apply lookup_app_Some in Hj as [Hj|[Hge Hj]]; [by apply Hmax|].
        apply list_lookup_singleton_Some in Hj as [Hj ->]. split; [done|]. lia.
    + assert (best_v < v)%Q as Hgt.
      { apply Qnot_le_lt. intros Hle'. apply Qle_bool_iff in Hle'. congruence. }
      apply IH.
      * rewrite length_app. cbn. lia.
      * rewrite lookup_app_r by lia. by rewrite Nat.sub_diag.
      * intros j u Hj. apply lookup_app_Some in Hj as [Hj|[Hge Hj]].
        -- destruct (Hmax j u Hj) as [Hu _]. split.
           ++ apply Qlt_le_weak. by eapply Qle_lt_trans.
           ++ intros _. by eapply Qle_lt_trans.
        -- apply list_lookup_singleton_Some in Hj as [Hj ->].
           split; [apply Qle_refl|]. lia.
Qed.

Lemma argmax_first_max row k : argmax row = Ok k → first_max row k.
Proof.
  destruct row as [|v row]; [done|]. cbn. intros [= <-].
  apply (argmax_go_first_max [v] row 0 v); [cbn; lia|done|].
  intros [|j] u Hj; cbn in Hj; simplify_eq. split; [apply Qle_refl|lia].
Qed.

Lemma first_max_one_hot row k k' :
  one_hot_at k row → first_max (inject_Z <$> row) k' → k' = k.
Proof.
  intros [Hk Hrow] (v & Hv & Hmax).
  assert ((inject_Z <$> row) !! k = Some (inject_Z 1)) as Hone.
  { rewrite Hrow, list_lookup_fmap, list_lookup_insert_eq; [done|].
    by rewrite length_replicate. }
  destruct (Hmax k _ Hone) as [Hle Hlt].
  destruct (decide (k' = k)) as [|Hne]; [done|exfalso].
  assert (k' < length row) as Hk'.
  { apply lookup_lt_Some in Hv. by rewrite length_fmap in Hv. }
  assert ((inject_Z <$> row) !! k' = Some (inject_Z 0)) as Hzero.
  { rewrite Hrow, list_lookup_fmap, list_lookup_insert_ne by done.
    by rewrite lookup_replicate_2. }
  rewrite Hzero in Hv. injection Hv as <-. by apply Qle_not_lt in Hle.
Qed.

(** ** The training loop and the evaluators *)

Section torch_facts.
Context {torch : Torch}.

Lemma bind_Ok {A B} (m : M A) (k : A → M B) w a w' :
  m w = Ok (a, w') → (m ≫= k) w = k a w'.
Proof. intros Hm. unfold mbind, M_bind. by rewrite Hm. Qed.

Lemma lift_Ok {A} (r : result A) a w : r = Ok a → lift r w = Ok (a, w).
Proof. by intros ->. Qed.

(** The events of one training step and of one evaluation step. *)
Definition train_events (grad : bool) (c : Criterion) (b : batch) : list event :=
  [EvZeroGrad; EvForward grad (b_ids b) (b_mask b); EvLoss c (b_labels b);
   EvBackward; EvStep].

Definition eval_events (c : Criterion) (b : batch) : list event :=
  [EvForward false (b_ids b) (b_mask b); EvLoss c (b_labels b)].

Lemma train_batches_spec c bs w :
  ∃ w', train_batches c bs w = Ok ((), w') ∧
        trace w' = trace w ++ flat_map (train_events (grad_enabled w) c) bs ∧
        grad_enabled w' = grad_enabled w ∧
        files w' = files w.
Proof.
  revert w. induction bs as [|b bs IH]; intros w.
  - exists w. cbn. by rewrite app_nil_r.
  - cbn [train_batches].
    unfold mbind at 1, M_bind at 1. unfold zero_grad at 1.
    unfold mbind at 1, M_bind at 1. unfold forward at 1. cbn [model training grad_enabled generator emit].
    destruct (net_forward _ _ _ _ _ _) as [[outputs graph] g].
    unfold mbind at 1, M_bind at 1. unfold apply_criterion at 1.
    unfold mbind at 1, M_bind at 1. unfold backward at 1.
    unfold mbind at 1, M_bind at 1. unfold step at 1. cbn [model optimizer emit].
    destruct (optim_step _ _) as [o n].
    match goal with |- ∃ w', train_batches c bs ?w1 = _ ∧ _ =>
      destruct (IH w1) as (w' & -> & Htr & Hgr & Hfi) end.
    exists w'. split; [done|]. cbn in Htr, Hgr, Hfi.
    split_and!; [|done|done].
    rewrite Htr. cbn. by rewrite <- !app_assoc.
Qed.
End torch_facts.

Section torch_laws.
Context {torch : Torch} {laws : TorchLaws torch}.

Lemma argmax_rows_Ok (t : list (list Q)) :
  Forall (λ r, r ≠ []) t → ∃ l, argmax_rows t = Ok l ∧ length l = length t.
Proof.
  intros Hne. unfold argmax_rows.
  destruct (rmapM_total argmax (λ _ _, True) t) as (l & Hl & Hall).
  - eapply Forall_impl; [exact Hne|]. intros [|v r] Hr; [done|]. cbn. eauto.
  - exists l. split; [done|]. symmetry. by eapply Forall2_length.
Qed.

Lemma forward_rows_nonempty net training grad g ids mask :
  Forall (λ r, r ≠ []) (net_forward net training grad g ids mask).1.1
  ∧ length (net_forward net training grad g ids mask).1.1 = length ids.
Proof.
  pose proof (net_forward_rows net training grad g ids mask) as Hrows.
  split; [|symmetry; by eapply Forall2_length].
  induction Hrows; constructor; auto.
Qed.

(** One pass over a loader: the batches of a permutation of the examples,
    of all examples in order if the loader does not shuffle. *)
Lemma iterate_spec loader w :
  loadable (dataset loader) → 0 < batch_size loader →
  ∃ indices bs w',
    iterate loader w = Ok (bs, w') ∧
    indices ≡ₚ seq 0 (len (dataset loader)) ∧
    (shuffle loader = false → indices = seq 0 (len (dataset loader))) ∧
    (shuffle loader = true →
       indices = (randperm (generator w) (len (dataset loader))).1) ∧
    batches_of (dataset loader) (batch_size loader) indices bs ∧
    sum_list ((λ b, length (b_labels b)) <$> bs) = len (dataset loader) ∧
    Forall (λ b, Forall (λ r, r ≠ []) (b_labels b)) bs ∧
    trace w' = trace w ∧ grad_enabled w' = grad_enabled w ∧ files w' = files w ∧
    training w' = training w ∧ model w' = model w ∧ optimizer w' = optimizer w.
Proof.
  intros Hload Hk. unfold iterate.
  set (n := len (dataset loader)).
  set (drawn := if shuffle loader then randperm (generator w) n
                else (seq 0 n, generator w)).
  assert (drawn.1 ≡ₚ seq 0 n) as Hperm.
  { unfold drawn. destruct (shuffle loader); [apply randperm_Permutation|done]. }
  destruct drawn as [indices g] eqn:Hdrawn. cbn in Hperm.
  destruct (batches_Ok (dataset loader) (batch_size loader) indices Hload Hk)
    as (bs & Hbs & Hof & Hsum & Hne).
  { rewrite Hperm. apply Forall_forall. intros i Hi%elem_of_seq. unfold n in *. lia. }
  rewrite Hbs. eexists indices, bs, _. split; [reflexivity|]. cbn.
  split_and!; try done.
  - intros Hs. unfold drawn in Hdrawn. rewrite Hs in Hdrawn. by simplify_eq.
  - intros Hs. unfold drawn in Hdrawn. rewrite Hs in Hdrawn. by rewrite Hdrawn.
  - rewrite Hsum. apply Permutation_length in Hperm. by rewrite Hperm, length_seq.
Qed.

Lemma loss_and_accuracy_loop_spec c bs loss total correct w :
  grad_enabled w = false →
  Forall (λ b, Forall (λ r, r ≠ []) (b_labels b)) bs →
  ∃ loss' correct' w',
    loss_and_accuracy_loop c bs loss total correct w
    = Ok ((loss', total + sum_list ((λ b, length (b_labels b)) <$> bs), correct'), w') ∧
    trace w' = trace w ++ flat_map (eval_events c) bs ∧
    grad_enabled w' = false ∧ files w' = files w ∧
    model w' = model w ∧ optimizer w' = optimizer w.
Proof.
  intros Hgrad Hne. revert loss total correct w Hgrad.
  induction Hne as [|b bs Hb _ IH]; intros loss total correct w Hgrad.
  - exists loss, correct, w. cbn. rewrite Nat.add_0_r, app_nil_r. done.
  - cbn [loss_and_accuracy_loop].
    unfold mbind at 1, M_bind at 1. unfold forward at 1.
    destruct (forward_rows_nonempty (model w) (training w) (grad_enabled w)
                (generator w) (b_ids b) (b_mask b)) as [Hrows _].
    destruct (net_forward _ _ _ _ _ _) as [[outputs graph] g]. cbn in Hrows.
    unfold mbind at 1, M_bind at 1. unfold apply_criterion at 1.
    destruct (argmax_rows_Ok outputs Hrows) as (pred & Hpred & _).
    destruct (argmax_rows_Ok (b_labels b) Hb) as (gold & Hgold & Hlen).
    unfold mbind at 1, M_bind at 1. rewrite (lift_Ok _ _ _ Hpred).
    unfold mbind at 1, M_bind at 1. rewrite (lift_Ok _ _ _ Hgold).
    match goal with |- ∃ _ _ _, loss_and_accuracy_loop _ _ ?l ?t ?k ?w1 = _ ∧ _ =>
      destruct (IH l t k w1) as (loss' & correct' & w' & -> & Htr & Hgr & Hfi & Hmo & Hop)
    end; [done|].
    exists loss', correct', w'. cbn in Htr, Hfi, Hmo, Hop.
    split_and!; [|rewrite Htr, Hgrad; cbn; by rewrite <- !app_assoc|done..].
    replace (total + sum_list ((λ b0, length (b_labels b0)) <$> b :: bs))
      with (total + length gold + sum_list ((λ b0, length (b_labels b0)) <$> bs));
      [done|].
    cbn. lia.
Qed.

Lemma calculate_loss_and_accuracy_spec c loader w :
  loadable (dataset loader) → 0 < batch_size loader → 0 < len (dataset loader) →
  ∃ entry indices bs w',
    calculate_loss_and_accuracy c loader w = Ok (entry, w') ∧
    indices ≡ₚ seq 0 (len (dataset loader)) ∧
    (shuffle loader = false → indices = seq 0 (len (dataset loader))) ∧
    (shuffle loader = true →
       ∃ g, indices = (randperm g (len (dataset loader))).1) ∧
    batches_of (dataset loader) (batch_size loader) indices bs ∧
    trace w' = trace w ++ [EvEval] ++ flat_map (eval_events c) bs ∧
    grad_enabled w' = grad_enabled w ∧ files w' = files w ∧
    model w' = model w ∧ optimizer w' = optimizer w.
Proof.
  intros Hload Hk Hn. unfold calculate_loss_and_accuracy.
  unfold mbind at 1, M_bind at 1. unfold set_training at 1.
  unfold mbind at 1, M_bind at 1. unfold no_grad at 1.
  unfold mbind at 1, M_bind at 1. unfold set_grad_enabled at 1.
  cbn [grad_enabled emit].
  unfold mbind at 1, M_bind at 1. unfold mbind at 1, M_bind at 1.
  match goal with |- context [iterate loader ?w1] =>
    destruct (iterate_spec loader w1 Hload Hk)
      as (indices & bs & w2 & -> & Hperm & Hseq & Hrand & Hof & Hsum & Hne
          & Htr2 & Hgr2 & Hfi2 & _ & Hmo2 & Hop2)
  end.
  cbn in Htr2, Hgr2, Hfi2, Hmo2, Hop2.
  destruct (loss_and_accuracy_loop_spec c bs 0%Q 0 0 w2 Hgr2 Hne)
    as (loss & correct & w3 & -> & Htr3 & Hgr3 & Hfi3 & Hmo3 & Hop3).
  unfold mbind at 1, M_bind at 1. unfold set_grad_enabled at 1.
  unfold mret at 1, M_ret at 1.
  unfold mbind at 1, M_bind at 1. unfold div_float.
  rewrite decide_False.
  2:{ unfold loader_len. intros Hz.
      assert (batch_size loader ≤ len (dataset loader) + batch_size loader - 1) as Hle by lia.
      apply (Nat.Div0.div_le_mono _ _ (batch_size loader)) in Hle.
      rewrite Nat.div_same in Hle by lia. lia. }
  unfold lift at 1. unfold mbind at 1, M_bind at 1. unfold div_int.
  rewrite Hsum. cbn [Nat.add]. rewrite decide_False by lia.
  unfold lift at 1. unfold mret, M_ret.
  eexists _, indices, bs, _. split; [reflexivity|].
  cbn. split_and!; try done.
  - intros Hs. eexists. by apply Hrand.
  - rewrite Htr3, Htr2. by rewrite <- app_assoc.
  - congruence.
  - congruence.
  - congruence.
Qed.

(** What one epoch leaves behind. *)
Record epoch_run := {
  run_train : list batch;     (* the batches trained on *)
  run_eval : list batch;      (* the batches of the evaluation on the train set *)
  run_valid : list batch;     (* the batches of the evaluation on the valid set *)
  run_model_state : StateDict;
  run_optimizer_state : StateDict
}.

Definition epoch_events (grad : bool) (c : Criterion) (epoch : nat) (r : epoch_run)
  : list event :=
  [EvTrain] ++ flat_map (train_events grad c) (run_train r)
    ++ [EvEval] ++ flat_map (eval_events c) (run_eval r)
    ++ [EvEval] ++ flat_map (eval_events c) (run_valid r)
    ++ [EvSave (checkpoint epoch (run_model_state r) (run_optimizer_state r))
          (checkpoint_file epoch)].

(** The batches of an epoch are those of the two loaders: shuffled batches of
    the train set for training and for its evaluation, the whole valid set in
    order for its evaluation. *)
Definition shuffled_batches (loader : DataLoader) (bs : list batch) : Prop :=
  ∃ g indices,
    indices = (randperm g (len (dataset loader))).1 ∧
    indices ≡ₚ seq 0 (len (dataset loader)) ∧
    batches_of (dataset loader) (batch_size loader) indices bs.

Definition epoch_batches (dataloader_train dataloader_valid : DataLoader)
    (r : epoch_run) : Prop :=
  shuffled_batches dataloader_train (run_train r) ∧
  shuffled_batches dataloader_train (run_eval r) ∧
  batches_of (dataset dataloader_valid) (batch_size dataloader_valid)
    (seq 0 (len (dataset dataloader_valid))) (run_valid r).

Lemma train_epoch_spec dl_train dl_valid c epoch lt lv w :
  loadable (dataset dl_train) → 0 < batch_size dl_train → 0 < len (dataset dl_train) →
  shuffle dl_train = true →
  loadable (dataset dl_valid) → 0 < batch_size dl_valid → 0 < len (dataset dl_valid) →
  shuffle dl_valid = false →
  ∃ entry_train entry_valid r w',
    train_epoch dl_train dl_valid c epoch lt lv w
    = Ok ((lt ++ [entry_train], lv ++ [entry_valid]), w') ∧
    epoch_batches dl_train dl_valid r ∧
    trace w' = trace w ++ epoch_events (grad_enabled w) c epoch r ∧
    grad_enabled w' = grad_enabled w ∧
    files w' = <[checkpoint_file epoch :=
                   checkpoint epoch (run_model_state r) (run_optimizer_state r)]> (files w) ∧
    run_model_state r = net_state_dict (model w') ∧
    run_optimizer_state r = optim_state_dict (optimizer w').
Proof.
  intros Hload Hk Hn Hsh Hloadv Hkv Hnv Hshv. unfold train_epoch.
  unfold mbind at 1, M_bind at 1. unfold set_training at 1.
  unfold mbind at 1, M_bind at 1.
  match goal with |- context [iterate dl_train ?w1] =>
    destruct (iterate_spec dl_train w1 Hload Hk)
      as (idx1 & bs1 & w2 & -> & Hperm1 & _ & Hrand1 & Hof1 & _ & _
          & Htr2 & Hgr2 & Hfi2 & _)
  end.
  cbn in Htr2, Hgr2, Hfi2.
  unfold mbind at 1, M_bind at 1.
  destruct (train_batches_spec c bs1 w2) as (w3 & -> & Htr3 & Hgr3 & Hfi3).
  unfold mbind at 1, M_bind at 1.
  destruct (calculate_loss_and_accuracy_spec c dl_train w3 Hload Hk Hn)
    as ([loss_train acc_train] & idx2 & bs2 & w4 & -> & Hperm2 & _ & Hrand2 & Hof2
        & Htr4 & Hgr4 & Hfi4 & _).
  unfold mbind at 1, M_bind at 1.
  destruct (calculate_loss_and_accuracy_spec c dl_valid w4 Hloadv Hkv Hnv)
    as ([loss_valid acc_valid] & idx3 & bs3 & w5 & -> & _ & Hseq3 & _ & Hof3
        & Htr5 & Hgr5 & Hfi5 & _).
  rewrite (Hseq3 Hshv) in Hof3.
  unfold mbind at 1, M_bind at 1. unfold state_dicts at 1.
  unfold mbind at 1, M_bind at 1. unfold save at 1. unfold mret, M_ret.
  eexists (loss_train, acc_train), (loss_valid, acc_valid),
    {| run_train := bs1; run_eval := bs2; run_valid := bs3;
       run_model_state := net_state_dict (model w5);
       run_optimizer_state := optim_state_dict (optimizer w5) |}, _.
  split; [reflexivity|]. cbn [trace emit grad_enabled files model optimizer].
  split_and!.
  - split_and!; [| |done].
    + eexists _, idx1. split_and!; [by apply Hrand1|done|done].
    + destruct (Hrand2 Hsh) as [g Hg]. by exists g, idx2.
  - unfold epoch_events. cbn [run_train run_eval run_valid run_model_state
                                run_optimizer_state].
    rewrite Htr5, Htr4, Htr3, Htr2, Hgr2. cbn [grad_enabled].
    by rewrite <- !app_assoc.
  - congruence.
  - cbn. congruence.
  - done.
  - done.
Qed.

Lemma train_epochs_spec dl_train dl_valid c a n lt lv w :
  loadable (dataset dl_train) → 0 < batch_size dl_train → 0 < len (dataset dl_train) →
  shuffle dl_train = true →
  loadable (dataset dl_valid) → 0 < batch_size dl_valid → 0 < len (dataset dl_valid) →
  shuffle dl_valid = false →
  ∃ new_train new_valid runs w',
    train_epochs dl_train dl_valid c (seq a n) lt lv w
    = Ok ((lt ++ new_train, lv ++ new_valid), w') ∧
    length new_train = n ∧ length new_valid = n ∧ length runs = n ∧
    Forall (epoch_batches dl_train dl_valid) runs ∧
    trace w' = trace w
               ++ concat (imap (λ i r, epoch_events (grad_enabled w) c (a + i) r) runs) ∧
    grad_enabled w' = grad_enabled w ∧
    (∀ i r, runs !! i = Some r →
       files w' !! checkpoint_file (a + i)
       = Some (checkpoint (a + i) (run_model_state r) (run_optimizer_state r))) ∧
    (∀ f, (∀ i, i < n → f ≠ checkpoint_file (a + i)) → files w' !! f = files w !! f) ∧
    (∀ i r, runs !! i = Some r →
       ∃ lt_i lv_i w_i,
         train_epochs dl_train dl_valid c (seq a (S i)) lt lv w = Ok ((lt_i, lv_i), w_i) ∧
         run_model_state r = net_state_dict (model w_i) ∧
         run_optimizer_state r = optim_state_dict (optimizer w_i)).
Proof.
  intros Hload Hk Hn Hsh Hloadv Hkv Hnv Hshv.
  revert a lt lv w. induction n as [|n IH]; intros a lt lv w.
  - exists [], [], [], w. cbn. rewrite !app_nil_r. split_and!; try done.
  - cbn [seq train_epochs]. unfold mbind at 1, M_bind at 1.
    destruct (train_epoch_spec dl_train dl_valid c a lt lv w)
      as (et & ev & r & w1 & Hep & Hb & Htr1 & Hgr1 & Hfi1 & Hms & Hos); [done..|].
    rewrite Hep.
    destruct (IH (S a) (lt ++ [et]) (lv ++ [ev]) w1)
      as (nt & nv & runs & w' & -> & Hlt & Hlv & Hlr & Hbs & Htr & Hgr & Hsaved
          & Hother & Hstates).
    exists (et :: nt), (ev :: nv), (r :: runs), w'.
    rewrite <- !app_assoc. cbn [app]. split; [done|].
    split_and!; cbn [length]; try lia.
    + by constructor.
    + rewrite Htr, Htr1, Hgr1. rewrite <- app_assoc. cbn [imap concat].
      rewrite Nat.add_0_r.
      rewrite (imap_ext (λ i r0, epoch_events (grad_enabled w) c (S a + i) r0)
                 ((λ i r0, epoch_events (grad_enabled w) c (a + i) r0) ∘ S) runs);
        [done|].
      intros i x _. unfold compose. f_equal. lia.
    + congruence.
    + intros [|i] r' Hr'; cbn in Hr'.
      * simplify_eq. rewrite Nat.add_0_r. rewrite Hother.
        -- rewrite Hfi1. apply lookup_insert_eq.
        -- intros i Hi Heq. apply (inj checkpoint_file) in Heq. lia.
      * replace (a + S i) with (S a + i) by lia. by apply Hsaved.
    + intros f Hf. rewrite Hother.
      * rewrite Hfi1. apply lookup_insert_ne. intros Heq.
        apply (Hf 0); [lia|]. by rewrite Nat.add_0_r.
      * intros i Hi. replace (S a + i) with (a + S i) by lia. apply Hf. lia.
    + intros [|i] r' Hr'; cbn in Hr'.
      * simplify_eq. exists (lt ++ [et]), (lv ++ [ev]), w1.
        cbn [seq train_epochs]. unfold mbind at 1, M_bind at 1. by rewrite Hep.
      * destruct (Hstates i r' Hr') as (lt_i & lv_i & w_i & Hrun & ? & ?).
        exists lt_i, lv_i, w_i. split; [|done].
        change (seq a (S (S i))) with (a :: seq (S a) (S i)).
        cbn [train_epochs]. unfold mbind at 1, M_bind at 1. by rewrite Hep.
Qed.

(** Running more epochs extends the run of fewer epochs. *)
Lemma train_epochs_app dl_train dl_valid c es1 es2 lt lv w :
  train_epochs dl_train dl_valid c (es1 ++ es2) lt lv w
  = match train_epochs dl_train dl_valid c es1 lt lv w with
    | Ok ((lt', lv'), w') => train_epochs dl_train dl_valid c es2 lt' lv' w'
    | Raise e => Raise e
    end.
Proof.
  revert lt lv w. induction es1 as [|e es1 IH]; intros lt lv w; [done|].
  cbn [app train_epochs]. unfold mbind, M_bind.
  destruct (train_epoch _ _ _ _ _ _ _) as [[[lt1 lv1] w1]|]; [|done].
  apply IH.
Qed.

(** The saves among a list of events, in order. *)
Definition saves (evs : list event) : list (string * gmap string value) :=
  omap (λ e, match e with EvSave obj file => Some (file, obj) | _ => None end) evs.

(** The events of the optimizer: clearing the gradients, back-propagation
    and the update. *)
Definition optimizer_event (e : event) : Prop :=
  e = EvZeroGrad ∨ e = EvBackward ∨ e = EvStep.

Lemma saves_app evs1 evs2 : saves (evs1 ++ evs2) = saves evs1 ++ saves evs2.
Proof. unfold saves. apply omap_app. Qed.

Lemma saves_train_events grad c bs : saves (flat_map (train_events grad c) bs) = [].
Proof. induction bs as [|b bs IH]; [done|]. cbn. exact IH. Qed.

Lemma saves_eval_events c bs : saves (flat_map (eval_events c) bs) = [].
Proof. induction bs as [|b bs IH]; [done|]. cbn. exact IH. Qed.

Lemma saves_epoch_events grad c epoch r :
  saves (epoch_events grad c epoch r)
  = [(checkpoint_file epoch,
      checkpoint epoch (run_model_state r) (run_optimizer_state r))].
Proof.
  unfold epoch_events. rewrite !saves_app.
  by rewrite saves_train_events, !saves_eval_events.
Qed.

Lemma eval_events_no_optimizer c bs :
  Forall (λ e, ¬ optimizer_event e) (flat_map (eval_events c) bs).
Proof.
  induction bs as [|b bs IH]; [constructor|]. cbn.
  repeat (constructor; [by intros [?|[?|?]]|]). exact IH.
Qed.

Lemma train_model_spec ds_train ds_valid bsz c N w :
  loadable ds_train → 0 < len ds_train →
  loadable ds_valid → 0 < len ds_valid → 0 < bsz →
  let dl_train := {| dataset := ds_train; batch_size := bsz; shuffle := true |} in
  let dl_valid :=
    {| dataset := ds_valid; batch_size := len ds_valid; shuffle := false |} in
  ∃ logs runs w',
    train_model ds_train ds_valid bsz c N w = Ok (logs, w') ∧
    length (log_train logs) = N ∧ length (log_valid logs) = N ∧
    length runs = N ∧
    Forall (epoch_batches dl_train dl_valid) runs ∧
    trace w' = trace w
               ++ concat (imap (λ i r, epoch_events (grad_enabled w) c i r) runs) ∧
    (∀ i r, runs !! i = Some r →
       files w' !! checkpoint_file i
       = Some (checkpoint i (run_model_state r) (run_optimizer_state r))) ∧
    (∀ f, (∀ i, i < N → f ≠ checkpoint_file i) → files w' !! f = files w !! f) ∧
    (∀ i r, runs !! i = Some r →
       ∃ logs_i w_i,
         train_model ds_train ds_valid bsz c (S i) w = Ok (logs_i, w_i) ∧
         run_model_state r = net_state_dict (model w_i) ∧
         run_optimizer_state r = optim_state_dict (optimizer w_i)).
Proof.
  intros Hload Hn Hloadv Hnv Hk dl_train dl_valid. unfold train_model.
  unfold new_DataLoader. rewrite !decide_False by lia.
  unfold mbind at 1, M_bind at 1. unfold lift at 1.
  unfold mbind at 1, M_bind at 1. unfold lift at 1.
  unfold mbind at 1, M_bind at 1.
  destruct (train_epochs_spec dl_train dl_valid c 0 N [] [] w)
    as (nt & nv & runs & w' & Heq & Hlt & Hlv & Hlr & Hbs & Htr & Hgr & Hsaved
        & Hother & Hstates);
    [done..|].
  fold dl_train dl_valid. rewrite Heq. unfold mret, M_ret.
  eexists _, runs, w'. split; [reflexivity|]. cbn [log_train log_valid app].
  split_and!; try done.
  intros i r Hr. destruct (Hstates i r Hr) as (lt_i & lv_i & w_i & Hrun & ? & ?).
  exists {| log_train := lt_i; log_valid := lv_i |}, w_i. split; [|done].
  unfold mbind at 1, M_bind at 1. unfold lift at 1.
  unfold mbind at 1, M_bind at 1. unfold lift at 1.
  unfold mbind at 1, M_bind at 1.
  fold dl_train dl_valid. by rewrite Hrun.
Qed.

(** C4.  Every epoch of [train_model] with the script's criterion starts by
    putting the model in training mode and then runs, for each batch of a
    fresh permutation of the training examples, exactly these five steps in
    this order: clear the gradients, forward pass, binary cross-entropy with
    logits between the outputs and the label rows of the batch,
    back-propagation, optimizer step.  The rest of the epoch touches neither
    the gradients nor the optimizer. *)
Theorem train_model_steps ds_train ds_valid bsz N w :
  loadable ds_train → 0 < len ds_train →
  loadable ds_valid → 0 < len ds_valid → 0 < bsz →
  ∃ logs runs w',
    train_model ds_train ds_valid bsz BCEWithLogitsLoss N w = Ok (logs, w') ∧
    length runs = N ∧
    trace w' = trace w
               ++ concat (imap (λ epoch r,
                                  epoch_events (grad_enabled w) BCEWithLogitsLoss epoch r)
                            runs) ∧
    ∀ epoch r, runs !! epoch = Some r →
      shuffled_batches {| dataset := ds_train; batch_size := bsz; shuffle := true |}
        (run_train r) ∧
      ∃ rest,
        epoch_events (grad_enabled w) BCEWithLogitsLoss epoch r
        = [EvTrain]
            ++ flat_map (λ b, [EvZeroGrad;
                               EvForward (grad_enabled w) (b_ids b) (b_mask b);
                               EvLoss BCEWithLogitsLoss (b_labels b);
                               EvBackward;
                               EvStep]) (run_train r)
            ++ rest ∧
        Forall (λ e, ¬ optimizer_event e) rest.
Proof.
  intros Hload Hn Hloadv Hnv Hk.
  destruct (train_model_spec ds_train ds_valid bsz BCEWithLogitsLoss N w)
    as (logs & runs & w' & Heq & _ & _ & Hlr & Hbs & Htr & _); [done..|].
  exists logs, runs, w'. split_and!; [done..|].
  intros epoch r Hr. rewrite Forall_forall in Hbs.
  destruct (Hbs r) as (Hsh & _); [by eapply list_elem_of_lookup_2|].
  split; [done|]. eexists. split; [reflexivity|].
  constructor; [by intros [?|[?|?]]|].
  apply Forall_app. split; [apply eval_events_no_optimizer|].
  constructor; [by intros [?|[?|?]]|].
  apply Forall_app. split; [apply eval_events_no_optimizer|].
  constructor; [by intros [?|[?|?]]|constructor].
Qed.

(** C5.  [train_model] runs all [N] epochs and returns the two logs, each
    with exactly [N] entries; the run of any smaller number [K] of epochs
    returns their first [K] entries, so the entries stand in epoch order, one
    per epoch. *)
Theorem train_model_logs ds_train ds_valid bsz c N w :
  loadable ds_train → 0 < len ds_train →
  loadable ds_valid → 0 < len ds_valid → 0 < bsz →
  ∃ logs w',
    train_model ds_train ds_valid bsz c N w = Ok (logs, w') ∧
    length (log_train logs) = N ∧ length (log_valid logs) = N ∧
    ∀ K, K ≤ N →
      ∃ logs_K w_K,
        train_model ds_train ds_valid bsz c K w = Ok (logs_K, w_K) ∧
        log_train logs_K = take K (log_train logs) ∧
        log_valid logs_K = take K (log_valid logs).
Proof.
  intros Hload Hn Hloadv Hnv Hk.
  destruct (train_model_spec ds_train ds_valid bsz c N w)
    as (logs & runs & w' & Heq & Hlt & Hlv & _); [done..|].
  exists logs, w'. split_and!; [done..|].
  intros K HK.
  destruct (train_model_spec ds_train ds_valid bsz c K w)
    as (logs_K & runs_K & w_K & HeqK & HltK & HlvK & _); [done..|].
  exists logs_K, w_K. split; [done|].
  revert Heq HeqK. unfold train_model, new_DataLoader.
  rewrite !decide_False by lia.
  unfold mbind at 1, M_bind at 1. unfold lift at 1.
  unfold mbind at 1, M_bind at 1. unfold lift at 1.
  unfold mbind at 1, M_bind at 1.
  unfold mbind at 1, M_bind at 1. unfold lift at 1.
  unfold mbind at 1, M_bind at 1. unfold lift at 1.
  unfold mbind at 1, M_bind at 1.
  replace N with (K + (N - K)) at 1 by lia.
  rewrite seq_app, train_epochs_app.
  destruct (train_epochs _ _ c (seq 0 K) [] [] w) as [[[lt_K lv_K] w1]|] eqn:HK1;
    [|done].
  destruct (train_epochs_spec
              {| dataset := ds_train; batch_size := bsz; shuffle := true |}
              {| dataset := ds_valid; batch_size := len ds_valid; shuffle := false |}
              c (0 + K) (N - K) lt_K lv_K w1)
    as (nt & nv & runs' & w2 & -> & _); [done..|].
  unfold mret, M_ret. intros [= <- <-] [= <- <-]. cbn [log_train log_valid] in *.
  by rewrite !take_app_length'.
Qed.

Lemma checkpoint_keys epoch ms os :
  dom (checkpoint epoch ms os)
  = ({["epoch"; "model_state_dict"; "optimizer_state_dict"]} : gset string) ∧
  checkpoint epoch ms os !! "epoch" = Some (VInt (Z.of_nat epoch)) ∧
  checkpoint epoch ms os !! "model_state_dict" = Some (VState ms) ∧
  checkpoint epoch ms os !! "optimizer_state_dict" = Some (VState os).
Proof.
  unfold checkpoint. split_and!.
  - rewrite !dom_insert_L, dom_empty_L. set_solver.
  - by rewrite lookup_insert_eq.
  - rewrite lookup_insert_ne by done. by rewrite lookup_insert_eq.
  - rewrite !(lookup_insert_ne _ _ "optimizer_state_dict") by done.
    by rewrite lookup_insert_eq.
Qed.

(** C7.  Every epoch of [train_model] performs exactly one save.  The save of
    the epoch with loop index [epoch] writes the file
    [checkpoint<epoch + 1>.pt]; what it writes is a dictionary with exactly
    the keys [epoch], [model_state_dict] and [optimizer_state_dict], holding
    the loop index and the state dictionaries of the model and of the
    optimizer as they are when training stops after that epoch; the files of
    different epochs differ, and after the run each file holds what its epoch
    wrote. *)
Theorem train_model_checkpoints ds_train ds_valid bsz c N w :
  loadable ds_train → 0 < len ds_train →
  loadable ds_valid → 0 < len ds_valid → 0 < bsz →
  ∃ logs runs w',
    train_model ds_train ds_valid bsz c N w = Ok (logs, w') ∧
    length runs = N ∧
    trace w' = trace w
               ++ concat (imap (λ epoch r, epoch_events (grad_enabled w) c epoch r) runs) ∧
    ∀ epoch r, runs !! epoch = Some r →
      let file := "checkpoint" +:+ pretty (epoch + 1) +:+ ".pt" in
      let obj := checkpoint epoch (run_model_state r) (run_optimizer_state r) in
      saves (epoch_events (grad_enabled w) c epoch r) = [(file, obj)] ∧
      dom obj = ({["epoch"; "model_state_dict"; "optimizer_state_dict"]} : gset string) ∧
      obj !! "epoch" = Some (VInt (Z.of_nat epoch)) ∧
      obj !! "model_state_dict" = Some (VState (run_model_state r)) ∧
      obj !! "optimizer_state_dict" = Some (VState (run_optimizer_state r)) ∧
      (∃ logs_e w_e,
         train_model ds_train ds_valid bsz c (S epoch) w = Ok (logs_e, w_e) ∧
         run_model_state r = net_state_dict (model w_e) ∧
         run_optimizer_state r = optim_state_dict (optimizer w_e)) ∧
      files w' !! file = Some obj ∧
      ∀ epoch', epoch' ≠ epoch →
        "checkpoint" +:+ pretty (epoch' + 1) +:+ ".pt" ≠ file.
Proof.
  intros Hload Hn Hloadv Hnv Hk.
  destruct (train_model_spec ds_train ds_valid bsz c N w)
    as (logs & runs & w' & Heq & _ & _ & Hlr & _ & Htr & Hsaved & _ & Hstates);
    [done..|].
  exists logs, runs, w'. split_and!; [done..|].
  intros epoch r Hr file obj.
  destruct (checkpoint_keys epoch (run_model_state r) (run_optimizer_state r))
    as (Hdom & He & Hm & Ho).
  split_and!; [apply saves_epoch_events|done..|by apply Hstates|by apply Hsaved|].
  intros epoch' Hne Heq'. apply Hne. by apply (inj checkpoint_file).
Qed.

(** C10.  After [train_model] has run [N] epochs, for every epoch number [k]
    from 1 to [N] the file [checkpoint<k>.pt] holds a dictionary whose
    [epoch] entry is [k - 1], the loop index, and that dictionary was saved
    to that file during the run. *)
Theorem checkpoint_epoch_field ds_train ds_valid bsz c N w :
  loadable ds_train → 0 < len ds_train →
  loadable ds_valid → 0 < len ds_valid → 0 < bsz →
  ∃ logs w',
    train_model ds_train ds_valid bsz c N w = Ok (logs, w') ∧
    ∀ k, 1 ≤ k ≤ N →
      ∃ obj, files w' !! ("checkpoint" +:+ pretty k +:+ ".pt") = Some obj ∧
             obj !! "epoch" = Some (VInt (Z.of_nat k - 1)) ∧
             EvSave obj ("checkpoint" +:+ pretty k +:+ ".pt") ∈ trace w'.
Proof.
  intros Hload Hn Hloadv Hnv Hk.
  destruct (train_model_spec ds_train ds_valid bsz c N w)
    as (logs & runs & w' & Heq & _ & _ & Hlr & _ & Htr & Hsaved & _); [done..|].
  exists logs, w'. split; [done|]. intros k [Hk1 Hk2].
  destruct (lookup_lt_is_Some_2 runs (k - 1)) as [r Hr]; [lia|].
  exists (checkpoint (k - 1) (run_model_state r) (run_optimizer_state r)).
  pose proof (Hsaved (k - 1) r Hr) as Hfile. unfold checkpoint_file in Hfile.
  replace (k - 1 + 1) with k in Hfile by lia.
  split_and!; [done| |].
  - unfold checkpoint. rewrite lookup_insert_eq. do 2 f_equal. lia.
  - rewrite Htr. apply elem_of_app. right.
    apply (elem_of_concat_2 _ (epoch_events (grad_enabled w) c (k - 1) r)).
    + unfold epoch_events. rewrite !elem_of_app. do 6 right.
      unfold checkpoint_file. replace (k - 1 + 1) with k by lia. left.
    + apply list_elem_of_lookup. exists (k - 1).
      by rewrite list_lookup_imap, Hr.
Qed.

(** C3.  On a loadable dataset that is not empty, [calculate_accuracy] loads
    all examples in index order as one batch, runs one forward pass on it in
    evaluation mode with gradient tracking off, and returns the number of
    examples whose arg-max logit index equals the arg-max index of their
    label row, divided by the number of examples.  The arg-max is the first
    index of a largest entry; on a one-hot label row it is the index of the
    1. *)
Theorem calculate_accuracy_value ds w :
  loadable ds → 0 < len ds →
  ∃ items pred gold w',
    rmapM (getitem ds) (seq 0 (len ds)) = Ok items ∧
    calculate_accuracy ds w
    = Ok ((Z.of_nat (count_equal pred gold) # Pos.of_nat (len ds))%Q, w') ∧
    trace w' = trace w ++ [EvEval; EvForward false (ids <$> items) (mask <$> items)] ∧
    grad_enabled w' = grad_enabled w ∧
    length pred = len ds ∧ length gold = len ds ∧
    Forall2 first_max
      (net_forward (model w) false false (generator w)
         (ids <$> items) (mask <$> items)).1.1 pred ∧
    Forall2 first_max (labels <$> items) gold ∧
    ∀ i row k, y ds !! i = Some row → one_hot_at k row → gold !! i = Some k.
Proof.
  intros Hload Hn.
  assert (seq 0 (len ds) ≠ []) as Hne by (destruct (len ds); [lia|done]).
  destruct (fetch_Ok ds (seq 0 (len ds)) Hload) as (items & Hitems & Hfetch & Hlen & Hlab).
  { apply Forall_forall. intros i Hi%elem_of_seq. lia. }
  rewrite length_seq in Hlen.
  destruct (forward_rows_nonempty (model w) false false (generator w)
              (ids <$> items) (mask <$> items)) as [Hrows Hrlen].
  destruct (net_forward (model w) false false (generator w) (ids <$> items)
              (mask <$> items)) as [[outputs graph] g] eqn:Hfwd.
  cbn [fst] in Hrows, Hrlen |- *.
  destruct (argmax_rows_Ok outputs Hrows) as (pred & Hpred & Hplen).
  destruct (argmax_rows_Ok (labels <$> items)) as (gold & Hgold & Hglen).
  { by apply Forall_fmap. }
  rewrite length_fmap in Hrlen. rewrite length_fmap in Hglen.
  exists items, pred, gold.
  unfold calculate_accuracy, new_DataLoader. rewrite decide_False by lia.
  unfold mbind at 1, M_bind at 1. unfold lift at 1.
  unfold mbind at 1, M_bind at 1. unfold set_training at 1.
  unfold mbind at 1, M_bind at 1. unfold no_grad at 1.
  unfold mbind at 1, M_bind at 1. unfold set_grad_enabled at 1.
  unfold mbind at 1, M_bind at 1. unfold mbind at 1, M_bind at 1.
  unfold iterate at 1. cbn [shuffle dataset batch_size generator emit].
  pose proof (chunks_whole (seq 0 (len ds)) Hne) as Hch.
  rewrite length_seq in Hch. rewrite Hch.
  cbn [rmapM]. rewrite Hfetch.
  cbn [accuracy_loop].
  unfold mbind at 1, M_bind at 1. unfold forward at 1.
  cbn [model training grad_enabled generator emit stack b_ids b_mask b_labels].
  rewrite Hfwd.
  unfold mbind at 1, M_bind at 1. rewrite (lift_Ok _ _ _ Hpred).
  unfold mbind at 1, M_bind at 1. rewrite (lift_Ok _ _ _ Hgold).
  unfold mret at 1, M_ret at 1.
  unfold mbind at 1, M_bind at 1. unfold set_grad_enabled at 1.
  unfold mret at 1, M_ret at 1.
  unfold div_int. rewrite Hglen, Hlen. cbn [Nat.add]. rewrite decide_False by lia.
  unfold lift. eexists. split_and!; [done|reflexivity|..].
  - cbn. by rewrite <- app_assoc.
  - done.
  - by rewrite Hplen, Hrlen.
  - by rewrite ?Hglen.
  - apply rmapM_Ok in Hpred. eapply Forall2_impl; [exact Hpred|].
    intros row k. apply argmax_first_max.
  - apply rmapM_Ok in Hgold. eapply Forall2_impl; [exact Hgold|].
    intros row k. apply argmax_first_max.
  - intros i row k Hrow Hhot.
    assert (i < len ds) as Hi by by eapply lookup_lt_Some.
    destruct (lookup_lt_is_Some_2 items i) as [it Hit]; [lia|].
    apply rmapM_Ok in Hitems.
    destruct (Forall2_lookup_r _ _ _ _ _ Hitems Hit) as (i' & Hi' & Hget).
    apply lookup_seq in Hi' as [-> _]. cbn in Hget.
    destruct (getitem_Ok ds i Hload Hi) as (it' & row' & Hget' & _ & _ & Hrow' & Hl).
    assert (it' = it) as -> by congruence. assert (row' = row) as -> by congruence.
    destruct (lookup_lt_is_Some_2 gold i) as [k' Hk']; [lia|].
    apply rmapM_Ok in Hgold.
    destruct (Forall2_lookup_r _ _ _ _ _ Hgold Hk') as (lrow & Hlrow & Harg).
    rewrite list_lookup_fmap, Hit in Hlrow. cbn in Hlrow. simplify_eq.
    apply argmax_first_max in Harg. rewrite Hl in Harg.
    rewrite Hk'. f_equal. by apply (first_max_one_hot row k k').
Qed.
End torch_laws.

(** ** The script's datasets *)

Section script_facts.
Context {torch : Torch}.

(** C9.  The three dataset adapters hold the first 1000 training rows and
    the first 300 validation and test rows of the partitions and of their
    label matrices, and nothing else of them: everything the script does from
    there on (training, the metrics of every epoch, the three final
    accuracies, the checkpoints) is what it would do on the partitions cut
    to these prefixes. *)
Theorem fine_tune_truncated (tokenizer : BertTokenizer) (g : Generator)
    (train valid test : DataFrame) (y_train y_valid y_test : list (list Z)) :
  let '(dataset_train, dataset_valid, dataset_test) :=
    datasets tokenizer train valid test y_train y_valid y_test in
  (X dataset_train = take 1000 (col_TITLE train) ∧
   y dataset_train = take 1000 y_train ∧
   len dataset_train = 1000 `min` length y_train) ∧
  (X dataset_valid = take 300 (col_TITLE valid) ∧
   y dataset_valid = take 300 y_valid ∧
   len dataset_valid = 300 `min` length y_valid) ∧
  (X dataset_test = take 300 (col_TITLE test) ∧
   y dataset_test = take 300 y_test ∧
   len dataset_test = 300 `min` length y_test) ∧
  datasets tokenizer (take 1000 train) (take 300 valid) (take 300 test)
    (take 1000 y_train) (take 300 y_valid) (take 300 y_test)
  = (dataset_train, dataset_valid, dataset_test) ∧
  fine_tune tokenizer g train valid test y_train y_valid y_test
  = fine_tune tokenizer g (take 1000 train) (take 300 valid) (take 300 test)
      (take 1000 y_train) (take 300 y_valid) (take 300 y_test).
Proof.
  assert (datasets tokenizer (take 1000 train) (take 300 valid) (take 300 test)
            (take 1000 y_train) (take 300 y_valid) (take 300 y_test)
          = datasets tokenizer train valid test y_train y_valid y_test) as Heq.
  { unfold datasets, slice_to, col_TITLE.
    by rewrite !fmap_take, !take_take, !Nat.min_id. }
  unfold fine_tune. rewrite Heq.
  unfold datasets, slice_to, len. cbn [X y].
  rewrite !length_take. split_and!; done.
Qed.

End script_facts.

Lemma adapter_loadable k tok (part : DataFrame) (labels : list (list Z)) :
  part.*1 = seq 0 (length part) →
  encodes part labels →
  loadable {| X := slice_to k (col_TITLE part); y := slice_to k labels;
              tokenizer := tok; max_len := 20 |}.
Proof.
  intros Hidx [Hlen Hrows]. unfold loadable, aligned, len, slice_to. cbn [X y max_len].
  assert (Forall (λ row, length row = length classes) labels) as Hfour.
  { apply Forall_forall. intros row Hrow.
    apply list_elem_of_lookup in Hrow as [i Hi].
    destruct (lookup_lt_is_Some_2 part i) as [p Hp].
    { rewrite <- Hlen. by eapply lookup_lt_Some. }
    destruct (Hrows i p Hp) as (row' & Hi' & Hl & _). congruence. }
  split_and!.
  - assert ((col_TITLE part).*1 = part.*1) as Hfst.
    { unfold col_TITLE. rewrite <- list_fmap_compose. by apply list_fmap_ext. }
    rewrite fmap_take, Hfst, Hidx, take_seq, length_take. by rewrite Hlen.
  - lia.
  - apply same_length_common with (length classes).
    by apply Forall_take.
  - apply Forall_take. eapply Forall_impl; [exact Hfour|].
    intros [|z row]; [done|done].
Qed.

(** The adapters the script builds from partitions whose indices were reset
    and from their one-hot label matrices can be served by a loader. *)
Lemma datasets_loadable tok (train valid test : DataFrame)
    (y_train y_valid y_test : list (list Z)) :
  encodes train y_train → encodes valid y_valid → encodes test y_test →
  let '(dataset_train, dataset_valid, dataset_test) :=
    datasets tok (reset_index train) (reset_index valid) (reset_index test)
      y_train y_valid y_test in
  loadable dataset_train ∧ loadable dataset_valid ∧ loadable dataset_test.
Proof.
  assert (∀ part labels, encodes part labels → encodes (reset_index part) labels) as Hreset.
  { intros part labels [Hlen Hrows]. split; [by rewrite length_reset_index|].
    intros i p Hp. unfold reset_index in Hp. rewrite list_lookup_imap in Hp.
    apply fmap_Some in Hp as (q & Hq & ->). cbn. by apply Hrows. }
  intros Htrain Hvalid Htest. unfold datasets.
  split_and!; apply adapter_loadable; auto;
    rewrite reset_index_labels; by rewrite length_reset_index.
Qed.

(** ** The theorems at work on a small run *)

(** Datasets over the four-headline partition, as the script builds them. *)
Definition sample_labels : list (list Z) :=
  [[1; 0; 0; 0]; [0; 1; 0; 0]; [0; 0; 1; 0]; [0; 0; 0; 1]]%Z.

Definition sample_dataset : CreateDataset :=
  (datasets plain_tokenizer four_class_partition four_class_partition
     four_class_partition sample_labels sample_labels sample_labels).1.1.

Definition sample_world : world (torch := constant_torch) :=
  initial_world (torch := constant_torch) 0.

Lemma getitem_shape_witness :
  ∃ text label pieces padding,
    X sample_dataset !! 1 = Some (1, text) ∧
    y sample_dataset !! 1 = Some label ∧
    pieces `prefix_of` wordpiece (tokenizer sample_dataset) text ∧
    getitem sample_dataset 1
    = Ok {| ids := [cls_token_id (tokenizer sample_dataset)] ++ pieces
                     ++ [sep_token_id (tokenizer sample_dataset)]
                     ++ replicate padding (pad_token_id (tokenizer sample_dataset));
            mask := replicate (2 + length pieces) 1%Z ++ replicate padding 0%Z;
            labels := inject_Z <$> label |} ∧
    length ([cls_token_id (tokenizer sample_dataset)] ++ pieces
              ++ [sep_token_id (tokenizer sample_dataset)]
              ++ replicate padding (pad_token_id (tokenizer sample_dataset)))
    = max_len sample_dataset ∧
    length (replicate (2 + length pieces) 1%Z ++ replicate padding 0%Z)
    = max_len sample_dataset.
Proof. apply (getitem_shape sample_dataset 1); by_decide. Defined.

Lemma calculate_accuracy_value_witness :
  ∃ items pred gold w',
    rmapM (getitem sample_dataset) (seq 0 (len sample_dataset)) = Ok items ∧
    calculate_accuracy (torch := constant_torch) sample_dataset sample_world
    = Ok ((Z.of_nat (count_equal pred gold) # Pos.of_nat (len sample_dataset))%Q, w') ∧
    trace w' = trace sample_world
               ++ [EvEval; EvForward false (ids <$> items) (mask <$> items)] ∧
    grad_enabled w' = grad_enabled sample_world ∧
    length pred = len sample_dataset ∧ length gold = len sample_dataset ∧
    Forall2 first_max
      (net_forward (Torch := constant_torch) (model sample_world) false false
         (generator sample_world) (ids <$> items) (mask <$> items)).1.1 pred ∧
    Forall2 first_max (labels <$> items) gold ∧
    ∀ i row k, y sample_dataset !! i = Some row → one_hot_at k row → gold !! i = Some k.
Proof.
  apply (calculate_accuracy_value (torch := constant_torch) sample_dataset sample_world);
    by_decide.
Defined.

(** The hypotheses of the theorems on [train_model], at the sample run. *)
Lemma sample_dataset_loadable : loadable sample_dataset.
Proof. by_decide. Qed.

Lemma sample_dataset_nonempty : 0 < len sample_dataset.
Proof. by_decide. Qed.

Lemma train_model_steps_witness :
  ∃ logs (runs : list (@epoch_run constant_torch)) w',
    train_model (torch := constant_torch) sample_dataset sample_dataset 3
      BCEWithLogitsLoss 2 sample_world = Ok (logs, w') ∧
    length runs = 2 ∧
    trace w' = trace sample_world
               ++ concat (imap (λ epoch r,
                                  epoch_events (grad_enabled sample_world)
                                    BCEWithLogitsLoss epoch r) runs).
Proof.
  pose proof (train_model_steps (torch := constant_torch) sample_dataset
                sample_dataset 3 2 sample_world
                sample_dataset_loadable sample_dataset_nonempty
                sample_dataset_loadable sample_dataset_nonempty
                (Nat.lt_0_succ 2)) as (logs & runs & w' & Heq & Hlen & Htr & _).
  exists logs, runs, w'. exact (conj Heq (conj Hlen Htr)).
Defined.

Lemma train_model_logs_witness :
  ∃ logs w',
    train_model (torch := constant_torch) sample_dataset sample_dataset 3
      BCEWithLogitsLoss 2 sample_world = Ok (logs, w') ∧
    length (log_train logs) = 2 ∧ length (log_valid logs) = 2.
Proof.
  pose proof (train_model_logs (torch := constant_torch) sample_dataset
                sample_dataset 3 BCEWithLogitsLoss 2 sample_world
                sample_dataset_loadable sample_dataset_nonempty
                sample_dataset_loadable sample_dataset_nonempty
                (Nat.lt_0_succ 2)) as (logs & w' & Heq & Hlt & Hlv & _).
  exists logs, w'. exact (conj Heq (conj Hlt Hlv)).
Defined.

Lemma train_model_checkpoints_witness :
  ∃ logs (runs : list (@epoch_run constant_torch)) w',
    train_model (torch := constant_torch) sample_dataset sample_dataset 3
      BCEWithLogitsLoss 2 sample_world = Ok (logs, w') ∧
    length runs = 2 ∧
    ∀ epoch r, runs !! epoch = Some r →
      saves (epoch_events (grad_enabled sample_world) BCEWithLogitsLoss epoch r)
      = [("checkpoint" +:+ pretty (epoch + 1) +:+ ".pt",
          checkpoint epoch (run_model_state r) (run_optimizer_state r))].
Proof.
  pose proof (train_model_checkpoints (torch := constant_torch) sample_dataset
                sample_dataset 3 BCEWithLogitsLoss 2 sample_world
                sample_dataset_loadable sample_dataset_nonempty
                sample_dataset_loadable sample_dataset_nonempty
                (Nat.lt_0_succ 2)) as (logs & runs & w' & Heq & Hlen & _ & Hck).
  exists logs, runs, w'. split; [exact Heq|]. split; [exact Hlen|].
  intros epoch r Hr. destruct (Hck epoch r Hr) as (Hs & _). exact Hs.
Defined.

Lemma checkpoint_epoch_field_witness :
  ∃ logs w' obj,
    train_model (torch := constant_torch) sample_dataset sample_dataset 3
      BCEWithLogitsLoss 2 sample_world = Ok (logs, w') ∧
    files w' !! "checkpoint2.pt" = Some obj ∧
    obj !! "epoch" = Some (VInt 1).
Proof.
  pose proof (checkpoint_epoch_field (torch := constant_torch) sample_dataset
                sample_dataset 3 BCEWithLogitsLoss 2 sample_world
                sample_dataset_loadable sample_dataset_nonempty
                sample_dataset_loadable sample_dataset_nonempty
                (Nat.lt_0_succ 2)) as (logs & w' & Heq & Hfiles).
  destruct (Hfiles 2 (conj (Nat.le_succ_diag_r 1) (Nat.le_refl 2)))
    as (obj & Hobj & Hepoch & _).
  exists logs, w', obj. exact (conj Heq (conj Hobj Hepoch)).
Defined.

(** A dataset without examples has no accuracy: the loader of
    [calculate_accuracy] would have batch size 0. *)
Example calculate_accuracy_empty :
  calculate_accuracy (torch := constant_torch)
    {| X := []; y := []; tokenizer := plain_tokenizer; max_len := 20 |} sample_world
  = Raise ValueError.
Proof. reflexivity. Qed.

(** * Further properties

    What the code does at its edges and as a whole: the errors of the dataset
    adapter, of the label encoder and of the splitter, the exact sizes of the
    partitions, what the evaluators return and what they leave alone, the
    work and the files of a training run, and the script from the corpus to
    its report. *)

(** ** The dataset adapter: bounds and truncation *)

Lemma series_getitem_missing (s : Series) index :
  index ∉ s.*1 → series_getitem s index = Raise KeyError.
Proof.
  induction s as [|[l v] s IH]; intros Hin; [done|].
  cbn in Hin. apply not_elem_of_cons in Hin as [Hne Hin].
  cbn [series_getitem]. rewrite decide_False by done. by apply IH.
Qed.

(** X1.  Access outside the dataset raises.  The title is looked up first,
    by label, in the series: an index that is no label of it raises
    [KeyError]; an index that is a label of the series but not a position of
    the label array raises [IndexError].  In a dataset whose series is
    labelled by the positions of the label array, every index from the length
    on raises [KeyError]. *)
Theorem getitem_bounds (ds : CreateDataset) (index : nat) :
  (index ∉ (X ds).*1 → getitem ds index = Raise KeyError) ∧
  (index ∈ (X ds).*1 → len ds ≤ index → getitem ds index = Raise IndexError) ∧
  (aligned ds → len ds ≤ index → getitem ds index = Raise KeyError).
Proof.
  split_and!.
  - intros Hout. unfold getitem. by rewrite series_getitem_missing.
  - intros Hin Hge. unfold getitem.
    assert (∃ text, series_getitem (X ds) index = Ok text) as [text ->].
    { induction (X ds) as [|[l v] s IH]; [by apply elem_of_nil in Hin|].
      cbn [series_getitem]. case_decide; [by eauto|].
      apply IH. cbn in Hin. apply elem_of_cons in Hin as [?|?]; [congruence|done]. }
    cbn [mbind result_bind]. unfold array_getitem.
    rewrite lookup_ge_None_2; [done|]. exact Hge.
  - intros Hal Hge. unfold getitem. rewrite series_getitem_missing; [done|].
    rewrite Hal, elem_of_seq. lia.
Qed.

Lemma encode_plus_exact tok text max_length :
  2 ≤ max_length →
  let pieces := take (max_length - 2) (wordpiece tok text) in
  let padding := max_length - 2 - length (wordpiece tok text) in
  input_ids (encode_plus tok text true max_length true)
  = [cls_token_id tok] ++ pieces ++ [sep_token_id tok]
      ++ replicate padding (pad_token_id tok) ∧
  attention_mask (encode_plus tok text true max_length true)
  = replicate (2 + length pieces) 1%Z ++ replicate padding 0%Z.
Proof.
  intros Hmax pieces padding. unfold encode_plus. cbn [input_ids attention_mask].
  set (ws := wordpiece tok text) in *.
  assert (take (length ws - (length ws + 2 - max_length)) ws = pieces) as ->.
  { unfold pieces. destruct (decide (length ws + 2 ≤ max_length)) as [Hle|Hgt].
    - rewrite !take_ge by lia. done.
    - f_equal. lia. }
  assert (length pieces = length ws `min` (max_length - 2)) as Hlen.
  { unfold pieces. rewrite length_take. lia. }
  cbn [length app]. rewrite !length_app. cbn [length].
  replace (max_length - S (length pieces + 1)) with padding by (unfold padding; lia).
  replace (S (length pieces + 1)) with (2 + length pieces) by lia.
  split; [|done]. by rewrite <- !app_assoc.
Qed.

(** X2.  What an example holds of its title: the first [max_len - 2] word
    pieces, all of them if there are no more, between [CLS] and [SEP], and as
    many padding tokens as the title falls short; a title of more than
    [max_len - 2] word pieces loses its tail, gets no padding and a mask of
    ones only. *)
Theorem getitem_truncation (ds : CreateDataset) (index : nat) (text : string) :
  2 ≤ max_len ds →
  series_getitem (X ds) index = Ok text →
  index < len ds →
  let tok := tokenizer ds in
  let words := wordpiece tok text in
  let pieces := take (max_len ds - 2) words in
  let padding := max_len ds - 2 - length words in
  ∃ it, getitem ds index = Ok it ∧
    ids it = [cls_token_id tok] ++ pieces ++ [sep_token_id tok]
               ++ replicate padding (pad_token_id tok) ∧
    mask it = replicate (2 + length pieces) 1%Z ++ replicate padding 0%Z ∧
    (length words ≤ max_len ds - 2 → pieces = words) ∧
    (max_len ds - 2 < length words →
       ids it = [cls_token_id tok] ++ pieces ++ [sep_token_id tok] ∧
       mask it = replicate (max_len ds) 1%Z ∧
       words = pieces ++ drop (max_len ds - 2) words ∧
       drop (max_len ds - 2) words ≠ []).
Proof.
  intros Hmax Hget Hlt tok words pieces padding.
  destruct (lookup_lt_is_Some_2 (y ds) index Hlt) as [label Hy].
  destruct (encode_plus_exact tok text (max_len ds) Hmax) as [Hids Hmask].
  eexists. unfold getitem, array_getitem. rewrite Hget, Hy. cbn [mbind result_bind].
  split; [reflexivity|]. cbn [ids mask]. fold tok.
  split; [exact Hids|]. split; [exact Hmask|]. split.
  - intros Hle. unfold pieces. by rewrite take_ge.
  - intros Hgt. rewrite Hids, Hmask.
    assert (length pieces = max_len ds - 2) as Hlen.
    { unfold pieces. rewrite length_take. lia. }
    fold words pieces. replace (max_len ds - 2 - length words) with 0 by lia.
    cbn [replicate]. rewrite !app_nil_r, Hlen.
    replace (2 + (max_len ds - 2)) with (max_len ds) by lia.
    split_and!; [done|done|unfold pieces; by rewrite take_drop|].
    intros Hnil. apply (f_equal length) in Hnil. rewrite length_drop in Hnil.
    cbn in Hnil. lia.
Qed.

(** ** The label encoder: when it is defined, and decoding its rows *)

(** The row of the label matrix for a headline of category [c]. *)
Definition label_row (c : string) : list Z :=
  (λ k, if decide (c = k) then 1%Z else 0%Z) <$> classes.

Lemma rmapM_Raise {A B} (f : A → result B) l x e :
  x ∈ l → (∀ x', x' ∈ l → f x' = Raise e ∨ ∃ y, f x' = Ok y) → f x = Raise e →
  rmapM f l = Raise e.
Proof.
  induction l as [|x' l IH]; intros Hin Hall Hx; [by apply elem_of_nil in Hin|].
  cbn [rmapM]. destruct (Hall x') as [->|[y Hy]]; [left|done|]. rewrite Hy.
  apply elem_of_cons in Hin as [->|Hin]; [congruence|].
  rewrite IH; [done|done| |done]. intros x'' Hx''. apply Hall. by right.
Qed.

Lemma label_encoder_cases (part : DataFrame) :
  (Forall (λ c, c ∈ (λ p, category p.2) <$> part) classes →
   label_encoder part = Ok (values (length part) (indicator part <$> classes))) ∧
  (¬ Forall (λ c, c ∈ (λ p, category p.2) <$> part) classes →
   label_encoder part = Raise KeyError).
Proof.
  assert (label_columns = (λ c, "CATEGORY_" +:+ c) <$> classes) as Hcols by reflexivity.
  split.
  - intros Hall. rewrite Forall_forall in Hall.
    unfold label_encoder, getitem_columns. rewrite Hcols.
    assert (rmapM (column (get_dummies part)) ((λ c, "CATEGORY_" +:+ c) <$> classes)
            = Ok (indicator part <$> classes)) as ->; [|done].
    apply rmapM_Ok. apply Forall2_fmap. apply Forall_Forall2_diag, Forall_forall.
    intros c Hc. apply column_get_dummies. by apply Hall.
  - intros Hnot. apply not_Forall_Exists in Hnot; [|apply _].
    apply Exists_exists in Hnot as (c & Hc & Hmiss).
    unfold label_encoder, getitem_columns. rewrite Hcols.
    rewrite (rmapM_Raise _ _ ("CATEGORY_" +:+ c) KeyError); [done| | |].
    + apply list_elem_of_fmap. by exists c.
    + intros name Hname. apply list_elem_of_fmap in Hname as (c' & -> & Hc').
      destruct (decide (c' ∈ (λ p, category p.2) <$> part)) as [Hin|Hout].
      * right. eexists. by apply column_get_dummies.
      * left. by apply column_get_dummies_absent.
    + by apply column_get_dummies_absent.
Qed.

Lemma values_indicator_lookup (part : DataFrame) i p :
  part !! i = Some p →
  values (length part) (indicator part <$> classes) !! i = Some (label_row (category p.2)).
Proof.
  intros Hp. unfold values.
  pose proof (lookup_lt_Some _ _ _ Hp) as Hlt.
  rewrite list_lookup_fmap, lookup_seq_lt by done. cbn [fmap option_fmap option_map].
  f_equal. unfold label_row. rewrite <- list_fmap_compose.
  apply list_fmap_ext. intros j c _. cbn. by rewrite (nth_indicator _ _ _ _ Hp).
Qed.

(** X3.  The label encoder is defined exactly on the partitions in which each
    of the four categories b, e, t and m occurs; on any other partition the
    selection of the four columns raises [KeyError].  Where it is defined,
    the matrix has one row per example, and the row of an example holds, for
    each of b, e, t, m in this order, a 1 if that is the example's category
    and a 0 if not. *)
Theorem label_encoder_defined (part : DataFrame) :
  (Forall (λ c, c ∈ (λ p, category p.2) <$> part) classes →
   ∃ m, label_encoder part = Ok m ∧
        length m = length part ∧
        ∀ i p, part !! i = Some p → m !! i = Some (label_row (category p.2))) ∧
  (¬ Forall (λ c, c ∈ (λ p, category p.2) <$> part) classes →
   label_encoder part = Raise KeyError).
Proof.
  destruct (label_encoder_cases part) as [Hok Hraise]. split; [|done].
  intros Hall. eexists. split; [by apply Hok|]. split.
  - unfold values. by rewrite length_fmap, length_seq.
  - intros i p Hp. by apply values_indicator_lookup.
Qed.

Lemma label_encoder_row (part : DataFrame) m i p :
  label_encoder part = Ok m → part !! i = Some p →
  m !! i = Some (label_row (category p.2)).
Proof.
  intros Hm Hp. destruct (label_encoder_cases part) as [Hok Hraise].
  destruct (decide (Forall (λ c, c ∈ (λ p, category p.2) <$> part) classes)) as [Hall|Hnot].
  - rewrite Hok in Hm by done. injection Hm as <-. by apply values_indicator_lookup.
  - rewrite Hraise in Hm by done. done.
Qed.

Lemma label_row_cases c :
  (∃ k, classes !! k = Some c ∧ one_hot_at k (label_row c)
        ∧ argmax (inject_Z <$> label_row c) = Ok k)
  ∨ ((c ∉ classes) ∧ label_row c = [0; 0; 0; 0]%Z
     ∧ argmax (inject_Z <$> label_row c) = Ok 0).
Proof.
  unfold label_row, classes. cbn [fmap list_fmap].
  destruct (decide (c = "b")) as [->|Hb].
  { left. exists 0. split_and!; [done| |done]. split; [cbn; lia|done]. }
  destruct (decide (c = "e")) as [->|He].
  { left. exists 1. split_and!; [done| |done]. split; [cbn; lia|done]. }
  destruct (decide (c = "t")) as [->|Ht].
  { left. exists 2. split_and!; [done| |done]. split; [cbn; lia|done]. }
  destruct (decide (c = "m")) as [->|Hm].
  { left. exists 3. split_and!; [done| |done]. split; [cbn; lia|done]. }
  right. split_and!; [|done|done].
  rewrite !not_elem_of_cons. split_and!; [done..|apply not_elem_of_nil].
Qed.

(** X4.  Decoding undoes encoding: the arg-max of the label row of an example
    (what the evaluators take as its class) is the position of the example's
    category in b, e, t, m.  An example of any other category has an all-zero
    row, which the arg-max reads as class 0. *)
Theorem label_row_decodes (part : DataFrame) (m : list (list Z)) (i : nat)
    (p : nat * headline) :
  label_encoder part = Ok m →
  part !! i = Some p →
  ∃ row, m !! i = Some row ∧
    (∀ k, classes !! k = Some (category p.2) →
       one_hot_at k row ∧ argmax (inject_Z <$> row) = Ok k) ∧
    (category p.2 ∉ classes →
       row = [0; 0; 0; 0]%Z ∧ argmax (inject_Z <$> row) = Ok 0).
Proof.
  intros Hm Hp. exists (label_row (category p.2)).
  split; [by eapply label_encoder_row|].
  destruct (label_row_cases (category p.2)) as [(k & Hk & Hhot & Harg)|(Hout & Hrow & Harg)].
  - split.
    + intros k' Hk'. assert (k' = k) as ->; [|done].
      eapply NoDup_lookup; [|exact Hk'|exact Hk].
      unfold classes. by_decide.
    + intros Hout. exfalso. apply Hout. by eapply list_elem_of_lookup_2.
  - split; [|done]. intros k Hk. exfalso. apply Hout. by eapply list_elem_of_lookup_2.
Qed.

(** ** The filter on the publishers *)

Lemma filter_imap_snd {A} (P : A → Prop) `{∀ x, Decision (P x)} (g : nat → nat)
    (l : list A) :
  (filter (λ p, P p.2) (imap (λ i r, (g i, r)) l)).*2 = filter P l.
Proof.
  revert g. induction l as [|x l IH]; intros g; [done|].
  cbn [imap]. rewrite !filter_cons. cbn [snd].
  specialize (IH (g ∘ S)). unfold compose in *. cbv beta in *.
  case_decide; cbn [fmap list_fmap snd]; by rewrite IH.
Qed.

(** X5.  The table the script works on holds exactly the lines of the five
    listed publishers, in the order of the file: each with its line number
    as index label and with its title and category only. *)
Theorem extract_rows (lines : list news) :
  let df := extract (read_csv lines) in
  (∀ i h, (i, h) ∈ df ↔
     ∃ r, lines !! i = Some r ∧ PUBLISHER r ∈ publishers ∧
          h = {| title := TITLE r; category := CATEGORY r |}) ∧
  df.*1 `sublist_of` seq 0 (length lines) ∧
  df.*2 = (λ r, {| title := TITLE r; category := CATEGORY r |})
            <$> filter (λ r, PUBLISHER r ∈ publishers) lines.
Proof.
  intros df. split_and!.
  - intros i h. unfold df, extract, read_csv. rewrite list_elem_of_fmap. split.
    + intros ([j r] & Heq & Hin). cbn in Heq. injection Heq as -> ->.
      apply list_elem_of_filter in Hin as [Hpub Hin]. cbn in Hpub.
      apply list_elem_of_lookup in Hin as [k Hk].
      rewrite list_lookup_imap in Hk. apply fmap_Some in Hk as (r' & Hr' & Heq).
      injection Heq as -> ->. by exists r'.
    + intros (r & Hr & Hpub & ->). exists (i, r). split; [done|].
      apply list_elem_of_filter. split; [done|].
      apply list_elem_of_lookup. exists i. by rewrite list_lookup_imap, Hr.
  - unfold df, extract. rewrite <- list_fmap_compose.
    rewrite <- read_csv_labels. apply (fmap_sublist fst), sublist_filter.
  - unfold df, extract, read_csv. rewrite <- list_fmap_compose.
    rewrite <- (filter_imap_snd (λ r, PUBLISHER r ∈ publishers) id lines).
    rewrite <- list_fmap_compose. done.
Qed.

(** ** The splitter: sizes, failures, and the categories of the partitions *)

Lemma ceil_fifth_div n :
  Z.to_nat (Qceiling ((2 # 10) * inject_Z (Z.of_nat n))%Q) = (n + 4) / 5.
Proof.
  pose proof (ceil_fifth n) as [H1 H2]. cbn zeta in *.
  set (k := Z.to_nat _) in *.
  pose proof (Nat.div_mod_eq (n + 4) 5). pose proof (Nat.mod_upper_bound (n + 4) 5). lia.
Qed.

Lemma ceil_half_div n :
  Z.to_nat (Qceiling ((5 # 10) * inject_Z (Z.of_nat n))%Q) = (n + 1) / 2.
Proof.
  pose proof (ceil_half n) as [H1 H2]. cbn zeta in *.
  set (k := Z.to_nat _) in *.
  pose proof (Nat.div_mod_eq (n + 1) 2). pose proof (Nat.mod_upper_bound (n + 1) 2). lia.
Qed.

Section split_more.
Context {np : Numpy}.

Lemma split_partitions_Ok global (df train valid test : DataFrame) :
  split global df = Ok (train, valid, test) →
  ∃ train0 valid0 test0,
    split_partitions global df = Ok (train0, valid0, test0) ∧
    train = reset_index train0 ∧ valid = reset_index valid0 ∧ test = reset_index test0.
Proof.
  unfold split. destruct (split_partitions global df) as [[[tr va] te]|]; [|done].
  cbn [mbind result_bind]. intros [= <- <- <-]. by eexists _, _, _.
Qed.

Lemma stratified_shuffle_split_refuses y n_train n_test rng :
  Exists (λ k, k < 2) ((λ c, length (class_indices y c)) <$> levels y)
  ∨ n_train < length (levels y) ∨ n_test < length (levels y) →
  stratified_shuffle_split y n_train n_test rng = Raise ValueError.
Proof.
  intros Hbad. unfold stratified_shuffle_split.
  repeat case_decide; try done. exfalso. destruct Hbad as [?|[?|?]]; done.
Qed.

Lemma stratified_shuffle_split_exn y n_train n_test rng e :
  stratified_shuffle_split y n_train n_test rng = Raise e → e = ValueError.
Proof.
  unfold stratified_shuffle_split. repeat case_decide; try congruence.
  destruct (approximate_mode _ n_train rng) as [n_i rng1].
  destruct (approximate_mode _ n_test rng1) as [t_i rng2].
  destruct (draw_classes _ rng2) as [[train0 test0] rng3].
  destruct (rng_permutation rng3 train0) as [train1 rng4].
  destruct (rng_permutation rng4 test0) as [test1 rng5]. done.
Qed.

(** The first call of [train_test_split] in the script, unfolded up to the
    stratified split. *)
Lemma train_test_split_fifth global (df : DataFrame) :
  train_test_split global df (2 # 10)%Q (Some 123%Z) (col_CATEGORY df)
  = if decide (length df - (length df + 4) / 5 = 0) then Raise ValueError
    else
      '(train, test) ← stratified_shuffle_split (categories df)
                          (length df - (length df + 4) / 5) ((length df + 4) / 5)
                          (seeded 123%Z);
      df_train ← iloc df train;
      df_test ← iloc df test;
      Ok (df_train, df_test).
Proof.
  unfold train_test_split.
  rewrite decide_True by (unfold col_CATEGORY; by rewrite length_fmap).
  unfold validate_shuffle_split.
  change (negb (Qle_bool (2 # 10) 0 || Qle_bool 1 (2 # 10))) with true. cbv iota.
  rewrite ceil_fifth_div. by case_decide.
Qed.

(** X6.  The split refuses a table that is empty, or in which some category
    has a single headline, or that has more categories than a fifth of its
    rows (rounded up): the first call of [train_test_split] raises
    [ValueError]. *)
Theorem split_refuses (global : RandomState) (df : DataFrame) :
  df = [] ∨ (∃ c, count_category c df = 1)
  ∨ (length df + 4) / 5 < length (levels (categories df)) →
  split global df = Raise ValueError.
Proof.
  intros Hbad. unfold split, split_partitions. rewrite train_test_split_fifth.
  case_decide as Hz; [done|].
  rewrite stratified_shuffle_split_refuses; [done|].
  destruct Hbad as [->|[[c Hc]|Hfew]].
  - cbn in Hz. done.
  - left. apply Exists_exists. exists 1. split; [|lia].
    apply list_elem_of_fmap. exists c. split.
    + change (length (class_indices (categories df) c))
        with (class_count (categories df) c).
      by rewrite class_count_categories.
    + apply elem_of_levels, elem_of_categories. lia.
  - right. right. done.
Qed.

Context {laws : NumpyLaws np}.

Lemma train_test_split_outcome global (df : DataFrame) test_size seed :
  train_test_split global df test_size (Some seed) (col_CATEGORY df) = Raise ValueError
  ∨ ∃ df_train df_test,
      train_test_split global df test_size (Some seed) (col_CATEGORY df)
      = Ok (df_train, df_test).
Proof.
  unfold train_test_split.
  rewrite decide_True by (unfold col_CATEGORY; by rewrite length_fmap).
  unfold validate_shuffle_split.
  destruct (negb _); [|by left].
  set (n_test := Z.to_nat _).
  case_decide as Htrain; [by left|]. cbn [mbind result_bind].
  fold (categories df). unfold check_random_state.
  destruct (stratified_shuffle_split _ _ _ _) as [[train test]|e] eqn:Hsplit.
  2:{ left. apply stratified_shuffle_split_exn in Hsplit as ->. done. }
  cbn [mbind result_bind]. right.
  assert (0 < n_test) as Hpos.
  { revert Hsplit. unfold stratified_shuffle_split. repeat case_decide; try done.
    intros _. pose proof (levels_nonempty (categories df)) as Hne.
    destruct (levels (categories df)); [|cbn in *; lia].
    exfalso. apply Hne; [|done]. intros Hnil.
    apply (f_equal length) in Hnil. rewrite length_categories in Hnil. cbn in Hnil. lia. }
  apply stratified_shuffle_split_spec in Hsplit as (Hperm & _ & _);
    [|rewrite length_categories; lia|done].
  rewrite length_categories in Hperm.
  assert (Forall (λ i, i < length df) (train ++ test)) as Hrange.
  { rewrite Hperm. apply Forall_forall. intros i Hi%elem_of_seq. lia. }
  apply Forall_app in Hrange as [Hr1 Hr2].
  destruct (iloc_total df train Hr1) as [rows_train ->].
  destruct (iloc_total df test Hr2) as [rows_test ->].
  by eexists _, _.
Qed.

(** X7.  The split either returns three partitions or raises [ValueError]:
    the indices scikit-learn draws are always rows of the table, so the
    positional selection never fails, and nothing else is raised. *)
Theorem split_outcome (global : RandomState) (df : DataFrame) :
  split global df = Raise ValueError
  ∨ ∃ train valid test, split global df = Ok (train, valid, test).
Proof.
  unfold split, split_partitions.
  destruct (train_test_split_outcome global df (2 # 10)%Q 123%Z)
    as [->|(tr & vt & ->)]; [by left|].
  cbn [mbind result_bind].
  destruct (train_test_split_outcome global vt (5 # 10)%Q 123%Z)
    as [->|(va & te & ->)]; [by left|].
  right. by eexists _, _, _.
Qed.

(** X8.  The sizes of the three partitions of a table of [n] rows: the
    held-out part is a fifth of the table, rounded up, and the test partition
    is half of it, rounded up; so the test partition is never smaller than
    the valid partition, and at most one row larger. *)
Theorem split_sizes (global : RandomState) (df train valid test : DataFrame) :
  split global df = Ok (train, valid, test) →
  let n := length df in
  let held := (n + 4) / 5 in
  length train = n - held ∧
  length valid = held / 2 ∧
  length test = (held + 1) / 2 ∧
  length train + length valid + length test = n ∧
  length valid ≤ length test ≤ length valid + 1.
Proof.
  intros Hsplit n held.
  apply split_partitions_Ok in Hsplit as (tr & va & te & Hparts & -> & -> & ->).
  rewrite !length_reset_index.
  revert Hparts. unfold split_partitions.
  destruct (train_test_split global df _ _ _) as [[tr' vt]|] eqn:H1; [|done].
  cbn [mbind result_bind].
  destruct (train_test_split global vt _ _ _) as [[va' te']|] eqn:H2; [|done].
  cbn [mbind result_bind]. intros [= -> -> ->].
  apply train_test_split_spec in H1 as (_ & Hl1 & Hs1 & _).
  apply train_test_split_spec in H2 as (_ & Hl2 & Hs2 & _).
  cbn zeta in *. rewrite ceil_fifth_div in *. rewrite ceil_half_div in *.
  fold n in Hl1, Hs1. fold held in Hl1, Hs1. rewrite Hl1 in *.
  pose proof (Nat.div_mod_eq held 2). pose proof (Nat.mod_upper_bound held 2).
  pose proof (Nat.div_mod_eq (held + 1) 2). pose proof (Nat.mod_upper_bound (held + 1) 2).
  lia.
Qed.

Lemma count_category_le c (df : DataFrame) : count_category c df ≤ length df.
Proof. unfold count_category. apply length_filter. Qed.

Lemma count_category_reset_index c (df : DataFrame) :
  count_category c (reset_index df) = count_category c df.
Proof.
  unfold count_category.
  assert (∀ l : DataFrame, length (filter (λ p, category p.2 = c) l)
                           = length (filter (λ h, category h = c) l.*2)) as Hsnd.
  { induction l as [|p l IH]; [done|]. rewrite fmap_cons, !filter_cons.
    case_decide; cbn [length]; by rewrite IH. }
  by rewrite !Hsnd, reset_index_rows.
Qed.

(** Both stages of the split on a table in which every category has at least
    fifteen rows: none of the categories is lost in any partition. *)
Lemma split_partitions_categories global (df : DataFrame) :
  df ≠ [] →
  (∀ c, c ∈ categories df → 15 ≤ count_category c df) →
  ∃ train valid test,
    split_partitions global df = Ok (train, valid, test) ∧
    ∀ c, c ∈ categories df →
      0 < count_category c train ∧ 0 < count_category c valid ∧
      0 < count_category c test.
Proof.
  intros Hne Hmin.
  destruct (split_partitions_total global df Hne) as (train & valid & test & Hsplit).
  { intros c Hc. specialize (Hmin c Hc). lia. }
  exists train, valid, test. split; [done|].
  revert Hsplit. unfold split_partitions.
  destruct (train_test_split global df _ _ _) as [[tr vt]|] eqn:H1; [|done].
  cbn [mbind result_bind].
  destruct (train_test_split global vt _ _ _) as [[va te]|] eqn:H2; [|done].
  cbn [mbind result_bind]. intros [= -> -> ->].
  apply train_test_split_spec in H1 as (Hp1 & Hl1 & Hs1 & Hpos1 & Hsh1).
  apply train_test_split_spec in H2 as (Hp2 & Hl2 & Hs2 & Hpos2 & Hsh2).
  cbn zeta in *. rewrite ceil_fifth_div in *. rewrite ceil_half_div in *.
  intros c Hc. specialize (Hmin c Hc).
  pose proof (count_category_le c df) as Hle.
  pose proof (count_category_Permutation c _ _ Hp1) as Hc1.
  pose proof (count_category_Permutation c _ _ Hp2) as Hc2.
  rewrite count_category_app in Hc1, Hc2.
  specialize (Hsh1 c). specialize (Hsh2 c).
  set (n := length df) in *. set (m := length vt) in *.
  set (C := count_category c df) in *. set (a := count_category c train) in *.
  set (v := count_category c vt) in *. set (x := count_category c valid) in *.
  set (z := count_category c test) in *.
  set (T := length train) in *. set (L := length valid) in *.
  pose proof (Nat.div_mod_eq (n + 4) 5). pose proof (Nat.mod_upper_bound (n + 4) 5).
  pose proof (Nat.div_mod_eq (m + 1) 2). pose proof (Nat.mod_upper_bound (m + 1) 2).
  assert (15 * T ≤ C * T) as HCT by nia.
  assert (0 < a) as Ha by nia.
  assert (3 ≤ v) as Hv by nia.
  assert (3 * L ≤ v * L) as HvL by nia.
  split_and!; [done|nia|nia].
Qed.

(** X9.  On a table in which every category has at least fifteen rows the
    split goes through, and every category of the table occurs in each of
    the three partitions. *)
Theorem split_keeps_categories (global : RandomState) (df : DataFrame) :
  df ≠ [] →
  (∀ c, c ∈ categories df → 15 ≤ count_category c df) →
  ∃ train valid test,
    split global df = Ok (train, valid, test) ∧
    ∀ c, c ∈ categories df →
      c ∈ categories train ∧ c ∈ categories valid ∧ c ∈ categories test.
Proof.
  intros Hne Hmin.
  destruct (split_partitions_categories global df Hne Hmin)
    as (train & valid & test & Hsplit & Hall).
  exists (reset_index train), (reset_index valid), (reset_index test).
  split; [unfold split; by rewrite Hsplit|].
  intros c Hc. rewrite !elem_of_categories, !count_category_reset_index.
  by apply Hall.
Qed.

End split_more.

(** ** Loaders: the number of batches *)

Lemma length_chunks_go {A} fuel k (l : list A) :
  0 < k → length l ≤ fuel →
  length (chunks_go fuel k l) = (length l + k - 1) / k.
Proof.
  intros Hk. revert l. induction fuel as [|fuel IH]; intros l Hl.
  - destruct l; [|cbn in Hl; lia]. cbn. symmetry. apply Nat.div_small. lia.
  - destruct l as [|x l].
    { cbn. symmetry. apply Nat.div_small. lia. }
    cbn [chunks_go length]. rewrite IH by (rewrite length_drop; cbn in *; lia).
    rewrite length_drop. cbn [length].
    destruct (decide (k ≤ S (length l))) as [Hle|Hgt].
    + replace (S (length l) + k - 1) with (S (length l) - k + k - 1 + 1 * k) by lia.
      rewrite Nat.div_add by lia. lia.
    + replace (S (length l) - k) with 0 by lia.
      rewrite (Nat.div_small (0 + k - 1)) by lia.
      replace (S (length l) + k - 1) with (length l + 1 * k) by lia.
      rewrite Nat.div_add by lia. rewrite Nat.div_small by lia. done.
Qed.

Lemma length_chunks {A} k (l : list A) :
  0 < k → length (chunks k l) = (length l + k - 1) / k.
Proof. intros Hk. by apply length_chunks_go. Qed.

Lemma batches_of_length ds k indices bs n :
  0 < k → indices ≡ₚ seq 0 n → batches_of ds k indices bs →
  length bs = (n + k - 1) / k.
Proof.
  intros Hk Hperm (itemss & Hall & ->).
  rewrite length_fmap, <- (Forall2_length _ _ _ Hall), length_chunks by done.
  apply Permutation_length in Hperm. by rewrite Hperm, length_seq.
Qed.

Lemma count_equal_le pred gold : count_equal pred gold ≤ length gold.
Proof.
  unfold count_equal. etrans; [apply length_filter|].
  rewrite length_zip. lia.
Qed.

(** ** The evaluators and the training loop: what they leave behind *)

Section torch_frames.
Context {torch : Torch}.

Lemma bind_inv {A B} (m : M A) (k : A → M B) w b w' :
  (m ≫= k) w = Ok (b, w') → ∃ a w1, m w = Ok (a, w1) ∧ k a w1 = Ok (b, w').
Proof.
  unfold mbind, M_bind. destruct (m w) as [[a w1]|]; [|done]. eauto.
Qed.

Lemma lift_inv {A} (r : result A) w a w' : lift r w = Ok (a, w') → r = Ok a ∧ w' = w.
Proof. unfold lift. destruct r; [|done]. by intros [= -> ->]. Qed.

(** The part of the world an evaluation leaves alone. *)
Definition untouched (w w' : world) : Prop :=
  model w' = model w ∧ optimizer w' = optimizer w ∧ files w' = files w ∧
  training w' = training w ∧ grad_enabled w' = grad_enabled w.

Lemma untouched_refl w : untouched w w.
Proof. by repeat split. Qed.

Lemma untouched_trans w1 w2 w3 : untouched w1 w2 → untouched w2 w3 → untouched w1 w3.
Proof.
  intros (? & ? & ? & ? & ?) (? & ? & ? & ? & ?). repeat split; congruence.
Qed.

Lemma iterate_untouched loader w bs w' :
  iterate loader w = Ok (bs, w') → untouched w w' ∧ trace w' = trace w.
Proof.
  unfold iterate. destruct (if shuffle loader then _ else _) as [indices g].
  destruct (rmapM _ _); [|done]. intros [= <- <-]. by repeat split.
Qed.

Lemma forward_untouched ids mask w r w' :
  forward ids mask w = Ok (r, w') → untouched w w'.
Proof.
  unfold forward. destruct (net_forward _ _ _ _ _ _) as [[outputs graph] g].
  intros [= <- <-]. by repeat split.
Qed.

Lemma loss_and_accuracy_loop_untouched c bs loss total correct w r w' :
  loss_and_accuracy_loop c bs loss total correct w = Ok (r, w') → untouched w w'.
Proof.
  revert loss total correct w.
  induction bs as [|b bs IH]; intros loss total correct w Hrun.
  - cbn in Hrun. injection Hrun as <- <-. apply untouched_refl.
  - cbn [loss_and_accuracy_loop] in Hrun.
    apply bind_inv in Hrun as ([outputs graph] & w1 & Hfwd & Hrun).
    apply forward_untouched in Hfwd.
    apply bind_inv in Hrun as (l & w2 & Hloss & Hrun).
    unfold apply_criterion in Hloss. injection Hloss as <- <-.
    apply bind_inv in Hrun as (pred & w3 & Hpred & Hrun).
    apply lift_inv in Hpred as [_ ->].
    apply bind_inv in Hrun as (gold & w4 & Hgold & Hrun).
    apply lift_inv in Hgold as [_ ->].
    apply IH in Hrun. eapply untouched_trans; [exact Hfwd|].
    destruct Hrun as (? & ? & ? & ? & ?). by repeat split.
Qed.

Lemma accuracy_loop_untouched bs total correct w r w' :
  accuracy_loop bs total correct w = Ok (r, w') → untouched w w'.
Proof.
  revert total correct w.
  induction bs as [|b bs IH]; intros total correct w Hrun.
  - cbn in Hrun. injection Hrun as <- <-. apply untouched_refl.
  - cbn [accuracy_loop] in Hrun.
    apply bind_inv in Hrun as ([outputs graph] & w1 & Hfwd & Hrun).
    apply forward_untouched in Hfwd.
    apply bind_inv in Hrun as (pred & w3 & Hpred & Hrun).
    apply lift_inv in Hpred as [_ ->].
    apply bind_inv in Hrun as (gold & w4 & Hgold & Hrun).
    apply lift_inv in Hgold as [_ ->].
    apply IH in Hrun. by eapply untouched_trans.
Qed.

(** Whatever the body does, an evaluation that returns has left the model in
    evaluation mode and gradient tracking as it found it. *)
Lemma calculate_loss_and_accuracy_mode c loader w entry w' :
  calculate_loss_and_accuracy c loader w = Ok (entry, w') →
  training w' = false ∧ grad_enabled w' = grad_enabled w ∧
  model w' = model w ∧ optimizer w' = optimizer w ∧ files w' = files w.
Proof.
  unfold calculate_loss_and_accuracy. intros Hrun.
  apply bind_inv in Hrun as ([] & w1 & Hset & Hrun).
  unfold set_training in Hset. injection Hset as <-.
  apply bind_inv in Hrun as (r0 & w2 & Hbody & Hrun).
  destruct r0 as [[loss total] correct].
  apply bind_inv in Hrun as (mean & w3 & Hmean & Hrun).
  apply lift_inv in Hmean as [_ ->].
  apply bind_inv in Hrun as (acc & w4 & Hacc & Hrun).
  apply lift_inv in Hacc as [_ ->].
  unfold mret, M_ret in Hrun. injection Hrun as <- <-.
  unfold no_grad in Hbody.
  apply bind_inv in Hbody as (prev & w5 & Hoff & Hbody).
  unfold set_grad_enabled in Hoff. injection Hoff as <- <-.
  apply bind_inv in Hbody as (r & w6 & Hloop & Hbody).
  apply bind_inv in Hbody as (prev' & w7 & Hon & Hbody).
  unfold set_grad_enabled in Hon. injection Hon as <- <-.
  unfold mret, M_ret in Hbody. injection Hbody as -> <-.
  apply bind_inv in Hloop as (batches & w8 & Hiter & Hloop).
  apply iterate_untouched in Hiter as [(? & ? & ? & ? & ?) _].
  apply loss_and_accuracy_loop_untouched in Hloop as (? & ? & ? & ? & ?).
  cbn in *. repeat split; congruence.
Qed.

Lemma train_batches_mode c bs w w' :
  train_batches c bs w = Ok ((), w') →
  training w' = training w ∧ grad_enabled w' = grad_enabled w.
Proof.
  revert w. induction bs as [|b bs IH]; intros w Hrun.
  - cbn in Hrun. by injection Hrun as <-.
  - cbn [train_batches] in Hrun.
    apply bind_inv in Hrun as ([] & w1 & Hzero & Hrun).
    unfold zero_grad in Hzero. injection Hzero as <-.
    apply bind_inv in Hrun as ([outputs graph] & w2 & Hfwd & Hrun).
    apply forward_untouched in Hfwd as (_ & _ & _ & Htr2 & Hgr2).
    apply bind_inv in Hrun as (l & w3 & Hloss & Hrun).
    unfold apply_criterion in Hloss. injection Hloss as <- <-.
    apply bind_inv in Hrun as ([] & w4 & Hback & Hrun).
    unfold backward in Hback. injection Hback as <-.
    apply bind_inv in Hrun as ([] & w5 & Hstep & Hrun).
    unfold step in Hstep. cbn [optimizer model emit] in Hstep.
    destruct (optim_step _ _) as [o n]. injection Hstep as <-.
    apply IH in Hrun as [Htr Hgr]. cbn in *. split; congruence.
Qed.

Lemma train_epoch_mode dl_train dl_valid c epoch lt lv w r w' :
  train_epoch dl_train dl_valid c epoch lt lv w = Ok (r, w') →
  training w' = false ∧ grad_enabled w' = grad_enabled w.
Proof.
  unfold train_epoch. intros Hrun.
  apply bind_inv in Hrun as ([] & w1 & Hset & Hrun).
  unfold set_training in Hset. injection Hset as <-.
  apply bind_inv in Hrun as (batches & w2 & Hiter & Hrun).
  apply iterate_untouched in Hiter as [(_ & _ & _ & _ & Hgr2) _].
  apply bind_inv in Hrun as ([] & w3 & Htrain & Hrun).
  apply train_batches_mode in Htrain as [_ Hgr3].
  apply bind_inv in Hrun as ([loss_train acc_train] & w4 & Hev1 & Hrun).
  apply calculate_loss_and_accuracy_mode in Hev1 as (_ & Hgr4 & _).
  apply bind_inv in Hrun as ([loss_valid acc_valid] & w5 & Hev2 & Hrun).
  apply calculate_loss_and_accuracy_mode in Hev2 as (Htr5 & Hgr5 & _).
  apply bind_inv in Hrun as ([ms os] & w6 & Hst & Hrun).
  unfold state_dicts in Hst. injection Hst as <- <- <-.
  apply bind_inv in Hrun as ([] & w7 & Hsave & Hrun).
  unfold save in Hsave. injection Hsave as <-.
  unfold mret, M_ret in Hrun. injection Hrun as <- <-.
  cbn in *. split; [done|]. by rewrite Hgr5, Hgr4, Hgr3, Hgr2.
Qed.

Lemma train_epochs_mode dl_train dl_valid c epochs lt lv w r w' :
  train_epochs dl_train dl_valid c epochs lt lv w = Ok (r, w') →
  (epochs ≠ [] → training w' = false) ∧ grad_enabled w' = grad_enabled w.
Proof.
  revert lt lv w. induction epochs as [|epoch epochs IH]; intros lt lv w Hrun.
  - cbn in Hrun. by injection Hrun as <- <-.
  - cbn [train_epochs] in Hrun.
    apply bind_inv in Hrun as ([lt1 lv1] & w1 & Hep & Hrun).
    apply train_epoch_mode in Hep as [Htr1 Hgr1].
    destruct (decide (epochs = [])) as [->|Hne].
    + cbn in Hrun. injection Hrun as <- <-. done.
    + apply IH in Hrun as [Htr Hgr]. split; [auto|congruence].
Qed.
End torch_frames.

Section torch_values.
Context {torch : Torch} {laws : TorchLaws torch}.

(** What one evaluation step finds on a batch with the model [net]: the
    loss of the batch, and the number of its examples whose predicted class
    is the labelled one. *)
Definition evaluates (net : Net) (c : Criterion) (b : batch) (s : Q * nat) : Prop :=
  ∃ g pred gold,
    let outputs := (net_forward net false false g (b_ids b) (b_mask b)).1.1 in
    s.1 = loss_item c outputs (b_labels b) ∧
    argmax_rows outputs = Ok pred ∧
    argmax_rows (b_labels b) = Ok gold ∧
    s.2 = count_equal pred gold.

Lemma loss_and_accuracy_loop_value c bs loss total correct w :
  training w = false → grad_enabled w = false →
  Forall (λ b, Forall (λ r, r ≠ []) (b_labels b)) bs →
  ∃ stats w',
    loss_and_accuracy_loop c bs loss total correct w
    = Ok ((foldl Qplus loss stats.*1,
           total + sum_list ((λ b, length (b_labels b)) <$> bs),
           correct + sum_list stats.*2), w') ∧
    Forall2 (evaluates (model w) c) bs stats ∧
    sum_list stats.*2 ≤ sum_list ((λ b, length (b_labels b)) <$> bs).
Proof.
  intros Htrain Hgrad Hne. revert loss total correct w Htrain Hgrad.
  induction Hne as [|b bs Hb _ IH]; intros loss total correct w Htrain Hgrad.
  - exists [], w. cbn. rewrite !Nat.add_0_r. split_and!; [done|constructor|done].
  - cbn [loss_and_accuracy_loop].
    unfold mbind at 1, M_bind at 1. unfold forward at 1.
    destruct (forward_rows_nonempty (model w) (training w) (grad_enabled w)
                (generator w) (b_ids b) (b_mask b)) as [Hrows _].
    destruct (net_forward (model w) (training w) (grad_enabled w) (generator w)
                (b_ids b) (b_mask b)) as [[outputs graph] g] eqn:Hfwd.
    cbn [fst] in Hrows.
    unfold mbind at 1, M_bind at 1. unfold apply_criterion at 1.
    destruct (argmax_rows_Ok outputs Hrows) as (pred & Hpred & _).
    destruct (argmax_rows_Ok (b_labels b) Hb) as (gold & Hgold & Hlen).
    unfold mbind at 1, M_bind at 1. rewrite (lift_Ok _ _ _ Hpred).
    unfold mbind at 1, M_bind at 1. rewrite (lift_Ok _ _ _ Hgold).
    match goal with |- ∃ _ _, loss_and_accuracy_loop _ _ ?l ?t ?k ?w1 = _ ∧ _ =>
      destruct (IH l t k w1) as (stats & w' & Hrun & Hall & Hle)
    end; [done|done|].
    exists ((loss_item c outputs (b_labels b), count_equal pred gold) :: stats), w'.
    split_and!.
    + rewrite Hrun. cbn [fmap list_fmap fst snd foldl sum_list sum_list_with].
      by rewrite Hlen, !Nat.add_assoc.
    + constructor; [|exact Hall].
      exists (generator w), pred, gold. cbn zeta.
      rewrite Htrain, Hgrad in Hfwd. rewrite Hfwd. done.
    + cbn [fmap list_fmap fst snd sum_list sum_list_with].
      pose proof (count_equal_le pred gold). unfold id in *. lia.
Qed.

(** X10.  What [calculate_loss_and_accuracy] returns on a loader over a
    dataset that is not empty: the sum of the losses of the batches divided
    by the number of batches (a mean over batches, so a short last batch
    weighs as much as a full one), and the number of examples whose
    predicted class is the labelled one divided by the number of examples.
    The number of batches is the number of examples over the batch size,
    rounded up; every batch is evaluated in evaluation mode with gradient
    tracking off. *)
Theorem calculate_loss_and_accuracy_value c loader w :
  loadable (dataset loader) → 0 < batch_size loader → 0 < len (dataset loader) →
  ∃ indices bs stats w',
    calculate_loss_and_accuracy c loader w
    = Ok ((foldl Qplus 0 stats.*1 / inject_Z (Z.of_nat (loader_len loader)),
           Z.of_nat (sum_list stats.*2) # Pos.of_nat (len (dataset loader)))%Q, w') ∧
    indices ≡ₚ seq 0 (len (dataset loader)) ∧
    batches_of (dataset loader) (batch_size loader) indices bs ∧
    length bs = loader_len loader ∧
    Forall2 (evaluates (model w) c) bs stats ∧
    sum_list stats.*2 ≤ len (dataset loader).
Proof.
  intros Hload Hk Hn. unfold calculate_loss_and_accuracy.
  unfold mbind at 1, M_bind at 1. unfold set_training at 1.
  unfold mbind at 1, M_bind at 1. unfold no_grad at 1.
  unfold mbind at 1, M_bind at 1. unfold set_grad_enabled at 1.
  cbn [grad_enabled emit].
  unfold mbind at 1, M_bind at 1. unfold mbind at 1, M_bind at 1.
  match goal with |- context [iterate loader ?w1] =>
    destruct (iterate_spec loader w1 Hload Hk)
      as (indices & bs & w2 & -> & Hperm & _ & _ & Hof & Hsum & Hne
          & _ & Hgr2 & _ & Htr2 & Hmo2 & _)
  end.
  cbn in Hgr2, Htr2, Hmo2.
  destruct (loss_and_accuracy_loop_value c bs 0%Q 0 0 w2 Htr2 Hgr2 Hne)
    as (stats & w3 & -> & Hall & Hle).
  rewrite Hmo2 in Hall. rewrite Hsum in Hle |- *.
  pose proof (batches_of_length _ _ _ _ _ Hk Hperm Hof) as Hlen.
  fold (loader_len loader) in Hlen.
  unfold mbind at 1, M_bind at 1. unfold set_grad_enabled at 1.
  unfold mret at 1, M_ret at 1.
  unfold mbind at 1, M_bind at 1. unfold div_float.
  rewrite decide_False.
  2:{ unfold loader_len. intros Hz.
      assert (batch_size loader ≤ len (dataset loader) + batch_size loader - 1) as Hle' by lia.
      apply (Nat.Div0.div_le_mono _ _ (batch_size loader)) in Hle'.
      rewrite Nat.div_same in Hle' by lia. lia. }
  unfold lift at 1. unfold mbind at 1, M_bind at 1. unfold div_int.
  cbn [Nat.add]. rewrite decide_False by lia.
  unfold lift at 1. unfold mret, M_ret.
  eexists indices, bs, stats, _. split; [reflexivity|]. done.
Qed.

Lemma eval_events_flat_map c bs :
  flat_map (eval_events c) bs
  = flat_map (λ b, [EvForward false (b_ids b) (b_mask b); EvLoss c (b_labels b)]) bs.
Proof. done. Qed.

(** X11.  [calculate_loss_and_accuracy] only looks: it puts the model in
    evaluation mode and leaves it there, runs one forward pass and one loss
    per batch, all with gradient tracking off, and restores gradient tracking
    to what it was; it changes neither the model's parameters nor the
    optimizer, and writes no file. *)
Theorem calculate_loss_and_accuracy_read_only c loader w :
  loadable (dataset loader) → 0 < batch_size loader → 0 < len (dataset loader) →
  ∃ entry bs w',
    calculate_loss_and_accuracy c loader w = Ok (entry, w') ∧
    trace w' = trace w ++ [EvEval]
                 ++ flat_map (λ b, [EvForward false (b_ids b) (b_mask b);
                                    EvLoss c (b_labels b)]) bs ∧
    training w' = false ∧ grad_enabled w' = grad_enabled w ∧
    model w' = model w ∧ optimizer w' = optimizer w ∧ files w' = files w.
Proof.
  intros Hload Hk Hn.
  destruct (calculate_loss_and_accuracy_spec c loader w Hload Hk Hn)
    as (entry & indices & bs & w' & Hrun & _ & _ & _ & _ & Htrace & _).
  destruct (calculate_loss_and_accuracy_mode c loader w entry w' Hrun)
    as (? & ? & ? & ? & ?).
  exists entry, bs, w'. split_and!; done.
Qed.

Lemma accuracy_loop_total bs total correct w :
  Forall (λ b, Forall (λ r, r ≠ []) (b_labels b)) bs →
  ∃ hits w',
    accuracy_loop bs total correct w
    = Ok ((total + sum_list ((λ b, length (b_labels b)) <$> bs), correct + hits), w') ∧
    hits ≤ sum_list ((λ b, length (b_labels b)) <$> bs).
Proof.
  intros Hne. revert total correct w.
  induction Hne as [|b bs Hb _ IH]; intros total correct w.
  - exists 0, w. cbn. by rewrite !Nat.add_0_r.
  - cbn [accuracy_loop].
    unfold mbind at 1, M_bind at 1. unfold forward at 1.
    destruct (forward_rows_nonempty (model w) (training w) (grad_enabled w)
                (generator w) (b_ids b) (b_mask b)) as [Hrows _].
    destruct (net_forward _ _ _ _ _ _) as [[outputs graph] g]. cbn [fst] in Hrows.
    destruct (argmax_rows_Ok outputs Hrows) as (pred & Hpred & _).
    destruct (argmax_rows_Ok (b_labels b) Hb) as (gold & Hgold & Hlen).
    unfold mbind at 1, M_bind at 1. rewrite (lift_Ok _ _ _ Hpred).
    unfold mbind at 1, M_bind at 1. rewrite (lift_Ok _ _ _ Hgold).
    match goal with |- ∃ _ _, accuracy_loop _ ?t ?k ?w1 = _ ∧ _ =>
      destruct (IH t k w1) as (hits & w' & Hrun & Hle)
    end.
    exists (count_equal pred gold + hits), w'. split.
    + rewrite Hrun. cbn [fmap list_fmap sum_list sum_list_with].
      by rewrite Hlen, !Nat.add_assoc.
    + cbn [fmap list_fmap sum_list sum_list_with].
      pose proof (count_equal_le pred gold). unfold id in *. lia.
Qed.

Lemma Qfraction_bounds a b : a ≤ b → 0 < b →
  (0 <= Z.of_nat a # Pos.of_nat b)%Q ∧ (Z.of_nat a # Pos.of_nat b <= 1)%Q.
Proof.
  intros Hle Hpos. unfold Qle. cbn [Qnum Qden].
  assert (Z.pos (Pos.of_nat b) = Z.of_nat b) as ->.
  { rewrite <- positive_nat_Z. f_equal. apply Nat2Pos.id. lia. }
  lia.
Qed.

Lemma calculate_accuracy_total ds w :
  loadable ds → 0 < len ds →
  ∃ hits w',
    calculate_accuracy ds w = Ok ((Z.of_nat hits # Pos.of_nat (len ds))%Q, w') ∧
    hits ≤ len ds.
Proof.
  intros Hload Hn. unfold calculate_accuracy, new_DataLoader.
  rewrite decide_False by lia.
  unfold mbind at 1, M_bind at 1. unfold lift at 1.
  unfold mbind at 1, M_bind at 1. unfold set_training at 1.
  unfold mbind at 1, M_bind at 1. unfold no_grad at 1.
  unfold mbind at 1, M_bind at 1. unfold set_grad_enabled at 1.
  unfold mbind at 1, M_bind at 1. unfold mbind at 1, M_bind at 1.
  match goal with |- context [iterate ?l ?w1] =>
    destruct (iterate_spec l w1 Hload Hn)
      as (indices & bs & w2 & -> & _ & _ & _ & _ & Hsum & Hne & _)
  end.
  cbn [dataset] in Hsum.
  destruct (accuracy_loop_total bs 0 0 w2 Hne) as (hits & w3 & -> & Hle).
  rewrite Hsum in Hle |- *.
  unfold mbind at 1, M_bind at 1. unfold set_grad_enabled at 1.
  unfold mret at 1, M_ret at 1.
  unfold div_int. cbn [Nat.add]. rewrite decide_False by lia.
  unfold lift. by eexists hits, _.
Qed.

End torch_values.

Section torch_edges.
Context {torch : Torch}.

Lemma calculate_accuracy_mode ds w acc w' :
  calculate_accuracy ds w = Ok (acc, w') →
  training w' = false ∧ grad_enabled w' = grad_enabled w ∧
  model w' = model w ∧ optimizer w' = optimizer w ∧ files w' = files w.
Proof.
  unfold calculate_accuracy. intros Hrun.
  apply bind_inv in Hrun as (loader & w0 & Hnew & Hrun).
  apply lift_inv in Hnew as [_ ->].
  apply bind_inv in Hrun as ([] & w1 & Hset & Hrun).
  unfold set_training in Hset. injection Hset as <-.
  apply bind_inv in Hrun as (r0 & w2 & Hbody & Hrun).
  destruct r0 as [total correct].
  apply lift_inv in Hrun as [_ ->].
  unfold no_grad in Hbody.
  apply bind_inv in Hbody as (prev & w5 & Hoff & Hbody).
  unfold set_grad_enabled in Hoff. injection Hoff as <- <-.
  apply bind_inv in Hbody as (r & w6 & Hloop & Hbody).
  apply bind_inv in Hbody as (prev' & w7 & Hon & Hbody).
  unfold set_grad_enabled in Hon. injection Hon as <- <-.
  unfold mret, M_ret in Hbody. injection Hbody as -> <-.
  apply bind_inv in Hloop as (batches & w8 & Hiter & Hloop).
  apply iterate_untouched in Hiter as [(? & ? & ? & ? & ?) _].
  apply accuracy_loop_untouched in Hloop as (? & ? & ? & ? & ?).
  cbn in *. repeat split; congruence.
Qed.

Lemma train_model_mode ds_train ds_valid bsz c N w logs w' :
  train_model ds_train ds_valid bsz c N w = Ok (logs, w') →
  (0 < N → training w' = false) ∧ grad_enabled w' = grad_enabled w.
Proof.
  unfold train_model. intros Hrun.
  apply bind_inv in Hrun as (dl_train & w1 & Hnew1 & Hrun).
  apply lift_inv in Hnew1 as [_ ->].
  apply bind_inv in Hrun as (dl_valid & w2 & Hnew2 & Hrun).
  apply lift_inv in Hnew2 as [_ ->].
  apply bind_inv in Hrun as (r0 & w3 & Hep & Hrun). destruct r0 as [lt lv].
  unfold mret, M_ret in Hrun. injection Hrun as <- <-.
  apply train_epochs_mode in Hep as [Htr Hgr]. split; [|done].
  intros HN. apply Htr. destruct N; [lia|done].
Qed.

(** X12.  On a loader over an empty dataset [calculate_loss_and_accuracy]
    raises [ZeroDivisionError]: no batch is evaluated, and the summed loss is
    divided by the number of batches, which is 0. *)
Theorem calculate_loss_and_accuracy_empty c loader w :
  len (dataset loader) = 0 → shuffle loader = false → 0 < batch_size loader →
  calculate_loss_and_accuracy c loader w = Raise ZeroDivisionError.
Proof.
  intros Hn Hsh Hk. unfold calculate_loss_and_accuracy.
  unfold mbind at 1, M_bind at 1. unfold set_training at 1.
  unfold mbind at 1, M_bind at 1. unfold no_grad at 1.
  unfold mbind at 1, M_bind at 1. unfold set_grad_enabled at 1.
  unfold mbind at 1, M_bind at 1. unfold mbind at 1, M_bind at 1.
  unfold iterate at 1. rewrite Hsh, Hn. cbn [seq chunks chunks_go length rmapM].
  cbn [loss_and_accuracy_loop]. unfold mret at 1, M_ret at 1.
  unfold mbind at 1, M_bind at 1. unfold set_grad_enabled at 1.
  unfold mret at 1, M_ret at 1.
  unfold mbind at 1, M_bind at 1. unfold div_float, loader_len. rewrite Hn.
  rewrite Nat.div_small by lia. done.
Qed.

(** X13.  [train_model] refuses a batch size of 0 and an empty validation
    set, whatever the training set, the criterion and the number of epochs:
    building the loaders raises [ValueError]. *)
Theorem train_model_refuses ds_train ds_valid bsz c N w :
  bsz = 0 ∨ len ds_valid = 0 →
  train_model ds_train ds_valid bsz c N w = Raise ValueError.
Proof.
  intros Hbad. unfold train_model, new_DataLoader.
  destruct (decide (bsz = 0)) as [Hb|Hb]; [done|].
  destruct Hbad as [?|Hv]; [done|]. rewrite Hv. done.
Qed.


End torch_edges.

(** ** The accuracies of the logs *)

Section torch_logs.
Context {torch : Torch}.

(** An entry of a log whose accuracy is a proportion. *)
Definition proportion (entry : Q * Q) : Prop := (0 <= entry.2)%Q ∧ (entry.2 <= 1)%Q.

Lemma loss_and_accuracy_loop_counts c bs loss total correct w loss' total' correct' w' :
  loss_and_accuracy_loop c bs loss total correct w = Ok ((loss', total', correct'), w') →
  correct ≤ total → correct' ≤ total'.
Proof.
  revert loss total correct w.
  induction bs as [|b bs IH]; intros loss total correct w Hrun Hle.
  - cbn in Hrun. injection Hrun as <- <- <- <-. done.
  - cbn [loss_and_accuracy_loop] in Hrun.
    apply bind_inv in Hrun as ([outputs graph] & w1 & Hfwd & Hrun).
    apply bind_inv in Hrun as (l & w2 & Hloss & Hrun).
    apply bind_inv in Hrun as (pred & w3 & Hpred & Hrun).
    apply bind_inv in Hrun as (gold & w4 & Hgold & Hrun).
    apply IH in Hrun; [done|].
    pose proof (count_equal_le pred gold). lia.
Qed.

Lemma calculate_loss_and_accuracy_proportion c loader w entry w' :
  calculate_loss_and_accuracy c loader w = Ok (entry, w') → proportion entry.
Proof.
  unfold calculate_loss_and_accuracy. intros Hrun.
  apply bind_inv in Hrun as ([] & w1 & Hset & Hrun).
  apply bind_inv in Hrun as (r0 & w2 & Hbody & Hrun).
  destruct r0 as [[loss total] correct].
  apply bind_inv in Hrun as (mean & w3 & Hmean & Hrun).
  apply bind_inv in Hrun as (acc & w4 & Hacc & Hrun).
  apply lift_inv in Hacc as [Hacc ->].
  unfold mret, M_ret in Hrun. injection Hrun as <- <-.
  unfold no_grad in Hbody.
  apply bind_inv in Hbody as (prev & w5 & Hoff & Hbody).
  apply bind_inv in Hbody as (r & w6 & Hloop & Hbody).
  apply bind_inv in Hbody as (prev' & w7 & Hon & Hbody).
  unfold mret, M_ret in Hbody. injection Hbody as -> <-.
  apply bind_inv in Hloop as (batches & w8 & Hiter & Hloop).
  apply loss_and_accuracy_loop_counts in Hloop; [|done].
  unfold div_int in Hacc. case_decide as Hz; [done|]. injection Hacc as <-.
  apply Qfraction_bounds; [done|lia].
Qed.

Lemma train_epoch_proportions dl_train dl_valid c epoch lt lv w lt' lv' w' :
  train_epoch dl_train dl_valid c epoch lt lv w = Ok ((lt', lv'), w') →
  Forall proportion lt → Forall proportion lv →
  Forall proportion lt' ∧ Forall proportion lv'.
Proof.
  unfold train_epoch. intros Hrun Hlt Hlv.
  apply bind_inv in Hrun as ([] & w1 & Hset & Hrun).
  apply bind_inv in Hrun as (batches & w2 & Hiter & Hrun).
  apply bind_inv in Hrun as ([] & w3 & Htrain & Hrun).
  apply bind_inv in Hrun as (e1 & w4 & Hev1 & Hrun).
  apply calculate_loss_and_accuracy_proportion in Hev1. destruct e1 as [loss_train acc_train].
  apply bind_inv in Hrun as (e2 & w5 & Hev2 & Hrun).
  apply calculate_loss_and_accuracy_proportion in Hev2. destruct e2 as [loss_valid acc_valid].
  apply bind_inv in Hrun as ([ms os] & w6 & Hst & Hrun).
  apply bind_inv in Hrun as ([] & w7 & Hsave & Hrun).
  unfold mret, M_ret in Hrun. injection Hrun as <- <- <-.
  split; apply Forall_app; (split; [done|by constructor]).
Qed.

Lemma train_epochs_proportions dl_train dl_valid c epochs lt lv w lt' lv' w' :
  train_epochs dl_train dl_valid c epochs lt lv w = Ok ((lt', lv'), w') →
  Forall proportion lt → Forall proportion lv →
  Forall proportion lt' ∧ Forall proportion lv'.
Proof.
  revert lt lv w. induction epochs as [|epoch epochs IH]; intros lt lv w Hrun Hlt Hlv.
  - cbn in Hrun. by injection Hrun as <- <- <-.
  - cbn [train_epochs] in Hrun.
    apply bind_inv in Hrun as ([lt1 lv1] & w1 & Hep & Hrun).
    apply train_epoch_proportions in Hep as [Hlt1 Hlv1]; [|done..].
    by eapply IH.
Qed.

Lemma train_model_proportions ds_train ds_valid bsz c N w logs w' :
  train_model ds_train ds_valid bsz c N w = Ok (logs, w') →
  Forall proportion (log_train logs) ∧ Forall proportion (log_valid logs).
Proof.
  unfold train_model. intros Hrun.
  apply bind_inv in Hrun as (dl_train & w1 & Hnew1 & Hrun).
  apply bind_inv in Hrun as (dl_valid & w2 & Hnew2 & Hrun).
  apply bind_inv in Hrun as (r0 & w3 & Hep & Hrun). destruct r0 as [lt lv].
  unfold mret, M_ret in Hrun. injection Hrun as <- <-. cbn [log_train log_valid].
  by apply train_epochs_proportions in Hep.
Qed.
End torch_logs.


(** ** Counting the events of a run *)

Section torch_training.
Context {torch : Torch} {laws : TorchLaws torch}.

Definition is_step (e : event) : bool :=
  match e with EvStep => true | _ => false end.

Definition is_forward (e : event) : bool :=
  match e with EvForward _ _ _ => true | _ => false end.

(** The number of events of one kind among a list of events. *)
Definition count_events (kind : event → bool) (evs : list event) : nat :=
  sum_list_with (λ e, if kind e then 1 else 0) evs.

Lemma count_events_app kind evs1 evs2 :
  count_events kind (evs1 ++ evs2) = count_events kind evs1 + count_events kind evs2.
Proof. unfold count_events. by rewrite sum_list_with_app. Qed.

Lemma count_events_flat_map {A} kind (f : A → list event) (l : list A) k :
  (∀ x, count_events kind (f x) = k) →
  count_events kind (flat_map f l) = length l * k.
Proof.
  intros Hf. induction l as [|x l IH]; [done|].
  cbn [flat_map length]. rewrite count_events_app, Hf, IH. lia.
Qed.

Lemma count_events_epochs kind (f : nat → epoch_run → list event)
    (runs : list epoch_run) k :
  (∀ i r, r ∈ runs → count_events kind (f i r) = k) →
  count_events kind (concat (imap f runs)) = length runs * k.
Proof.
  revert f. induction runs as [|r runs IH]; intros f Hf; [done|].
  cbn [imap concat length]. rewrite count_events_app, Hf by left.
  rewrite IH; [lia|]. intros i r' Hr'. apply Hf. by right.
Qed.

Lemma shuffled_batches_length loader bs :
  0 < batch_size loader → shuffled_batches loader bs → length bs = loader_len loader.
Proof.
  intros Hk (g & indices & _ & Hperm & Hof). by eapply batches_of_length.
Qed.

Lemma whole_batch ds bs :
  0 < len ds → batches_of ds (len ds) (seq 0 (len ds)) bs →
  ∃ items, rmapM (getitem ds) (seq 0 (len ds)) = Ok items ∧ bs = [stack items].
Proof.
  intros Hn (itemss & Hall & ->).
  assert (seq 0 (len ds) ≠ []) as Hne by (destruct (len ds); [lia|done]).
  pose proof (chunks_whole (seq 0 (len ds)) Hne) as Hch.
  rewrite length_seq in Hch. rewrite Hch in Hall.
  apply Forall2_cons_inv_l in Hall as (items & rest & Hitems & Hrest & ->).
  apply Forall2_nil_inv_l in Hrest as ->. by exists items.
Qed.

(** X15.  The work of a run of [N] epochs: with [B] the number of training
    batches (the number of training examples over the batch size, rounded
    up), the optimizer takes [N * B] steps, and the model runs
    [N * (2 * B + 1)] forward passes: per epoch one per training batch, one
    per batch of the evaluation on the training set, and a single one for the
    whole validation set. *)
Theorem train_model_work ds_train ds_valid bsz c N w :
  loadable ds_train → 0 < len ds_train →
  loadable ds_valid → 0 < len ds_valid → 0 < bsz →
  let B := (len ds_train + bsz - 1) / bsz in
  ∃ logs w' evs,
    train_model ds_train ds_valid bsz c N w = Ok (logs, w') ∧
    trace w' = trace w ++ evs ∧
    count_events is_step evs = N * B ∧
    count_events is_forward evs = N * (2 * B + 1).
Proof.
  intros Hload Hn Hloadv Hnv Hk B.
  destruct (train_model_spec ds_train ds_valid bsz c N w)
    as (logs & runs & w' & Heq & _ & _ & Hlr & Hbs & Htr & _); [done..|].
  eexists logs, w', _. split; [done|]. split; [exact Htr|].
  rewrite Forall_forall in Hbs.
  assert (∀ r, r ∈ runs →
            length (run_train r) = B ∧ length (run_eval r) = B
            ∧ length (run_valid r) = 1) as Hlen.
  { intros r Hr. destruct (Hbs r Hr) as (Htrain & Heval & Hvalid).
    apply shuffled_batches_length in Htrain; [|done].
    apply shuffled_batches_length in Heval; [|done].
    apply whole_batch in Hvalid as (items & _ & ->); [|done]. done. }
  split.
  - rewrite (count_events_epochs _ _ _ B); [lia|].
    intros i r Hr. destruct (Hlen r Hr) as (Ht & He & Hv).
    unfold epoch_events. rewrite !count_events_app.
    rewrite (count_events_flat_map _ (train_events _ _) _ 1) by done.
    rewrite !(count_events_flat_map _ (eval_events _) _ 0) by done.
    rewrite Ht. cbn. lia.
  - rewrite (count_events_epochs _ _ _ (2 * B + 1)); [lia|].
    intros i r Hr. destruct (Hlen r Hr) as (Ht & He & Hv).
    unfold epoch_events. rewrite !count_events_app.
    rewrite (count_events_flat_map _ (train_events _ _) _ 1) by done.
    rewrite !(count_events_flat_map _ (eval_events _) _ 1) by done.
    rewrite Ht, He, Hv. cbn. lia.
Qed.

(** X16.  When [train_model] returns after at least one epoch, the model is
    in evaluation mode, not in training mode: the last thing every epoch
    does to the mode is the [model.eval()] of its evaluations.  Gradient
    tracking is as it was before the call. *)
Theorem train_model_leaves_eval_mode ds_train ds_valid bsz c N w :
  loadable ds_train → 0 < len ds_train →
  loadable ds_valid → 0 < len ds_valid → 0 < bsz → 0 < N →
  ∃ logs w',
    train_model ds_train ds_valid bsz c N w = Ok (logs, w') ∧
    training w' = false ∧ grad_enabled w' = grad_enabled w.
Proof.
  intros Hload Hn Hloadv Hnv Hk HN.
  destruct (train_model_spec ds_train ds_valid bsz c N w)
    as (logs & runs & w' & Heq & _); [done..|].
  destruct (train_model_mode _ _ _ _ _ _ _ _ Heq) as [Htr Hgr].
  exists logs, w'. split_and!; [done|by apply Htr|done].
Qed.

(** X17.  The files of a run of [N] epochs: [train_model] creates or
    overwrites [checkpoint1.pt], ..., [checkpoint<N>.pt] and touches no other
    file. *)
Theorem train_model_files ds_train ds_valid bsz c N w :
  loadable ds_train → 0 < len ds_train →
  loadable ds_valid → 0 < len ds_valid → 0 < bsz →
  ∃ logs w',
    train_model ds_train ds_valid bsz c N w = Ok (logs, w') ∧
    dom (files w')
    = dom (files w) ∪ list_to_set ((λ k, "checkpoint" +:+ pretty k +:+ ".pt")
                                     <$> seq 1 N) ∧
    ∀ f, f ∉ (λ k, "checkpoint" +:+ pretty k +:+ ".pt") <$> seq 1 N →
         files w' !! f = files w !! f.
Proof.
  intros Hload Hn Hloadv Hnv Hk.
  destruct (train_model_spec ds_train ds_valid bsz c N w)
    as (logs & runs & w' & Heq & _ & _ & Hlr & _ & _ & Hsaved & Hother & _); [done..|].
  exists logs, w'. split; [done|].
  assert (∀ f, f ∈ (λ k, "checkpoint" +:+ pretty k +:+ ".pt") <$> seq 1 N
               ↔ ∃ i, i < N ∧ f = checkpoint_file i) as Hnames.
  { intros f. rewrite list_elem_of_fmap. split.
    - intros (k & -> & Hk'). apply elem_of_seq in Hk'. exists (k - 1).
      split; [lia|]. unfold checkpoint_file. by replace (k - 1 + 1) with k by lia.
    - intros (i & Hi & ->). exists (i + 1). split; [done|]. apply elem_of_seq. lia. }
  assert (∀ f, f ∉ (λ k, "checkpoint" +:+ pretty k +:+ ".pt") <$> seq 1 N →
               files w' !! f = files w !! f) as Hframe.
  { intros f Hf. apply Hother. intros i Hi ->. apply Hf, Hnames. by exists i. }
  split; [|done].
  apply set_eq. intros f. rewrite elem_of_union, elem_of_list_to_set, !elem_of_dom.
  destruct (decide (f ∈ (λ k, "checkpoint" +:+ pretty k +:+ ".pt") <$> seq 1 N))
    as [Hin|Hout].
  - split; [by right|]. intros _. apply Hnames in Hin as (i & Hi & ->).
    destruct (lookup_lt_is_Some_2 runs i) as [r Hr]; [lia|].
    rewrite (Hsaved i r Hr). by eexists.
  - rewrite (Hframe f Hout). split; [by left|]. by intros [?|?].
Qed.

(** X18.  Every epoch of [train_model] evaluates the validation set as one
    batch: all its examples, in index order, go through a single forward
    pass with gradient tracking off, followed by a single loss. *)
Theorem train_model_validation_batch ds_train ds_valid bsz c N w :
  loadable ds_train → 0 < len ds_train →
  loadable ds_valid → 0 < len ds_valid → 0 < bsz →
  ∃ logs runs w' items,
    train_model ds_train ds_valid bsz c N w = Ok (logs, w') ∧
    length runs = N ∧
    trace w' = trace w
               ++ concat (imap (λ epoch r, epoch_events (grad_enabled w) c epoch r) runs) ∧
    rmapM (getitem ds_valid) (seq 0 (len ds_valid)) = Ok items ∧
    length items = len ds_valid ∧
    ∀ epoch r, runs !! epoch = Some r →
      run_valid r = [stack items] ∧
      ∃ before,
        epoch_events (grad_enabled w) c epoch r
        = before
            ++ [EvEval;
                EvForward false (ids <$> items) (mask <$> items);
                EvLoss c (labels <$> items);
                EvSave (checkpoint epoch (run_model_state r) (run_optimizer_state r))
                  (checkpoint_file epoch)].
Proof.
  intros Hload Hn Hloadv Hnv Hk.
  destruct (train_model_spec ds_train ds_valid bsz c N w)
    as (logs & runs & w' & Heq & _ & _ & Hlr & Hbs & Htr & _); [done..|].
  destruct (fetch_Ok ds_valid (seq 0 (len ds_valid)) Hloadv)
    as (items & Hitems & _ & Hlen & _).
  { apply Forall_forall. intros i Hi%elem_of_seq. lia. }
  rewrite length_seq in Hlen.
  exists logs, runs, w', items. split_and!; [done..|].
  intros epoch r Hr. rewrite Forall_forall in Hbs.
  destruct (Hbs r) as (_ & _ & Hvalid); [by eapply list_elem_of_lookup_2|].
  cbn [dataset batch_size] in Hvalid.
  apply whole_batch in Hvalid as (items' & Hitems' & Hvalid); [|done].
  assert (items' = items) as -> by congruence.
  split; [done|]. unfold epoch_events. rewrite Hvalid.
  eexists ([EvTrain] ++ flat_map _ (run_train r) ++ [EvEval] ++ flat_map _ (run_eval r)).
  cbn [flat_map eval_events stack b_ids b_mask b_labels app].
  rewrite <- !app_assoc. cbn [app]. reflexivity.
Qed.

(** X19.  On a dataset that is not empty [calculate_accuracy] returns a
    number between 0 and 1; it leaves the model in evaluation mode, restores
    gradient tracking, and changes neither the model's parameters nor the
    optimizer nor any file. *)
Theorem calculate_accuracy_bounds ds w :
  loadable ds → 0 < len ds →
  ∃ acc w',
    calculate_accuracy ds w = Ok (acc, w') ∧
    (0 <= acc)%Q ∧ (acc <= 1)%Q ∧
    training w' = false ∧ grad_enabled w' = grad_enabled w ∧
    model w' = model w ∧ optimizer w' = optimizer w ∧ files w' = files w.
Proof.
  intros Hload Hn.
  destruct (calculate_accuracy_total ds w Hload Hn) as (hits & w' & Hrun & Hle).
  destruct (calculate_accuracy_mode ds w _ w' Hrun) as (? & ? & ? & ? & ?).
  destruct (Qfraction_bounds hits (len ds) Hle Hn) as [? ?].
  eexists _, w'. split_and!; done.
Qed.

(** X20.  Every accuracy that [train_model] logs, for the train set and for
    the valid set, is a number between 0 and 1. *)
Theorem train_model_log_accuracies ds_train ds_valid bsz c N w :
  loadable ds_train → 0 < len ds_train →
  loadable ds_valid → 0 < len ds_valid → 0 < bsz →
  ∃ logs w',
    train_model ds_train ds_valid bsz c N w = Ok (logs, w') ∧
    Forall (λ entry, (0 <= entry.2)%Q ∧ (entry.2 <= 1)%Q) (log_train logs) ∧
    Forall (λ entry, (0 <= entry.2)%Q ∧ (entry.2 <= 1)%Q) (log_valid logs).
Proof.
  intros Hload Hn Hloadv Hnv Hk.
  destruct (train_model_spec ds_train ds_valid bsz c N w)
    as (logs & runs & w' & Heq & _); [done..|].
  destruct (train_model_proportions _ _ _ _ _ _ _ _ Heq) as [Ht Hv].
  exists logs, w'. split_and!; done.
Qed.

End torch_training.

(** ** The two evaluators *)

Section evaluators_agree.
Context {torch : Torch} {laws : TorchLaws torch}.

(** X21.  The two evaluators agree: from the same state of the model and of
    the random generator, [calculate_accuracy] on a dataset returns the
    accuracy that [calculate_loss_and_accuracy] returns on the loader that
    serves the whole dataset as one batch, in order (the loader [train_model]
    builds for the validation set). *)
Theorem calculate_accuracy_agrees c ds w :
  loadable ds → 0 < len ds →
  ∃ loss acc w1 w2,
    calculate_loss_and_accuracy c
      {| dataset := ds; batch_size := len ds; shuffle := false |} w
    = Ok ((loss, acc), w1) ∧
    calculate_accuracy ds w = Ok (acc, w2).
Proof.
  intros Hload Hn.
  assert (seq 0 (len ds) ≠ []) as Hne by (destruct (len ds); [lia|done]).
  destruct (fetch_Ok ds (seq 0 (len ds)) Hload) as (items & Hitems & Hfetch & Hlen & Hlab).
  { apply Forall_forall. intros i Hi%elem_of_seq. lia. }
  rewrite length_seq in Hlen.
  destruct (forward_rows_nonempty (model w) false false (generator w)
              (ids <$> items) (mask <$> items)) as [Hrows _].
  destruct (net_forward (model w) false false (generator w) (ids <$> items)
              (mask <$> items)) as [[outputs graph] g] eqn:Hfwd.
  cbn [fst] in Hrows.
  destruct (argmax_rows_Ok outputs Hrows) as (pred & Hpred & _).
  destruct (argmax_rows_Ok (labels <$> items)) as (gold & Hgold & Hglen).
  { by apply Forall_fmap. }
  rewrite length_fmap in Hglen.
  pose proof (chunks_whole (seq 0 (len ds)) Hne) as Hch.
  rewrite length_seq in Hch.
  eexists _, (Z.of_nat (count_equal pred gold) # Pos.of_nat (len ds))%Q, _, _. split.
  - unfold calculate_loss_and_accuracy.
    unfold mbind at 1, M_bind at 1. unfold set_training at 1.
    unfold mbind at 1, M_bind at 1. unfold no_grad at 1.
    unfold mbind at 1, M_bind at 1. unfold set_grad_enabled at 1.
    unfold mbind at 1, M_bind at 1. unfold mbind at 1, M_bind at 1.
    unfold iterate at 1. cbn [shuffle dataset batch_size generator emit].
    rewrite Hch. cbn [rmapM]. rewrite Hfetch.
    cbn [loss_and_accuracy_loop].
    unfold mbind at 1, M_bind at 1. unfold forward at 1.
    cbn [model training grad_enabled generator emit stack b_ids b_mask b_labels].
    rewrite Hfwd.
    unfold mbind at 1, M_bind at 1. unfold apply_criterion at 1.
    unfold mbind at 1, M_bind at 1. rewrite (lift_Ok _ _ _ Hpred).
    unfold mbind at 1, M_bind at 1. rewrite (lift_Ok _ _ _ Hgold).
    unfold mret at 1, M_ret at 1.
    unfold mbind at 1, M_bind at 1. unfold set_grad_enabled at 1.
    unfold mret at 1, M_ret at 1.
    unfold mbind at 1, M_bind at 1. unfold div_float, loader_len.
    cbn [dataset batch_size].
    replace ((len ds + len ds - 1) / len ds) with 1.
    2:{ symmetry. replace (len ds + len ds - 1) with (len ds - 1 + 1 * len ds) by lia.
        rewrite Nat.div_add by lia. rewrite Nat.div_small by lia. done. }
    rewrite decide_False by lia.
    unfold lift at 1. unfold mbind at 1, M_bind at 1. unfold div_int.
    rewrite Hglen, Hlen. cbn [Nat.add]. rewrite decide_False by lia.
    unfold lift at 1. unfold mret, M_ret. reflexivity.
  - unfold calculate_accuracy, new_DataLoader. rewrite decide_False by lia.
    unfold mbind at 1, M_bind at 1. unfold lift at 1.
    unfold mbind at 1, M_bind at 1. unfold set_training at 1.
    unfold mbind at 1, M_bind at 1. unfold no_grad at 1.
    unfold mbind at 1, M_bind at 1. unfold set_grad_enabled at 1.
    unfold mbind at 1, M_bind at 1. unfold mbind at 1, M_bind at 1.
    unfold iterate at 1. cbn [shuffle dataset batch_size generator emit].
    rewrite Hch. cbn [rmapM]. rewrite Hfetch.
    cbn [accuracy_loop].
    unfold mbind at 1, M_bind at 1. unfold forward at 1.
    cbn [model training grad_enabled generator emit stack b_ids b_mask b_labels].
    rewrite Hfwd.
    unfold mbind at 1, M_bind at 1. rewrite (lift_Ok _ _ _ Hpred).
    unfold mbind at 1, M_bind at 1. rewrite (lift_Ok _ _ _ Hgold).
    unfold mret at 1, M_ret at 1.
    unfold mbind at 1, M_bind at 1. unfold set_grad_enabled at 1.
    unfold mret at 1, M_ret at 1.
    unfold div_int. rewrite Hglen, Hlen. cbn [Nat.add]. rewrite decide_False by lia.
    unfold lift. reflexivity.
Qed.

End evaluators_agree.

(** ** The script as a whole *)

Lemma labelled_by_classes_reset_index (part : DataFrame) :
  labelled_by_classes (reset_index part) ↔ labelled_by_classes part.
Proof.
  unfold labelled_by_classes.
  assert ((λ p : nat * headline, category p.2) <$> reset_index part
          = (λ p : nat * headline, category p.2) <$> part) as ->; [|done].
  apply list_eq. intros i. unfold reset_index.
  rewrite !list_lookup_fmap, list_lookup_imap. by destruct (part !! i).
Qed.

Lemma categories_fmap (df : DataFrame) :
  categories df = (λ p : nat * headline, category p.2) <$> df.
Proof. unfold categories, col_CATEGORY. by rewrite <- list_fmap_compose. Qed.

Section script_more.
Context {np : Numpy} {np_laws : NumpyLaws np}.
Context {torch : Torch} {torch_laws : TorchLaws torch}.

(** X22.  If no line of the file is from one of the five publishers, the
    table is empty and the script stops with the [ValueError] of the split. *)
Theorem main_no_publisher (lines : list news) (tokenizer : BertTokenizer)
    (global : RandomState) (g : Generator) :
  Forall (λ r, PUBLISHER r ∉ publishers) lines →
  main lines tokenizer global g = Raise ValueError.
Proof.
  intros Hnone. unfold main.
  assert (extract (read_csv lines) = []) as ->; [|done].
  unfold extract. rewrite filter_none; [done|].
  apply Forall_forall. intros [i r] Hin. cbn.
  apply list_elem_of_lookup in Hin as [k Hk]. unfold read_csv in Hk.
  rewrite list_lookup_imap in Hk. apply fmap_Some in Hk as (r' & Hr' & [= -> ->]).
  rewrite Forall_forall in Hnone. apply Hnone. by eapply list_elem_of_lookup_2.
Qed.

Lemma fine_tune_total (tokenizer : BertTokenizer) (g : Generator)
    (train valid test : DataFrame) (y_train y_valid y_test : list (list Z)) :
  train ≠ [] → valid ≠ [] → test ≠ [] →
  train.*1 = seq 0 (length train) →
  valid.*1 = seq 0 (length valid) →
  test.*1 = seq 0 (length test) →
  encodes train y_train → encodes valid y_valid → encodes test y_test →
  ∃ report w',
    fine_tune tokenizer g train valid test y_train y_valid y_test = Ok (report, w') ∧
    length (log_train (log report)) = NUM_EPOCHS ∧
    length (log_valid (log report)) = NUM_EPOCHS ∧
    Forall (λ acc, (0 <= acc)%Q ∧ (acc <= 1)%Q)
      [accuracy_train report; accuracy_valid report; accuracy_test report] ∧
    training w' = false.
Proof.
  intros Hne1 Hne2 Hne3 Hi1 Hi2 Hi3 He1 He2 He3.
  unfold fine_tune, datasets.
  set (ds_train := {| X := slice_to 1000 (col_TITLE train); y := slice_to 1000 y_train;
                      tokenizer := tokenizer; max_len := 20 |}).
  set (ds_valid := {| X := slice_to 300 (col_TITLE valid); y := slice_to 300 y_valid;
                      tokenizer := tokenizer; max_len := 20 |}).
  set (ds_test := {| X := slice_to 300 (col_TITLE test); y := slice_to 300 y_test;
                     tokenizer := tokenizer; max_len := 20 |}).
  assert (loadable ds_train) as Hl1 by by apply adapter_loadable.
  assert (loadable ds_valid) as Hl2 by by apply adapter_loadable.
  assert (loadable ds_test) as Hl3 by by apply adapter_loadable.
  assert (∀ k (part : DataFrame) (labels : list (list Z)),
            0 < k → part ≠ [] → encodes part labels →
            0 < length (slice_to k labels)) as Hpos.
  { intros k part labels Hk Hne [Hlen _]. unfold slice_to. rewrite length_take, Hlen.
    destruct part; [done|]. cbn. lia. }
  assert (0 < len ds_train) as Hn1 by (apply (Hpos 1000 train); [lia|done..]).
  assert (0 < len ds_valid) as Hn2 by (apply (Hpos 300 valid); [lia|done..]).
  assert (0 < len ds_test) as Hn3 by (apply (Hpos 300 test); [lia|done..]).
  destruct (getitem_Ok ds_train 0 Hl1 Hn1) as (it & row & -> & _).
  cbn [mbind result_bind]. unfold train_and_report.
  destruct (train_model_spec ds_train ds_valid BATCH_SIZE BCEWithLogitsLoss NUM_EPOCHS
              (initial_world g)) as (logs & runs & w1 & Hrun & Hlt & Hlv & _);
    [done..|unfold BATCH_SIZE; lia|].
  rewrite (bind_Ok _ _ _ _ _ Hrun).
  destruct (calculate_accuracy_total ds_train w1 Hl1 Hn1) as (h1 & w2 & Ha1 & Hle1).
  rewrite (bind_Ok _ _ _ _ _ Ha1).
  destruct (calculate_accuracy_total ds_valid w2 Hl2 Hn2) as (h2 & w3 & Ha2 & Hle2).
  rewrite (bind_Ok _ _ _ _ _ Ha2).
  destruct (calculate_accuracy_total ds_test w3 Hl3 Hn3) as (h3 & w4 & Ha3 & Hle3).
  rewrite (bind_Ok _ _ _ _ _ Ha3).
  unfold mret, M_ret. eexists _, w4. split; [reflexivity|].
  cbn [log accuracy_train accuracy_valid accuracy_test].
  split_and!; [done|done| |].
  - repeat constructor; by apply Qfraction_bounds.
  - by destruct (calculate_accuracy_mode _ _ _ _ Ha3) as [? _].
Qed.

(** X23.  The script runs to its end on every corpus whose filtered table
    holds headlines of the four categories b, e, t and m only, at least
    fifteen of each: the split goes through and leaves every category in
    every partition, the label encoder finds its four columns, every example
    loads, and training and evaluation return.  The report has one log entry
    per epoch for the train set and for the valid set, and three accuracies
    between 0 and 1; the model is left in evaluation mode. *)
Theorem main_runs (lines : list news) (tokenizer : BertTokenizer)
    (global : RandomState) (g : Generator) :
  let df := extract (read_csv lines) in
  labelled_by_classes df →
  Forall (λ c, 15 ≤ count_category c df) classes →
  ∃ report w',
    main lines tokenizer global g = Ok (report, w') ∧
    length (log_train (log report)) = 4 ∧
    length (log_valid (log report)) = 4 ∧
    Forall (λ acc, (0 <= acc)%Q ∧ (acc <= 1)%Q)
      [accuracy_train report; accuracy_valid report; accuracy_test report] ∧
    training w' = false.
Proof.
  intros df Hcl Hmin. rewrite Forall_forall in Hmin.
  assert (∀ c, c ∈ categories df ↔ c ∈ classes) as Hcat.
  { intros c. rewrite categories_fmap. symmetry. apply Hcl. }
  assert (df ≠ []) as Hne.
  { intros Hnil. assert ("b" ∈ categories df) as Hb by (apply Hcat; by_decide).
    rewrite Hnil in Hb. by apply elem_of_nil in Hb. }
  destruct (split_partitions_categories global df Hne)
    as (tr & va & te & Hsplit & Hall).
  { intros c Hc. apply Hmin. by apply Hcat. }
  destruct (split_partitions_spec global df tr va te) as (Hperm & _);
    [apply extract_NoDup|done|].
  assert (∀ part, part ⊆ df → (∀ c, c ∈ categories df → 0 < count_category c part) →
            part ≠ [] ∧ labelled_by_classes (reset_index part)) as Hpart.
  { intros part Hsub Hocc. split.
    - intros ->. specialize (Hocc "b"). cbn in Hocc.
      assert ("b" ∈ categories df) as Hb by (apply Hcat; by_decide).
      specialize (Hocc Hb). lia.
    - apply labelled_by_classes_reset_index. intros c.
      rewrite <- categories_fmap. split.
      + intros Hc. apply elem_of_categories, Hocc. by apply Hcat.
      + intros Hc. apply Hcat. rewrite categories_fmap in Hc |- *.
        apply list_elem_of_fmap in Hc as (p & -> & Hp).
        apply list_elem_of_fmap. exists p. split; [done|]. by apply Hsub. }
  destruct (Hpart tr) as [Hne1 Hcl1].
  { intros p Hp. rewrite <- Hperm. apply elem_of_app. by left. }
  { intros c Hc. by apply Hall. }
  destruct (Hpart va) as [Hne2 Hcl2].
  { intros p Hp. rewrite <- Hperm. rewrite !elem_of_app. right. by left. }
  { intros c Hc. by apply Hall. }
  destruct (Hpart te) as [Hne3 Hcl3].
  { intros p Hp. rewrite <- Hperm. rewrite !elem_of_app. right. by right. }
  { intros c Hc. by apply Hall. }
  assert (∀ part, labelled_by_classes part →
            encodes part (values (length part) (indicator part <$> classes))) as Henc.
  { intros part Hp. apply values_encodes. intros p Hin. apply Hp.
    apply list_elem_of_fmap. eauto. }
  assert (∀ part : DataFrame, part ≠ [] → reset_index part ≠ []) as Hreset.
  { intros part Hp Hnil. apply (f_equal length) in Hnil.
    rewrite length_reset_index in Hnil. by destruct part. }
  assert (∀ part : DataFrame,
            (reset_index part).*1 = seq 0 (length (reset_index part))) as Hlabels.
  { intros part. by rewrite reset_index_labels, length_reset_index. }
  destruct (fine_tune_total tokenizer g (reset_index tr) (reset_index va) (reset_index te)
              _ _ _ (Hreset _ Hne1) (Hreset _ Hne2) (Hreset _ Hne3)
              (Hlabels _) (Hlabels _) (Hlabels _)
              (Henc _ Hcl1) (Henc _ Hcl2) (Henc _ Hcl3))
    as (report & w' & Hrun & Hrest).
  exists report, w'. split; [|exact Hrest].
  unfold main. fold df. unfold split. rewrite Hsplit. cbn [mbind result_bind].
  unfold one_hot_labels. rewrite !label_encoder_complete by done.
  cbn [mbind result_bind]. exact Hrun.
Qed.

(** X24.  If the split leaves one of the three partitions without a headline
    of one of the four categories, the script stops with the [KeyError] of
    the label encoder. *)
Theorem main_missing_class (lines : list news) (tokenizer : BertTokenizer)
    (global : RandomState) (g : Generator) (train valid test : DataFrame) :
  split global (extract (read_csv lines)) = Ok (train, valid, test) →
  Exists (λ part, ¬ Forall (λ c, c ∈ categories part) classes) [train; valid; test] →
  main lines tokenizer global g = Raise KeyError.
Proof.
  intros Hsplit Hmiss. unfold main. rewrite Hsplit. cbn [mbind result_bind].
  assert (∀ part, label_encoder part = Raise KeyError
                  ∨ ∃ m, label_encoder part = Ok m) as Hcases.
  { intros part. destruct (label_encoder part) as [m|e] eqn:Hm; [by eauto|].
    destruct (label_encoder_cases part) as [Hok Hraise].
    destruct (decide (Forall (λ c, c ∈ (λ p, category p.2) <$> part) classes)).
    - rewrite Hok in Hm by done. done.
    - rewrite Hraise in Hm by done. left. congruence. }
  assert (∀ part, ¬ Forall (λ c, c ∈ categories part) classes →
                  label_encoder part = Raise KeyError) as Hraise.
  { intros part Hnot. apply label_encoder_cases. by rewrite <- categories_fmap. }
  unfold one_hot_labels.
  destruct (Hcases train) as [->|[m1 Hm1]]; [done|].
  destruct (Hcases valid) as [->|[m2 Hm2]]; [by rewrite Hm1|].
  destruct (Hcases test) as [->|[m3 Hm3]]; [by rewrite Hm1, Hm2|].
  exfalso. rewrite !Exists_cons, Exists_nil in Hmiss.
  destruct Hmiss as [H|[H|[H|[]]]]; apply Hraise in H; congruence.
Qed.

End script_more.

(** ** The further properties at work *)

Lemma getitem_truncation_witness :
  ∃ it, getitem sample_dataset 1 = Ok it ∧ length (ids it) = 20.
Proof.
  destruct (getitem_truncation sample_dataset 1 "Film tops box office")
    as (it & Hit & Hids & _); [by_decide|reflexivity|by_decide|].
  exists it. split; [exact Hit|]. rewrite Hids. reflexivity.
Defined.

Lemma label_row_decodes_witness :
  ∃ row,
    [[1; 0; 0; 0]; [0; 1; 0; 0]; [0; 0; 1; 0]; [0; 0; 0; 1]; [0; 0; 0; 0]]%Z !! 2 = Some row ∧
    (∀ k, classes !! k = Some "t" →
       one_hot_at k row ∧ argmax (inject_Z <$> row) = Ok k) ∧
    ("t" ∉ classes → row = [0; 0; 0; 0]%Z ∧ argmax (inject_Z <$> row) = Ok 0).
Proof.
  apply (label_row_decodes
           (four_class_partition
              ++ [(4, {| title := "Cup final tonight"; category := "s" |})])
           _ 2 (2, {| title := "New phone unveiled"; category := "t" |}));
    reflexivity.
Defined.

Lemma split_refuses_witness :
  split (np := plain_numpy) 0%Z
    [(0, {| title := "Fed holds rates"; category := "b" |})]
  = Raise ValueError.
Proof.
  apply (split_refuses (np := plain_numpy)). right. left. by exists "b".
Defined.

Lemma split_outcome_witness :
  let df := extract (read_csv sample_corpus) in
  split (np := plain_numpy) 0%Z df = Raise ValueError
  ∨ ∃ train valid test, split (np := plain_numpy) 0%Z df = Ok (train, valid, test).
Proof. exact (split_outcome (np := plain_numpy) 0%Z (extract (read_csv sample_corpus))). Defined.

Lemma split_sizes_witness :
  let df := extract (read_csv sample_corpus) in
  ∃ train valid test,
    split (np := plain_numpy) 0%Z df = Ok (train, valid, test) ∧
    length train = 32 ∧ length valid = 4 ∧ length test = 4.
Proof.
  intros df.
  assert (∃ train valid test, split (np := plain_numpy) 0%Z df = Ok (train, valid, test))
    as (train & valid & test & Hsplit).
  { eexists _, _, _. vm_compute. reflexivity. }
  destruct (split_sizes (np := plain_numpy) 0%Z df train valid test Hsplit)
    as (Htrain & Hvalid & Htest & _).
  exists train, valid, test. split; [exact Hsplit|].
  split; [exact Htrain|]. split; [exact Hvalid|exact Htest].
Defined.

(** A corpus of sixty lines from the listed publishers, fifteen headlines
    per category. *)
Definition large_corpus : list news :=
  concat (replicate 15
    [sample_line "Reuters" "b"; sample_line "Daily Mail" "e";
     sample_line "Businessweek" "t"; sample_line "Huffington Post" "m"]).

Lemma large_corpus_not_empty : extract (read_csv large_corpus) ≠ [].
Proof. by_decide. Qed.

Lemma large_corpus_counts :
  Forall (λ c, 15 ≤ count_category c (extract (read_csv large_corpus))) classes.
Proof. by_decide. Qed.

Lemma large_corpus_categories c :
  c ∈ categories (extract (read_csv large_corpus)) →
  15 ≤ count_category c (extract (read_csv large_corpus)).
Proof.
  intros Hc. pose proof large_corpus_counts as Hall. rewrite Forall_forall in Hall.
  apply Hall. revert Hc. generalize c. apply Forall_forall. by_decide.
Qed.

Lemma split_keeps_categories_witness :
  let df := extract (read_csv large_corpus) in
  ∃ train valid test,
    split (np := plain_numpy) 0%Z df = Ok (train, valid, test) ∧
    ∀ c, c ∈ categories df →
      c ∈ categories train ∧ c ∈ categories valid ∧ c ∈ categories test.
Proof.
  exact (split_keeps_categories (np := plain_numpy) 0%Z (extract (read_csv large_corpus))
           large_corpus_not_empty large_corpus_categories).
Defined.

Lemma train_model_refuses_witness :
  train_model (torch := constant_torch) sample_dataset sample_dataset 0
    BCEWithLogitsLoss 4 sample_world
  = Raise ValueError.
Proof.
  apply (train_model_refuses (torch := constant_torch)). by left.
Defined.


Lemma train_model_work_witness :
  ∃ logs w' evs,
    train_model (torch := constant_torch) sample_dataset sample_dataset 3
      BCEWithLogitsLoss 2 sample_world = Ok (logs, w') ∧
    trace w' = trace sample_world ++ evs ∧
    count_events is_step evs = 4 ∧
    count_events is_forward evs = 10.
Proof.
  exact (train_model_work (torch := constant_torch) sample_dataset sample_dataset 3
           BCEWithLogitsLoss 2 sample_world
           sample_dataset_loadable sample_dataset_nonempty
           sample_dataset_loadable sample_dataset_nonempty (Nat.lt_0_succ 2)).
Defined.

Lemma train_model_leaves_eval_mode_witness :
  ∃ logs w',
    train_model (torch := constant_torch) sample_dataset sample_dataset 3
      BCEWithLogitsLoss 2 sample_world = Ok (logs, w') ∧
    training w' = false ∧ grad_enabled w' = true.
Proof.
  exact (train_model_leaves_eval_mode (torch := constant_torch) sample_dataset
           sample_dataset 3 BCEWithLogitsLoss 2 sample_world
           sample_dataset_loadable sample_dataset_nonempty
           sample_dataset_loadable sample_dataset_nonempty
           (Nat.lt_0_succ 2) (Nat.lt_0_succ 1)).
Defined.

Lemma train_model_files_witness :
  ∃ logs w',
    train_model (torch := constant_torch) sample_dataset sample_dataset 3
      BCEWithLogitsLoss 2 sample_world = Ok (logs, w') ∧
    dom (files w') = ({["checkpoint1.pt"; "checkpoint2.pt"]} : gset string).
Proof.
  pose proof (train_model_files (torch := constant_torch) sample_dataset
                sample_dataset 3 BCEWithLogitsLoss 2 sample_world
                sample_dataset_loadable sample_dataset_nonempty
                sample_dataset_loadable sample_dataset_nonempty
                (Nat.lt_0_succ 2)) as (logs & w' & Heq & Hdom & _).
  exists logs, w'. split; [exact Heq|]. rewrite Hdom.
  apply (bool_decide_unpack _). vm_compute. exact I.
Defined.

Lemma train_model_validation_batch_witness :
  ∃ logs (runs : list (@epoch_run constant_torch)) w' items,
    train_model (torch := constant_torch) sample_dataset sample_dataset 3
      BCEWithLogitsLoss 2 sample_world = Ok (logs, w') ∧
    length runs = 2 ∧
    length items = 4 ∧
    ∀ epoch r, runs !! epoch = Some r → run_valid r = [stack items].
Proof.
  pose proof (train_model_validation_batch (torch := constant_torch) sample_dataset
                sample_dataset 3 BCEWithLogitsLoss 2 sample_world
                sample_dataset_loadable sample_dataset_nonempty
                sample_dataset_loadable sample_dataset_nonempty
                (Nat.lt_0_succ 2))
    as (logs & runs & w' & items & Heq & Hlen & _ & _ & Hitems & Hruns).
  exists logs, runs, w', items. split; [exact Heq|]. split; [exact Hlen|].
  split; [exact Hitems|]. intros epoch r Hr. exact (proj1 (Hruns epoch r Hr)).
Defined.

(** A loader that serves the four sample headlines in batches of three. *)
Definition sample_loader : DataLoader :=
  {| dataset := sample_dataset; batch_size := 3; shuffle := false |}.

Lemma calculate_loss_and_accuracy_value_witness :
  ∃ indices bs stats w',
    calculate_loss_and_accuracy (torch := constant_torch) BCEWithLogitsLoss
      sample_loader sample_world
    = Ok ((foldl Qplus 0 stats.*1 / inject_Z (Z.of_nat (loader_len sample_loader)),
           Z.of_nat (sum_list stats.*2) # Pos.of_nat (len sample_dataset))%Q, w') ∧
    indices ≡ₚ seq 0 (len sample_dataset) ∧
    batches_of sample_dataset 3 indices bs ∧
    length bs = loader_len sample_loader ∧
    Forall2 (evaluates (model sample_world) BCEWithLogitsLoss) bs stats ∧
    sum_list stats.*2 ≤ len sample_dataset.
Proof.
  exact (calculate_loss_and_accuracy_value (torch := constant_torch) BCEWithLogitsLoss
           sample_loader sample_world
           sample_dataset_loadable (Nat.lt_0_succ 2) sample_dataset_nonempty).
Defined.

Lemma calculate_loss_and_accuracy_read_only_witness :
  ∃ entry bs w',
    calculate_loss_and_accuracy (torch := constant_torch) BCEWithLogitsLoss
      sample_loader sample_world = Ok (entry, w') ∧
    trace w' = trace sample_world ++ [EvEval]
                 ++ flat_map (λ b, [EvForward false (b_ids b) (b_mask b);
                                    EvLoss BCEWithLogitsLoss (b_labels b)]) bs ∧
    training w' = false ∧ grad_enabled w' = grad_enabled sample_world ∧
    model w' = model sample_world ∧ optimizer w' = optimizer sample_world ∧
    files w' = files sample_world.
Proof.
  exact (calculate_loss_and_accuracy_read_only (torch := constant_torch)
           BCEWithLogitsLoss sample_loader sample_world
           sample_dataset_loadable (Nat.lt_0_succ 2) sample_dataset_nonempty).
Defined.

Lemma calculate_loss_and_accuracy_empty_witness :
  calculate_loss_and_accuracy (torch := constant_torch) BCEWithLogitsLoss
    {| dataset := {| X := []; y := []; tokenizer := plain_tokenizer; max_len := 20 |};
       batch_size := 4; shuffle := false |}
    sample_world
  = Raise ZeroDivisionError.
Proof.
  apply (calculate_loss_and_accuracy_empty (torch := constant_torch));
    [reflexivity|reflexivity|exact (Nat.lt_0_succ 3)].
Defined.

Lemma calculate_accuracy_bounds_witness :
  ∃ acc w',
    calculate_accuracy (torch := constant_torch) sample_dataset sample_world
    = Ok (acc, w') ∧
    (0 <= acc)%Q ∧ (acc <= 1)%Q ∧
    training w' = false ∧ grad_enabled w' = grad_enabled sample_world ∧
    model w' = model sample_world ∧ optimizer w' = optimizer sample_world ∧
    files w' = files sample_world.
Proof.
  exact (calculate_accuracy_bounds (torch := constant_torch) sample_dataset sample_world
           sample_dataset_loadable sample_dataset_nonempty).
Defined.

Lemma large_corpus_labelled : labelled_by_classes (extract (read_csv large_corpus)).
Proof. by_decide. Qed.

Lemma main_runs_witness :
  ∃ report w',
    main (np := plain_numpy) (torch := constant_torch) large_corpus plain_tokenizer
      0%Z 0 = Ok (report, w') ∧
    length (log_train (log report)) = 4 ∧
    length (log_valid (log report)) = 4 ∧
    Forall (λ acc, (0 <= acc)%Q ∧ (acc <= 1)%Q)
      [accuracy_train report; accuracy_valid report; accuracy_test report] ∧
    training w' = false.
Proof.
  exact (main_runs (np := plain_numpy) (torch := constant_torch) large_corpus
           plain_tokenizer 0%Z 0 large_corpus_labelled large_corpus_counts).
Defined.

Lemma main_no_publisher_witness :
  main (np := plain_numpy) (torch := constant_torch)
    [sample_line "Los Angeles Times" "b"; sample_line "Los Angeles Times" "e"]
    plain_tokenizer 0%Z 0
  = Raise ValueError.
Proof.
  apply (main_no_publisher (np := plain_numpy) (torch := constant_torch)). by_decide.
Defined.

(** A corpus of thirty lines without a health headline. *)
Definition three_class_corpus : list news :=
  concat (replicate 10
    [sample_line "Reuters" "b"; sample_line "Daily Mail" "e";
     sample_line "Businessweek" "t"]).

Lemma main_missing_class_witness :
  main (np := plain_numpy) (torch := constant_torch) three_class_corpus
    plain_tokenizer 0%Z 0
  = Raise KeyError.
Proof.
  assert (∃ train valid test,
            split (np := plain_numpy) 0%Z (extract (read_csv three_class_corpus))
            = Ok (train, valid, test)
            ∧ Exists (λ part, ¬ Forall (λ c, c ∈ categories part) classes)
                [train; valid; test])
    as (train & valid & test & Hsplit & Hmiss).
  { eexists _, _, _. split; [vm_compute; reflexivity|]. by_decide. }
  exact (main_missing_class (np := plain_numpy) (torch := constant_torch)
           three_class_corpus plain_tokenizer 0%Z 0 train valid test Hsplit Hmiss).
Defined.

Lemma train_model_log_accuracies_witness :
  ∃ logs w',
    train_model (torch := constant_torch) sample_dataset sample_dataset 3
      BCEWithLogitsLoss 2 sample_world = Ok (logs, w') ∧
    Forall (λ entry, (0 <= entry.2)%Q ∧ (entry.2 <= 1)%Q) (log_train logs) ∧
    Forall (λ entry, (0 <= entry.2)%Q ∧ (entry.2 <= 1)%Q) (log_valid logs).
Proof.
  exact (train_model_log_accuracies (torch := constant_torch) sample_dataset
           sample_dataset 3 BCEWithLogitsLoss 2 sample_world
           sample_dataset_loadable sample_dataset_nonempty
           sample_dataset_loadable sample_dataset_nonempty (Nat.lt_0_succ 2)).
Defined.

Lemma calculate_accuracy_agrees_witness :
  ∃ loss acc w1 w2,
    calculate_loss_and_accuracy (torch := constant_torch) BCEWithLogitsLoss
      {| dataset := sample_dataset; batch_size := len sample_dataset; shuffle := false |}
      sample_world
    = Ok ((loss, acc), w1) ∧
    calculate_accuracy (torch := constant_torch) sample_dataset sample_world
    = Ok (acc, w2).
Proof.
  exact (calculate_accuracy_agrees (torch := constant_torch) BCEWithLogitsLoss
           sample_dataset sample_world sample_dataset_loadable sample_dataset_nonempty).
Defined.
